(** * slideviewer: the TIFF / BigTIFF reader and the block codec of [src/tiff.c]

    A shallow embedding of [src/tiff.c] and the properties of its reader
    ([open_tiff_file], [tiff_read_ifd]), of its positioned read
    ([file_read_at_offset]) and of its wire codec ([tiff_serialize],
    [tiff_deserialize]).

    Conventions.
    - A byte is a [Z]; memory and file contents are [list Z].  The host is
      little-endian, as the comments of the source say ("native
      (=little-endian)").
    - A C integer of width w is a [Z] reduced with [mod 2^w] where the source
      can wrap; casts to signed types are written out ([i32], [i64]).
    - A C function that can fail returns an [outcome]: [Done] for the value,
      [Failed] for [return false] / [goto fail], [Aborted] where the process
      does not return to its caller, [OutOfFuel] for a loop cut short by the
      model's fuel. *)

From Stdlib Require Import String Ascii.
From Stdlib Require Import ZArith List Lia Bool.
From Stdlib Require Import Floats.SpecFloat.
Import ListNotations.
Local Open Scope Z_scope.

(* ================================================================== *)
(** * Outcomes of fallible code *)

Inductive abort_reason : Type :=
| AssertionFailed   (* an ASSERT(...) that does not hold, when assertions are compiled in *)
| ExitCalled        (* push_size(): exit(1) *)
| OutOfBounds.      (* an access outside the object it points into *)

Inductive outcome (A : Type) : Type :=
| Done (a : A)
| Failed
| Aborted (r : abort_reason)
| OutOfFuel.

Arguments Done {A} a.
Arguments Failed {A}.
Arguments Aborted {A} r.
Arguments OutOfFuel {A}.

Definition bind {A B : Type} (m : outcome A) (k : A -> outcome B) : outcome B :=
  match m with
  | Done a => k a
  | Failed => Failed
  | Aborted r => Aborted r
  | OutOfFuel => OutOfFuel
  end.

Notation "x <- m ;; k" := (bind m (fun x => k))
  (at level 61, m at next level, right associativity).
Notation "' p <- m ;; k" := (bind m (fun p => k))
  (at level 61, p pattern, m at next level, right associativity).

Definition succeeded {A : Type} (m : outcome A) : bool :=
  match m with Done _ => true | _ => false end.

(** [common.h] is not part of the tree, so whether [ASSERT] is compiled in
    is a parameter of the model. *)
Class common_h : Type := { ASSERT_enabled : bool }.

Definition ASSERT {C : common_h} (cond : bool) : outcome unit :=
  if ASSERT_enabled && negb cond then Aborted AssertionFailed else Done tt.

(* ================================================================== *)
(** * Machine integers and bytes *)

Definition u8  (x : Z) : Z := x mod 2^8.
Definition u16 (x : Z) : Z := x mod 2^16.
Definition u32 (x : Z) : Z := x mod 2^32.
Definition u64 (x : Z) : Z := x mod 2^64.
Definition i32 (x : Z) : Z := (x + 2^31) mod 2^32 - 2^31.
Definition i64 (x : Z) : Z := (x + 2^63) mod 2^64 - 2^63.
Definition INT32_MAX : Z := 2^31 - 1.

(** Little-endian object representation.  Of a byte only its value modulo
    256 counts. *)
Fixpoint le_decode (bs : list Z) : Z :=
  match bs with
  | [] => 0
  | b :: r => b mod 256 + 256 * le_decode r
  end.

Fixpoint le_encode (n : nat) (v : Z) : list Z :=
  match n with
  | O => []
  | S k => v mod 256 :: le_encode k (v / 256)
  end.

(** The first [n] elements of a list, and the list without them. *)
Fixpoint take {A : Type} (l : list A) (n : Z) : list A :=
  match l with
  | [] => []
  | x :: r => if n <=? 0 then [] else x :: take r (n - 1)
  end.

Fixpoint drop {A : Type} (l : list A) (n : Z) : list A :=
  match l with
  | [] => []
  | x :: r => if n <=? 0 then l else drop r (n - 1)
  end.

(** [n] bytes of [mem] from offset [off]. *)
Definition slice (mem : list Z) (off n : Z) : list Z := take (drop mem off) n.

(** [*(uN* )(mem + off)] for a region known to be in bounds. *)
Definition load (n : Z) (mem : list Z) (off : Z) : Z := le_decode (slice mem off n).

(** A store of [bs] at offset [off], within bounds. *)
Definition store (mem : list Z) (off : Z) (bs : list Z) : list Z :=
  take mem off ++ bs ++ drop mem (off + Z.of_nat (length bs)).

(** [bswap_16], [bswap_32], [bswap_64]: reverse the object representation. *)
Definition bswap (n : nat) (x : Z) : Z := le_decode (rev (le_encode n x)).
Definition bswap_16 : Z -> Z := bswap 2.
Definition bswap_32 : Z -> Z := bswap 4.
Definition bswap_64 : Z -> Z := bswap 8.

(** Modelled from the spec: [maybe_swap_16/32/64] are declared in [common.h],
    which is not in the tree; the spec (4.1) describes them as the "conditional
    variants gated by an is_big_endian flag" of the swaps. *)
Definition maybe_swap_16 (x : Z) (is_big_endian : bool) : Z :=
  if is_big_endian then bswap_16 x else x.
Definition maybe_swap_32 (x : Z) (is_big_endian : bool) : Z :=
  if is_big_endian then bswap_32 x else x.
Definition maybe_swap_64 (x : Z) (is_big_endian : bool) : Z :=
  if is_big_endian then bswap_64 x else x.

(** [ATLEAST(a, b)] of [common.h]: the larger of the two. *)
Definition ATLEAST (a b : Z) : Z := Z.max a b.

(** [calloc]: a zeroed region. *)
Definition calloc (n : Z) : list Z := repeat 0 (Z.to_nat n).

(** [memcpy(dst, src, n)] into the start of [dst]. *)
Definition memcpy (dst src : list Z) (n : Z) : list Z :=
  store dst 0 (take src n).

(* ================================================================== *)
(** * The stdio stream *)

(** A [FILE*] opened for reading: the bytes of the file and the file
    position indicator. *)
Record FILE : Type := { f_bytes : list Z; f_pos : Z }.

Definition fgetpos64 (fp : FILE) : Z * Z := (0, f_pos fp).

Definition fsetpos64 (fp : FILE) (pos : Z) : Z * FILE :=
  (0, {| f_bytes := f_bytes fp; f_pos := pos |}).

(** [fseeko64(fp, offset, SEEK_SET)]: the offset arrives as an [off64_t]; a
    negative one is refused and leaves the position alone. *)
Definition fseeko64 (fp : FILE) (offset : Z) : Z * FILE :=
  let off := i64 offset in
  if off <? 0 then (-1, fp)
  else (0, {| f_bytes := f_bytes fp; f_pos := off |}).

(** [fread(dest, size, 1, fp)]: the bytes transferred, the number of items
    read (1 or 0) and the stream afterwards.  A zero [size] reads nothing and
    returns 0; a short read transfers what is left and returns 0. *)
Definition fread (size : Z) (fp : FILE) : list Z * Z * FILE :=
  if size =? 0 then ([], 0, fp)
  else
    let got := slice (f_bytes fp) (f_pos fp) size in
    (got,
     (if Z.of_nat (length got) =? size then 1 else 0),
     {| f_bytes := f_bytes fp; f_pos := f_pos fp + Z.of_nat (length got) |}).

Section Reader.
Context {C : common_h}.

(** [file_read_at_offset(dest, fp, offset, num_bytes)]: the bytes that
    reached [dest], the return value and the stream afterwards. *)
Definition file_read_at_offset (fp : FILE) (offset num_bytes : Z)
  : outcome (list Z * Z * FILE) :=
  let '(ret, prev_read_pos) := fgetpos64 fp in
  _ <- ASSERT (ret =? 0) ;;
  let '(_, fp1) := fseeko64 fp offset in
  let '(got, result, fp2) := fread num_bytes fp1 in
  let '(ret, fp3) := fsetpos64 fp2 prev_read_pos in
  _ <- ASSERT (ret =? 0) ;;
  Done (got, result, fp3).

End Reader.

(* ================================================================== *)
(** * The TIFF data model *)

(** binary32 arithmetic: the [float] fields of the descriptor. *)
Definition float : Type := spec_float.
Definition float_mul : float -> float -> float := SFmul 24 128.
Definition float_of_Z (z : Z) : float := binary_normalize 24 128 z 0 false.
Definition float_zero : float := S754_zero false.
Definition float_0_25 : float := binary_normalize 24 128 1 (-2) false.
Definition float_2_0 : float := binary_normalize 24 128 2 0 false.

(** Modelled from the spec: [tiff.h] is not part of the tree.  The data type
    codes are those of the TIFF 6.0 and BigTIFF specifications, which the spec
    (4.2, 6) refers to; the tag codes are the table of spec 4.4; the byte-order
    marks and the REDUCEDIMAGE bit are those of spec 6 and 4.4. *)
Definition TIFF_UINT8 : Z := 1.
Definition TIFF_ASCII : Z := 2.
Definition TIFF_UINT16 : Z := 3.
Definition TIFF_UINT32 : Z := 4.
Definition TIFF_RATIONAL : Z := 5.
Definition TIFF_INT8 : Z := 6.
Definition TIFF_UNDEFINED : Z := 7.
Definition TIFF_INT16 : Z := 8.
Definition TIFF_INT32 : Z := 9.
Definition TIFF_SRATIONAL : Z := 10.
Definition TIFF_FLOAT : Z := 11.
Definition TIFF_DOUBLE : Z := 12.
Definition TIFF_IFD : Z := 13.
Definition TIFF_UINT64 : Z := 16.
Definition TIFF_INT64 : Z := 17.
Definition TIFF_IFD8 : Z := 18.

Definition TIFF_TAG_NEW_SUBFILE_TYPE : Z := 254.
Definition TIFF_TAG_IMAGE_WIDTH : Z := 256.
Definition TIFF_TAG_IMAGE_LENGTH : Z := 257.
Definition TIFF_TAG_BITS_PER_SAMPLE : Z := 258.
Definition TIFF_TAG_COMPRESSION : Z := 259.
Definition TIFF_TAG_PHOTOMETRIC_INTERPRETATION : Z := 262.
Definition TIFF_TAG_IMAGE_DESCRIPTION : Z := 270.
Definition TIFF_TAG_TILE_WIDTH : Z := 322.
Definition TIFF_TAG_TILE_LENGTH : Z := 323.
Definition TIFF_TAG_TILE_OFFSETS : Z := 324.
Definition TIFF_TAG_TILE_BYTE_COUNTS : Z := 325.
Definition TIFF_TAG_JPEG_TABLES : Z := 347.
Definition TIFF_TAG_YCBCRSUBSAMPLING : Z := 530.
Definition TIFF_TAG_REFERENCEBLACKWHITE : Z := 532.

Definition TIFF_BIG_ENDIAN : Z := 0x4D4D.
Definition TIFF_LITTLE_ENDIAN : Z := 0x4949.
Definition TIFF_FILETYPE_REDUCEDIMAGE : Z := 1.
Definition TIFF_PHOTOMETRIC_RGB : Z := 2.

(** The subimage type; [TIFF_UNKNOWN_SUBIMAGE] is the zero of the enum. *)
Inductive tiff_subimage_type : Type :=
| TIFF_UNKNOWN_SUBIMAGE
| TIFF_LEVEL_SUBIMAGE
| TIFF_MACRO_SUBIMAGE
| TIFF_LABEL_SUBIMAGE.

Definition subimage_type_eqb (a b : tiff_subimage_type) : bool :=
  match a, b with
  | TIFF_UNKNOWN_SUBIMAGE, TIFF_UNKNOWN_SUBIMAGE
  | TIFF_LEVEL_SUBIMAGE, TIFF_LEVEL_SUBIMAGE
  | TIFF_MACRO_SUBIMAGE, TIFF_MACRO_SUBIMAGE
  | TIFF_LABEL_SUBIMAGE, TIFF_LABEL_SUBIMAGE => true
  | _, _ => false
  end.

(** [tiff_rational_t]: the components [a] and [b], 32 bits each. *)
Definition tiff_rational_t : Type := (Z * Z)%type.

(** [tiff_tag_t].  [data] is the 8-byte array that shares its storage with
    [offset] and with the [data_u16], [data_u32] and [data_u64] views. *)
Record tiff_tag_t : Type := mk_tag {
  code : Z;             (* u16 *)
  data_type : Z;        (* u16 *)
  data_count : Z;       (* u64 *)
  data : list Z;        (* u8[8] *)
  data_is_offset : bool
}.

Definition offset (tag : tiff_tag_t) : Z := load 8 (data tag) 0.
Definition data_u16 (tag : tiff_tag_t) : Z := load 2 (data tag) 0.
Definition data_u32 (tag : tiff_tag_t) : Z := load 4 (data tag) 0.
Definition data_u64 (tag : tiff_tag_t) : Z := load 8 (data tag) 0.

(** [tiff_ifd_t] and [tiff_t].  The pointers [main_image], [macro_image],
    [label_image] and [level_images] of [tiff_t] are positions in [ifds] and
    are represented by the index fields next to them; the stream [fp] is
    threaded through the reader as a separate argument. *)
Record tiff_ifd_t : Type := mk_ifd {
  ifd_index : Z;  (* u64 *)
  image_width : Z;  (* u32 *)
  image_height : Z;  (* u32 *)
  tile_width : Z;  (* u32 *)
  tile_height : Z;  (* u32 *)
  tile_count : Z;  (* u64 *)
  tile_offsets : option (list Z);  (* u64*, NULL is None *)
  tile_byte_counts : option (list Z);  (* u64* *)
  image_description : option (list Z);  (* char* *)
  image_description_length : Z;  (* u64 *)
  jpeg_tables : option (list Z);  (* u8* *)
  jpeg_tables_length : Z;  (* u64 *)
  compression : Z;  (* u16 *)
  color_space : Z;  (* u16 *)
  tiff_subfiletype : Z;  (* u32 *)
  subimage_type : tiff_subimage_type;
  level_magnification : float;
  width_in_tiles : Z;  (* u32 *)
  height_in_tiles : Z;  (* u32 *)
  um_per_pixel_x : float;
  um_per_pixel_y : float;
  x_tile_side_in_um : float;
  y_tile_side_in_um : float;
  chroma_subsampling_horizontal : Z;  (* u16 *)
  chroma_subsampling_vertical : Z;  (* u16 *)
  reference_black_white_rational_count : Z;  (* u64 *)
  reference_black_white : option (list tiff_rational_t)
}.

Definition set_image_width (v : Z) (x : tiff_ifd_t) : tiff_ifd_t :=
  {| ifd_index := ifd_index x; image_width := v; image_height := image_height x;
  tile_width := tile_width x; tile_height := tile_height x; tile_count :=
  tile_count x; tile_offsets := tile_offsets x; tile_byte_counts :=
  tile_byte_counts x; image_description := image_description x;
  image_description_length := image_description_length x; jpeg_tables :=
  jpeg_tables x; jpeg_tables_length := jpeg_tables_length x; compression :=
  compression x; color_space := color_space x; tiff_subfiletype :=
  tiff_subfiletype x; subimage_type := subimage_type x; level_magnification :=
  level_magnification x; width_in_tiles := width_in_tiles x; height_in_tiles :=
  height_in_tiles x; um_per_pixel_x := um_per_pixel_x x; um_per_pixel_y :=
  um_per_pixel_y x; x_tile_side_in_um := x_tile_side_in_um x; y_tile_side_in_um
  := y_tile_side_in_um x; chroma_subsampling_horizontal :=
  chroma_subsampling_horizontal x; chroma_subsampling_vertical :=
  chroma_subsampling_vertical x; reference_black_white_rational_count :=
  reference_black_white_rational_count x; reference_black_white :=
  reference_black_white x |}.
Definition set_image_height (v : Z) (x : tiff_ifd_t) : tiff_ifd_t :=
  {| ifd_index := ifd_index x; image_width := image_width x; image_height := v;
  tile_width := tile_width x; tile_height := tile_height x; tile_count :=
  tile_count x; tile_offsets := tile_offsets x; tile_byte_counts :=
  tile_byte_counts x; image_description := image_description x;
  image_description_length := image_description_length x; jpeg_tables :=
  jpeg_tables x; jpeg_tables_length := jpeg_tables_length x; compression :=
  compression x; color_space := color_space x; tiff_subfiletype :=
  tiff_subfiletype x; subimage_type := subimage_type x; level_magnification :=
  level_magnification x; width_in_tiles := width_in_tiles x; height_in_tiles :=
  height_in_tiles x; um_per_pixel_x := um_per_pixel_x x; um_per_pixel_y :=
  um_per_pixel_y x; x_tile_side_in_um := x_tile_side_in_um x; y_tile_side_in_um
  := y_tile_side_in_um x; chroma_subsampling_horizontal :=
  chroma_subsampling_horizontal x; chroma_subsampling_vertical :=
  chroma_subsampling_vertical x; reference_black_white_rational_count :=
  reference_black_white_rational_count x; reference_black_white :=
  reference_black_white x |}.
Definition set_tile_width (v : Z) (x : tiff_ifd_t) : tiff_ifd_t :=
  {| ifd_index := ifd_index x; image_width := image_width x; image_height :=
  image_height x; tile_width := v; tile_height := tile_height x; tile_count :=
  tile_count x; tile_offsets := tile_offsets x; tile_byte_counts :=
  tile_byte_counts x; image_description := image_description x;
  image_description_length := image_description_length x; jpeg_tables :=
  jpeg_tables x; jpeg_tables_length := jpeg_tables_length x; compression :=
  compression x; color_space := color_space x; tiff_subfiletype :=
  tiff_subfiletype x; subimage_type := subimage_type x; level_magnification :=
  level_magnification x; width_in_tiles := width_in_tiles x; height_in_tiles :=
  height_in_tiles x; um_per_pixel_x := um_per_pixel_x x; um_per_pixel_y :=
  um_per_pixel_y x; x_tile_side_in_um := x_tile_side_in_um x; y_tile_side_in_um
  := y_tile_side_in_um x; chroma_subsampling_horizontal :=
  chroma_subsampling_horizontal x; chroma_subsampling_vertical :=
  chroma_subsampling_vertical x; reference_black_white_rational_count :=
  reference_black_white_rational_count x; reference_black_white :=
  reference_black_white x |}.
Definition set_tile_height (v : Z) (x : tiff_ifd_t) : tiff_ifd_t :=
  {| ifd_index := ifd_index x; image_width := image_width x; image_height :=
  image_height x; tile_width := tile_width x; tile_height := v; tile_count :=
  tile_count x; tile_offsets := tile_offsets x; tile_byte_counts :=
  tile_byte_counts x; image_description := image_description x;
  image_description_length := image_description_length x; jpeg_tables :=
  jpeg_tables x; jpeg_tables_length := jpeg_tables_length x; compression :=
  compression x; color_space := color_space x; tiff_subfiletype :=
  tiff_subfiletype x; subimage_type := subimage_type x; level_magnification :=
  level_magnification x; width_in_tiles := width_in_tiles x; height_in_tiles :=
  height_in_tiles x; um_per_pixel_x := um_per_pixel_x x; um_per_pixel_y :=
  um_per_pixel_y x; x_tile_side_in_um := x_tile_side_in_um x; y_tile_side_in_um
  := y_tile_side_in_um x; chroma_subsampling_horizontal :=
  chroma_subsampling_horizontal x; chroma_subsampling_vertical :=
  chroma_subsampling_vertical x; reference_black_white_rational_count :=
  reference_black_white_rational_count x; reference_black_white :=
  reference_black_white x |}.
Definition set_tile_count (v : Z) (x : tiff_ifd_t) : tiff_ifd_t :=
  {| ifd_index := ifd_index x; image_width := image_width x; image_height :=
  image_height x; tile_width := tile_width x; tile_height := tile_height x;
  tile_count := v; tile_offsets := tile_offsets x; tile_byte_counts :=
  tile_byte_counts x; image_description := image_description x;
  image_description_length := image_description_length x; jpeg_tables :=
  jpeg_tables x; jpeg_tables_length := jpeg_tables_length x; compression :=
  compression x; color_space := color_space x; tiff_subfiletype :=
  tiff_subfiletype x; subimage_type := subimage_type x; level_magnification :=
  level_magnification x; width_in_tiles := width_in_tiles x; height_in_tiles :=
  height_in_tiles x; um_per_pixel_x := um_per_pixel_x x; um_per_pixel_y :=
  um_per_pixel_y x; x_tile_side_in_um := x_tile_side_in_um x; y_tile_side_in_um
  := y_tile_side_in_um x; chroma_subsampling_horizontal :=
  chroma_subsampling_horizontal x; chroma_subsampling_vertical :=
  chroma_subsampling_vertical x; reference_black_white_rational_count :=
  reference_black_white_rational_count x; reference_black_white :=
  reference_black_white x |}.
Definition set_tile_offsets (v : option (list Z)) (x : tiff_ifd_t) : tiff_ifd_t :=
  {| ifd_index := ifd_index x; image_width := image_width x; image_height :=
  image_height x; tile_width := tile_width x; tile_height := tile_height x;
  tile_count := tile_count x; tile_offsets := v; tile_byte_counts :=
  tile_byte_counts x; image_description := image_description x;
  image_description_length := image_description_length x; jpeg_tables :=
  jpeg_tables x; jpeg_tables_length := jpeg_tables_length x; compression :=
  compression x; color_space := color_space x; tiff_subfiletype :=
  tiff_subfiletype x; subimage_type := subimage_type x; level_magnification :=
  level_magnification x; width_in_tiles := width_in_tiles x; height_in_tiles :=
  height_in_tiles x; um_per_pixel_x := um_per_pixel_x x; um_per_pixel_y :=
  um_per_pixel_y x; x_tile_side_in_um := x_tile_side_in_um x; y_tile_side_in_um
  := y_tile_side_in_um x; chroma_subsampling_horizontal :=
  chroma_subsampling_horizontal x; chroma_subsampling_vertical :=
  chroma_subsampling_vertical x; reference_black_white_rational_count :=
  reference_black_white_rational_count x; reference_black_white :=
  reference_black_white x |}.
Definition set_tile_byte_counts (v : option (list Z)) (x : tiff_ifd_t) : tiff_ifd_t :=
  {| ifd_index := ifd_index x; image_width := image_width x; image_height :=
  image_height x; tile_width := tile_width x; tile_height := tile_height x;
  tile_count := tile_count x; tile_offsets := tile_offsets x; tile_byte_counts
  := v; image_description := image_description x; image_description_length :=
  image_description_length x; jpeg_tables := jpeg_tables x; jpeg_tables_length
  := jpeg_tables_length x; compression := compression x; color_space :=
  color_space x; tiff_subfiletype := tiff_subfiletype x; subimage_type :=
  subimage_type x; level_magnification := level_magnification x; width_in_tiles
  := width_in_tiles x; height_in_tiles := height_in_tiles x; um_per_pixel_x :=
  um_per_pixel_x x; um_per_pixel_y := um_per_pixel_y x; x_tile_side_in_um :=
  x_tile_side_in_um x; y_tile_side_in_um := y_tile_side_in_um x;
  chroma_subsampling_horizontal := chroma_subsampling_horizontal x;
  chroma_subsampling_vertical := chroma_subsampling_vertical x;
  reference_black_white_rational_count := reference_black_white_rational_count
  x; reference_black_white := reference_black_white x |}.
Definition set_image_description (v : option (list Z)) (x : tiff_ifd_t) : tiff_ifd_t :=
  {| ifd_index := ifd_index x; image_width := image_width x; image_height :=
  image_height x; tile_width := tile_width x; tile_height := tile_height x;
  tile_count := tile_count x; tile_offsets := tile_offsets x; tile_byte_counts
  := tile_byte_counts x; image_description := v; image_description_length :=
  image_description_length x; jpeg_tables := jpeg_tables x; jpeg_tables_length
  := jpeg_tables_length x; compression := compression x; color_space :=
  color_space x; tiff_subfiletype := tiff_subfiletype x; subimage_type :=
  subimage_type x; level_magnification := level_magnification x; width_in_tiles
  := width_in_tiles x; height_in_tiles := height_in_tiles x; um_per_pixel_x :=
  um_per_pixel_x x; um_per_pixel_y := um_per_pixel_y x; x_tile_side_in_um :=
  x_tile_side_in_um x; y_tile_side_in_um := y_tile_side_in_um x;
  chroma_subsampling_horizontal := chroma_subsampling_horizontal x;
  chroma_subsampling_vertical := chroma_subsampling_vertical x;
  reference_black_white_rational_count := reference_black_white_rational_count
  x; reference_black_white := reference_black_white x |}.
Definition set_image_description_length (v : Z) (x : tiff_ifd_t) : tiff_ifd_t :=
  {| ifd_index := ifd_index x; image_width := image_width x; image_height :=
  image_height x; tile_width := tile_width x; tile_height := tile_height x;
  tile_count := tile_count x; tile_offsets := tile_offsets x; tile_byte_counts
  := tile_byte_counts x; image_description := image_description x;
  image_description_length := v; jpeg_tables := jpeg_tables x;
  jpeg_tables_length := jpeg_tables_length x; compression := compression x;
  color_space := color_space x; tiff_subfiletype := tiff_subfiletype x;
  subimage_type := subimage_type x; level_magnification := level_magnification
  x; width_in_tiles := width_in_tiles x; height_in_tiles := height_in_tiles x;
  um_per_pixel_x := um_per_pixel_x x; um_per_pixel_y := um_per_pixel_y x;
  x_tile_side_in_um := x_tile_side_in_um x; y_tile_side_in_um :=
  y_tile_side_in_um x; chroma_subsampling_horizontal :=
  chroma_subsampling_horizontal x; chroma_subsampling_vertical :=
  chroma_subsampling_vertical x; reference_black_white_rational_count :=
  reference_black_white_rational_count x; reference_black_white :=
  reference_black_white x |}.
Definition set_jpeg_tables (v : option (list Z)) (x : tiff_ifd_t) : tiff_ifd_t :=
  {| ifd_index := ifd_index x; image_width := image_width x; image_height :=
  image_height x; tile_width := tile_width x; tile_height := tile_height x;
  tile_count := tile_count x; tile_offsets := tile_offsets x; tile_byte_counts
  := tile_byte_counts x; image_description := image_description x;
  image_description_length := image_description_length x; jpeg_tables := v;
  jpeg_tables_length := jpeg_tables_length x; compression := compression x;
  color_space := color_space x; tiff_subfiletype := tiff_subfiletype x;
  subimage_type := subimage_type x; level_magnification := level_magnification
  x; width_in_tiles := width_in_tiles x; height_in_tiles := height_in_tiles x;
  um_per_pixel_x := um_per_pixel_x x; um_per_pixel_y := um_per_pixel_y x;
  x_tile_side_in_um := x_tile_side_in_um x; y_tile_side_in_um :=
  y_tile_side_in_um x; chroma_subsampling_horizontal :=
  chroma_subsampling_horizontal x; chroma_subsampling_vertical :=
  chroma_subsampling_vertical x; reference_black_white_rational_count :=
  reference_black_white_rational_count x; reference_black_white :=
  reference_black_white x |}.
Definition set_jpeg_tables_length (v : Z) (x : tiff_ifd_t) : tiff_ifd_t :=
  {| ifd_index := ifd_index x; image_width := image_width x; image_height :=
  image_height x; tile_width := tile_width x; tile_height := tile_height x;
  tile_count := tile_count x; tile_offsets := tile_offsets x; tile_byte_counts
  := tile_byte_counts x; image_description := image_description x;
  image_description_length := image_description_length x; jpeg_tables :=
  jpeg_tables x; jpeg_tables_length := v; compression := compression x;
  color_space := color_space x; tiff_subfiletype := tiff_subfiletype x;
  subimage_type := subimage_type x; level_magnification := level_magnification
  x; width_in_tiles := width_in_tiles x; height_in_tiles := height_in_tiles x;
  um_per_pixel_x := um_per_pixel_x x; um_per_pixel_y := um_per_pixel_y x;
  x_tile_side_in_um := x_tile_side_in_um x; y_tile_side_in_um :=
  y_tile_side_in_um x; chroma_subsampling_horizontal :=
  chroma_subsampling_horizontal x; chroma_subsampling_vertical :=
  chroma_subsampling_vertical x; reference_black_white_rational_count :=
  reference_black_white_rational_count x; reference_black_white :=
  reference_black_white x |}.
Definition set_compression (v : Z) (x : tiff_ifd_t) : tiff_ifd_t :=
  {| ifd_index := ifd_index x; image_width := image_width x; image_height :=
  image_height x; tile_width := tile_width x; tile_height := tile_height x;
  tile_count := tile_count x; tile_offsets := tile_offsets x; tile_byte_counts
  := tile_byte_counts x; image_description := image_description x;
  image_description_length := image_description_length x; jpeg_tables :=
  jpeg_tables x; jpeg_tables_length := jpeg_tables_length x; compression := v;
  color_space := color_space x; tiff_subfiletype := tiff_subfiletype x;
  subimage_type := subimage_type x; level_magnification := level_magnification
  x; width_in_tiles := width_in_tiles x; height_in_tiles := height_in_tiles x;
  um_per_pixel_x := um_per_pixel_x x; um_per_pixel_y := um_per_pixel_y x;
  x_tile_side_in_um := x_tile_side_in_um x; y_tile_side_in_um :=
  y_tile_side_in_um x; chroma_subsampling_horizontal :=
  chroma_subsampling_horizontal x; chroma_subsampling_vertical :=
  chroma_subsampling_vertical x; reference_black_white_rational_count :=
  reference_black_white_rational_count x; reference_black_white :=
  reference_black_white x |}.
Definition set_color_space (v : Z) (x : tiff_ifd_t) : tiff_ifd_t :=
  {| ifd_index := ifd_index x; image_width := image_width x; image_height :=
  image_height x; tile_width := tile_width x; tile_height := tile_height x;
  tile_count := tile_count x; tile_offsets := tile_offsets x; tile_byte_counts
  := tile_byte_counts x; image_description := image_description x;
  image_description_length := image_description_length x; jpeg_tables :=
  jpeg_tables x; jpeg_tables_length := jpeg_tables_length x; compression :=
  compression x; color_space := v; tiff_subfiletype := tiff_subfiletype x;
  subimage_type := subimage_type x; level_magnification := level_magnification
  x; width_in_tiles := width_in_tiles x; height_in_tiles := height_in_tiles x;
  um_per_pixel_x := um_per_pixel_x x; um_per_pixel_y := um_per_pixel_y x;
  x_tile_side_in_um := x_tile_side_in_um x; y_tile_side_in_um :=
  y_tile_side_in_um x; chroma_subsampling_horizontal :=
  chroma_subsampling_horizontal x; chroma_subsampling_vertical :=
  chroma_subsampling_vertical x; reference_black_white_rational_count :=
  reference_black_white_rational_count x; reference_black_white :=
  reference_black_white x |}.
Definition set_tiff_subfiletype (v : Z) (x : tiff_ifd_t) : tiff_ifd_t :=
  {| ifd_index := ifd_index x; image_width := image_width x; image_height :=
  image_height x; tile_width := tile_width x; tile_height := tile_height x;
  tile_count := tile_count x; tile_offsets := tile_offsets x; tile_byte_counts
  := tile_byte_counts x; image_description := image_description x;
  image_description_length := image_description_length x; jpeg_tables :=
  jpeg_tables x; jpeg_tables_length := jpeg_tables_length x; compression :=
  compression x; color_space := color_space x; tiff_subfiletype := v;
  subimage_type := subimage_type x; level_magnification := level_magnification
  x; width_in_tiles := width_in_tiles x; height_in_tiles := height_in_tiles x;
  um_per_pixel_x := um_per_pixel_x x; um_per_pixel_y := um_per_pixel_y x;
  x_tile_side_in_um := x_tile_side_in_um x; y_tile_side_in_um :=
  y_tile_side_in_um x; chroma_subsampling_horizontal :=
  chroma_subsampling_horizontal x; chroma_subsampling_vertical :=
  chroma_subsampling_vertical x; reference_black_white_rational_count :=
  reference_black_white_rational_count x; reference_black_white :=
  reference_black_white x |}.
Definition set_subimage_type (v : tiff_subimage_type) (x : tiff_ifd_t) : tiff_ifd_t :=
  {| ifd_index := ifd_index x; image_width := image_width x; image_height :=
  image_height x; tile_width := tile_width x; tile_height := tile_height x;
  tile_count := tile_count x; tile_offsets := tile_offsets x; tile_byte_counts
  := tile_byte_counts x; image_description := image_description x;
  image_description_length := image_description_length x; jpeg_tables :=
  jpeg_tables x; jpeg_tables_length := jpeg_tables_length x; compression :=
  compression x; color_space := color_space x; tiff_subfiletype :=
  tiff_subfiletype x; subimage_type := v; level_magnification :=
  level_magnification x; width_in_tiles := width_in_tiles x; height_in_tiles :=
  height_in_tiles x; um_per_pixel_x := um_per_pixel_x x; um_per_pixel_y :=
  um_per_pixel_y x; x_tile_side_in_um := x_tile_side_in_um x; y_tile_side_in_um
  := y_tile_side_in_um x; chroma_subsampling_horizontal :=
  chroma_subsampling_horizontal x; chroma_subsampling_vertical :=
  chroma_subsampling_vertical x; reference_black_white_rational_count :=
  reference_black_white_rational_count x; reference_black_white :=
  reference_black_white x |}.
Definition set_width_in_tiles (v : Z) (x : tiff_ifd_t) : tiff_ifd_t :=
  {| ifd_index := ifd_index x; image_width := image_width x; image_height :=
  image_height x; tile_width := tile_width x; tile_height := tile_height x;
  tile_count := tile_count x; tile_offsets := tile_offsets x; tile_byte_counts
  := tile_byte_counts x; image_description := image_description x;
  image_description_length := image_description_length x; jpeg_tables :=
  jpeg_tables x; jpeg_tables_length := jpeg_tables_length x; compression :=
  compression x; color_space := color_space x; tiff_subfiletype :=
  tiff_subfiletype x; subimage_type := subimage_type x; level_magnification :=
  level_magnification x; width_in_tiles := v; height_in_tiles := height_in_tiles
  x; um_per_pixel_x := um_per_pixel_x x; um_per_pixel_y := um_per_pixel_y x;
  x_tile_side_in_um := x_tile_side_in_um x; y_tile_side_in_um :=
  y_tile_side_in_um x; chroma_subsampling_horizontal :=
  chroma_subsampling_horizontal x; chroma_subsampling_vertical :=
  chroma_subsampling_vertical x; reference_black_white_rational_count :=
  reference_black_white_rational_count x; reference_black_white :=
  reference_black_white x |}.
Definition set_height_in_tiles (v : Z) (x : tiff_ifd_t) : tiff_ifd_t :=
  {| ifd_index := ifd_index x; image_width := image_width x; image_height :=
  image_height x; tile_width := tile_width x; tile_height := tile_height x;
  tile_count := tile_count x; tile_offsets := tile_offsets x; tile_byte_counts
  := tile_byte_counts x; image_description := image_description x;
  image_description_length := image_description_length x; jpeg_tables :=
  jpeg_tables x; jpeg_tables_length := jpeg_tables_length x; compression :=
  compression x; color_space := color_space x; tiff_subfiletype :=
  tiff_subfiletype x; subimage_type := subimage_type x; level_magnification :=
  level_magnification x; width_in_tiles := width_in_tiles x; height_in_tiles :=
  v; um_per_pixel_x := um_per_pixel_x x; um_per_pixel_y := um_per_pixel_y x;
  x_tile_side_in_um := x_tile_side_in_um x; y_tile_side_in_um :=
  y_tile_side_in_um x; chroma_subsampling_horizontal :=
  chroma_subsampling_horizontal x; chroma_subsampling_vertical :=
  chroma_subsampling_vertical x; reference_black_white_rational_count :=
  reference_black_white_rational_count x; reference_black_white :=
  reference_black_white x |}.
Definition set_um_per_pixel_x (v : float) (x : tiff_ifd_t) : tiff_ifd_t :=
  {| ifd_index := ifd_index x; image_width := image_width x; image_height :=
  image_height x; tile_width := tile_width x; tile_height := tile_height x;
  tile_count := tile_count x; tile_offsets := tile_offsets x; tile_byte_counts
  := tile_byte_counts x; image_description := image_description x;
  image_description_length := image_description_length x; jpeg_tables :=
  jpeg_tables x; jpeg_tables_length := jpeg_tables_length x; compression :=
  compression x; color_space := color_space x; tiff_subfiletype :=
  tiff_subfiletype x; subimage_type := subimage_type x; level_magnification :=
  level_magnification x; width_in_tiles := width_in_tiles x; height_in_tiles :=
  height_in_tiles x; um_per_pixel_x := v; um_per_pixel_y := um_per_pixel_y x;
  x_tile_side_in_um := x_tile_side_in_um x; y_tile_side_in_um :=
  y_tile_side_in_um x; chroma_subsampling_horizontal :=
  chroma_subsampling_horizontal x; chroma_subsampling_vertical :=
  chroma_subsampling_vertical x; reference_black_white_rational_count :=
  reference_black_white_rational_count x; reference_black_white :=
  reference_black_white x |}.
Definition set_um_per_pixel_y (v : float) (x : tiff_ifd_t) : tiff_ifd_t :=
  {| ifd_index := ifd_index x; image_width := image_width x; image_height :=
  image_height x; tile_width := tile_width x; tile_height := tile_height x;
  tile_count := tile_count x; tile_offsets := tile_offsets x; tile_byte_counts
  := tile_byte_counts x; image_description := image_description x;
  image_description_length := image_description_length x; jpeg_tables :=
  jpeg_tables x; jpeg_tables_length := jpeg_tables_length x; compression :=
  compression x; color_space := color_space x; tiff_subfiletype :=
  tiff_subfiletype x; subimage_type := subimage_type x; level_magnification :=
  level_magnification x; width_in_tiles := width_in_tiles x; height_in_tiles :=
  height_in_tiles x; um_per_pixel_x := um_per_pixel_x x; um_per_pixel_y := v;
  x_tile_side_in_um := x_tile_side_in_um x; y_tile_side_in_um :=
  y_tile_side_in_um x; chroma_subsampling_horizontal :=
  chroma_subsampling_horizontal x; chroma_subsampling_vertical :=
  chroma_subsampling_vertical x; reference_black_white_rational_count :=
  reference_black_white_rational_count x; reference_black_white :=
  reference_black_white x |}.
Definition set_x_tile_side_in_um (v : float) (x : tiff_ifd_t) : tiff_ifd_t :=
  {| ifd_index := ifd_index x; image_width := image_width x; image_height :=
  image_height x; tile_width := tile_width x; tile_height := tile_height x;
  tile_count := tile_count x; tile_offsets := tile_offsets x; tile_byte_counts
  := tile_byte_counts x; image_description := image_description x;
  image_description_length := image_description_length x; jpeg_tables :=
  jpeg_tables x; jpeg_tables_length := jpeg_tables_length x; compression :=
  compression x; color_space := color_space x; tiff_subfiletype :=
  tiff_subfiletype x; subimage_type := subimage_type x; level_magnification :=
  level_magnification x; width_in_tiles := width_in_tiles x; height_in_tiles :=
  height_in_tiles x; um_per_pixel_x := um_per_pixel_x x; um_per_pixel_y :=
  um_per_pixel_y x; x_tile_side_in_um := v; y_tile_side_in_um :=
  y_tile_side_in_um x; chroma_subsampling_horizontal :=
  chroma_subsampling_horizontal x; chroma_subsampling_vertical :=
  chroma_subsampling_vertical x; reference_black_white_rational_count :=
  reference_black_white_rational_count x; reference_black_white :=
  reference_black_white x |}.
Definition set_y_tile_side_in_um (v : float) (x : tiff_ifd_t) : tiff_ifd_t :=
  {| ifd_index := ifd_index x; image_width := image_width x; image_height :=
  image_height x; tile_width := tile_width x; tile_height := tile_height x;
  tile_count := tile_count x; tile_offsets := tile_offsets x; tile_byte_counts
  := tile_byte_counts x; image_description := image_description x;
  image_description_length := image_description_length x; jpeg_tables :=
  jpeg_tables x; jpeg_tables_length := jpeg_tables_length x; compression :=
  compression x; color_space := color_space x; tiff_subfiletype :=
  tiff_subfiletype x; subimage_type := subimage_type x; level_magnification :=
  level_magnification x; width_in_tiles := width_in_tiles x; height_in_tiles :=
  height_in_tiles x; um_per_pixel_x := um_per_pixel_x x; um_per_pixel_y :=
  um_per_pixel_y x; x_tile_side_in_um := x_tile_side_in_um x; y_tile_side_in_um
  := v; chroma_subsampling_horizontal := chroma_subsampling_horizontal x;
  chroma_subsampling_vertical := chroma_subsampling_vertical x;
  reference_black_white_rational_count := reference_black_white_rational_count
  x; reference_black_white := reference_black_white x |}.
Definition set_chroma_subsampling_horizontal (v : Z) (x : tiff_ifd_t) : tiff_ifd_t :=
  {| ifd_index := ifd_index x; image_width := image_width x; image_height :=
  image_height x; tile_width := tile_width x; tile_height := tile_height x;
  tile_count := tile_count x; tile_offsets := tile_offsets x; tile_byte_counts
  := tile_byte_counts x; image_description := image_description x;
  image_description_length := image_description_length x; jpeg_tables :=
  jpeg_tables x; jpeg_tables_length := jpeg_tables_length x; compression :=
  compression x; color_space := color_space x; tiff_subfiletype :=
  tiff_subfiletype x; subimage_type := subimage_type x; level_magnification :=
  level_magnification x; width_in_tiles := width_in_tiles x; height_in_tiles :=
  height_in_tiles x; um_per_pixel_x := um_per_pixel_x x; um_per_pixel_y :=
  um_per_pixel_y x; x_tile_side_in_um := x_tile_side_in_um x; y_tile_side_in_um
  := y_tile_side_in_um x; chroma_subsampling_horizontal := v;
  chroma_subsampling_vertical := chroma_subsampling_vertical x;
  reference_black_white_rational_count := reference_black_white_rational_count
  x; reference_black_white := reference_black_white x |}.
Definition set_chroma_subsampling_vertical (v : Z) (x : tiff_ifd_t) : tiff_ifd_t :=
  {| ifd_index := ifd_index x; image_width := image_width x; image_height :=
  image_height x; tile_width := tile_width x; tile_height := tile_height x;
  tile_count := tile_count x; tile_offsets := tile_offsets x; tile_byte_counts
  := tile_byte_counts x; image_description := image_description x;
  image_description_length := image_description_length x; jpeg_tables :=
  jpeg_tables x; jpeg_tables_length := jpeg_tables_length x; compression :=
  compression x; color_space := color_space x; tiff_subfiletype :=
  tiff_subfiletype x; subimage_type := subimage_type x; level_magnification :=
  level_magnification x; width_in_tiles := width_in_tiles x; height_in_tiles :=
  height_in_tiles x; um_per_pixel_x := um_per_pixel_x x; um_per_pixel_y :=
  um_per_pixel_y x; x_tile_side_in_um := x_tile_side_in_um x; y_tile_side_in_um
  := y_tile_side_in_um x; chroma_subsampling_horizontal :=
  chroma_subsampling_horizontal x; chroma_subsampling_vertical := v;
  reference_black_white_rational_count := reference_black_white_rational_count
  x; reference_black_white := reference_black_white x |}.
Definition set_reference_black_white_rational_count (v : Z) (x : tiff_ifd_t) : tiff_ifd_t :=
  {| ifd_index := ifd_index x; image_width := image_width x; image_height :=
  image_height x; tile_width := tile_width x; tile_height := tile_height x;
  tile_count := tile_count x; tile_offsets := tile_offsets x; tile_byte_counts
  := tile_byte_counts x; image_description := image_description x;
  image_description_length := image_description_length x; jpeg_tables :=
  jpeg_tables x; jpeg_tables_length := jpeg_tables_length x; compression :=
  compression x; color_space := color_space x; tiff_subfiletype :=
  tiff_subfiletype x; subimage_type := subimage_type x; level_magnification :=
  level_magnification x; width_in_tiles := width_in_tiles x; height_in_tiles :=
  height_in_tiles x; um_per_pixel_x := um_per_pixel_x x; um_per_pixel_y :=
  um_per_pixel_y x; x_tile_side_in_um := x_tile_side_in_um x; y_tile_side_in_um
  := y_tile_side_in_um x; chroma_subsampling_horizontal :=
  chroma_subsampling_horizontal x; chroma_subsampling_vertical :=
  chroma_subsampling_vertical x; reference_black_white_rational_count := v;
  reference_black_white := reference_black_white x |}.
Definition set_reference_black_white (v : option (list tiff_rational_t)) (x : tiff_ifd_t) : tiff_ifd_t :=
  {| ifd_index := ifd_index x; image_width := image_width x; image_height :=
  image_height x; tile_width := tile_width x; tile_height := tile_height x;
  tile_count := tile_count x; tile_offsets := tile_offsets x; tile_byte_counts
  := tile_byte_counts x; image_description := image_description x;
  image_description_length := image_description_length x; jpeg_tables :=
  jpeg_tables x; jpeg_tables_length := jpeg_tables_length x; compression :=
  compression x; color_space := color_space x; tiff_subfiletype :=
  tiff_subfiletype x; subimage_type := subimage_type x; level_magnification :=
  level_magnification x; width_in_tiles := width_in_tiles x; height_in_tiles :=
  height_in_tiles x; um_per_pixel_x := um_per_pixel_x x; um_per_pixel_y :=
  um_per_pixel_y x; x_tile_side_in_um := x_tile_side_in_um x; y_tile_side_in_um
  := y_tile_side_in_um x; chroma_subsampling_horizontal :=
  chroma_subsampling_horizontal x; chroma_subsampling_vertical :=
  chroma_subsampling_vertical x; reference_black_white_rational_count :=
  reference_black_white_rational_count x; reference_black_white := v |}.

Record tiff_t : Type := mk_tiff {
  filesize : Z;  (* i64 *)
  bytesize_of_offsets : Z;  (* u32 *)
  ifd_count : Z;  (* u64 *)
  ifds : list tiff_ifd_t;  (* the stretchy buffer / array of IFDs *)
  main_image_index : Z;
  macro_image_index : Z;
  label_image_index : Z;
  level_count : Z;
  level_image_index : Z;
  is_bigtiff : bool;  (* bool32 *)
  is_big_endian : bool;  (* bool32 *)
  mpp_x : float;
  mpp_y : float;
  is_remote : Z
}.

Definition set_bytesize_of_offsets (v : Z) (x : tiff_t) : tiff_t :=
  {| filesize := filesize x; bytesize_of_offsets := v; ifd_count := ifd_count x;
  ifds := ifds x; main_image_index := main_image_index x; macro_image_index :=
  macro_image_index x; label_image_index := label_image_index x; level_count :=
  level_count x; level_image_index := level_image_index x; is_bigtiff :=
  is_bigtiff x; is_big_endian := is_big_endian x; mpp_x := mpp_x x; mpp_y :=
  mpp_y x; is_remote := is_remote x |}.
Definition set_ifd_count (v : Z) (x : tiff_t) : tiff_t :=
  {| filesize := filesize x; bytesize_of_offsets := bytesize_of_offsets x;
  ifd_count := v; ifds := ifds x; main_image_index := main_image_index x;
  macro_image_index := macro_image_index x; label_image_index :=
  label_image_index x; level_count := level_count x; level_image_index :=
  level_image_index x; is_bigtiff := is_bigtiff x; is_big_endian :=
  is_big_endian x; mpp_x := mpp_x x; mpp_y := mpp_y x; is_remote := is_remote x
  |}.
Definition set_ifds (v : list tiff_ifd_t) (x : tiff_t) : tiff_t :=
  {| filesize := filesize x; bytesize_of_offsets := bytesize_of_offsets x;
  ifd_count := ifd_count x; ifds := v; main_image_index := main_image_index x;
  macro_image_index := macro_image_index x; label_image_index :=
  label_image_index x; level_count := level_count x; level_image_index :=
  level_image_index x; is_bigtiff := is_bigtiff x; is_big_endian :=
  is_big_endian x; mpp_x := mpp_x x; mpp_y := mpp_y x; is_remote := is_remote x
  |}.
Definition set_main_image_index (v : Z) (x : tiff_t) : tiff_t :=
  {| filesize := filesize x; bytesize_of_offsets := bytesize_of_offsets x;
  ifd_count := ifd_count x; ifds := ifds x; main_image_index := v;
  macro_image_index := macro_image_index x; label_image_index :=
  label_image_index x; level_count := level_count x; level_image_index :=
  level_image_index x; is_bigtiff := is_bigtiff x; is_big_endian :=
  is_big_endian x; mpp_x := mpp_x x; mpp_y := mpp_y x; is_remote := is_remote x
  |}.
Definition set_macro_image_index (v : Z) (x : tiff_t) : tiff_t :=
  {| filesize := filesize x; bytesize_of_offsets := bytesize_of_offsets x;
  ifd_count := ifd_count x; ifds := ifds x; main_image_index := main_image_index
  x; macro_image_index := v; label_image_index := label_image_index x;
  level_count := level_count x; level_image_index := level_image_index x;
  is_bigtiff := is_bigtiff x; is_big_endian := is_big_endian x; mpp_x := mpp_x
  x; mpp_y := mpp_y x; is_remote := is_remote x |}.
Definition set_label_image_index (v : Z) (x : tiff_t) : tiff_t :=
  {| filesize := filesize x; bytesize_of_offsets := bytesize_of_offsets x;
  ifd_count := ifd_count x; ifds := ifds x; main_image_index := main_image_index
  x; macro_image_index := macro_image_index x; label_image_index := v;
  level_count := level_count x; level_image_index := level_image_index x;
  is_bigtiff := is_bigtiff x; is_big_endian := is_big_endian x; mpp_x := mpp_x
  x; mpp_y := mpp_y x; is_remote := is_remote x |}.
Definition set_level_count (v : Z) (x : tiff_t) : tiff_t :=
  {| filesize := filesize x; bytesize_of_offsets := bytesize_of_offsets x;
  ifd_count := ifd_count x; ifds := ifds x; main_image_index := main_image_index
  x; macro_image_index := macro_image_index x; label_image_index :=
  label_image_index x; level_count := v; level_image_index := level_image_index
  x; is_bigtiff := is_bigtiff x; is_big_endian := is_big_endian x; mpp_x :=
  mpp_x x; mpp_y := mpp_y x; is_remote := is_remote x |}.
Definition set_level_image_index (v : Z) (x : tiff_t) : tiff_t :=
  {| filesize := filesize x; bytesize_of_offsets := bytesize_of_offsets x;
  ifd_count := ifd_count x; ifds := ifds x; main_image_index := main_image_index
  x; macro_image_index := macro_image_index x; label_image_index :=
  label_image_index x; level_count := level_count x; level_image_index := v;
  is_bigtiff := is_bigtiff x; is_big_endian := is_big_endian x; mpp_x := mpp_x
  x; mpp_y := mpp_y x; is_remote := is_remote x |}.
Definition set_is_bigtiff (v : bool) (x : tiff_t) : tiff_t :=
  {| filesize := filesize x; bytesize_of_offsets := bytesize_of_offsets x;
  ifd_count := ifd_count x; ifds := ifds x; main_image_index := main_image_index
  x; macro_image_index := macro_image_index x; label_image_index :=
  label_image_index x; level_count := level_count x; level_image_index :=
  level_image_index x; is_bigtiff := v; is_big_endian := is_big_endian x; mpp_x
  := mpp_x x; mpp_y := mpp_y x; is_remote := is_remote x |}.
Definition set_is_big_endian (v : bool) (x : tiff_t) : tiff_t :=
  {| filesize := filesize x; bytesize_of_offsets := bytesize_of_offsets x;
  ifd_count := ifd_count x; ifds := ifds x; main_image_index := main_image_index
  x; macro_image_index := macro_image_index x; label_image_index :=
  label_image_index x; level_count := level_count x; level_image_index :=
  level_image_index x; is_bigtiff := is_bigtiff x; is_big_endian := v; mpp_x :=
  mpp_x x; mpp_y := mpp_y x; is_remote := is_remote x |}.
Definition set_mpp_x (v : float) (x : tiff_t) : tiff_t :=
  {| filesize := filesize x; bytesize_of_offsets := bytesize_of_offsets x;
  ifd_count := ifd_count x; ifds := ifds x; main_image_index := main_image_index
  x; macro_image_index := macro_image_index x; label_image_index :=
  label_image_index x; level_count := level_count x; level_image_index :=
  level_image_index x; is_bigtiff := is_bigtiff x; is_big_endian :=
  is_big_endian x; mpp_x := v; mpp_y := mpp_y x; is_remote := is_remote x |}.
Definition set_mpp_y (v : float) (x : tiff_t) : tiff_t :=
  {| filesize := filesize x; bytesize_of_offsets := bytesize_of_offsets x;
  ifd_count := ifd_count x; ifds := ifds x; main_image_index := main_image_index
  x; macro_image_index := macro_image_index x; label_image_index :=
  label_image_index x; level_count := level_count x; level_image_index :=
  level_image_index x; is_bigtiff := is_bigtiff x; is_big_endian :=
  is_big_endian x; mpp_x := mpp_x x; mpp_y := v; is_remote := is_remote x |}.

Definition ifd_zero : tiff_ifd_t :=
  {| ifd_index := 0; image_width := 0; image_height := 0; tile_width := 0;
     tile_height := 0; tile_count := 0; tile_offsets := None;
     tile_byte_counts := None; image_description := None;
     image_description_length := 0; jpeg_tables := None;
     jpeg_tables_length := 0; compression := 0; color_space := 0;
     tiff_subfiletype := 0; subimage_type := TIFF_UNKNOWN_SUBIMAGE;
     level_magnification := float_zero; width_in_tiles := 0;
     height_in_tiles := 0; um_per_pixel_x := float_zero;
     um_per_pixel_y := float_zero; x_tile_side_in_um := float_zero;
     y_tile_side_in_um := float_zero; chroma_subsampling_horizontal := 0;
     chroma_subsampling_vertical := 0;
     reference_black_white_rational_count := 0;
     reference_black_white := None |}.

(** [(tiff_t) {}]. *)
Definition tiff_zero : tiff_t :=
  {| filesize := 0; bytesize_of_offsets := 0; ifd_count := 0; ifds := [];
     main_image_index := 0; macro_image_index := 0; label_image_index := 0;
     level_count := 0; level_image_index := 0; is_bigtiff := false;
     is_big_endian := false; mpp_x := float_zero; mpp_y := float_zero;
     is_remote := 0 |}.

(** [(tiff_ifd_t) { .ifd_index = i }]. *)
Definition ifd_with_index (i : Z) : tiff_ifd_t :=
  {| ifd_index := i; image_width := 0; image_height := 0; tile_width := 0;
     tile_height := 0; tile_count := 0; tile_offsets := None;
     tile_byte_counts := None; image_description := None;
     image_description_length := 0; jpeg_tables := None;
     jpeg_tables_length := 0; compression := 0; color_space := 0;
     tiff_subfiletype := 0; subimage_type := TIFF_UNKNOWN_SUBIMAGE;
     level_magnification := float_zero; width_in_tiles := 0;
     height_in_tiles := 0; um_per_pixel_x := float_zero;
     um_per_pixel_y := float_zero; x_tile_side_in_um := float_zero;
     y_tile_side_in_um := float_zero; chroma_subsampling_horizontal := 0;
     chroma_subsampling_vertical := 0;
     reference_black_white_rational_count := 0;
     reference_black_white := None |}.

(** A string literal as the bytes of its characters. *)
Definition lit_Macro : list Z := [77; 97; 99; 114; 111].
Definition lit_Label : list Z := [76; 97; 98; 101; 108].
Definition lit_level : list Z := [108; 101; 118; 101; 108].

(** [strncmp(s1, s2, n)] on NUL-terminated strings; the bytes after the end of
    a list are its terminator. *)
Fixpoint strncmp (s1 s2 : list Z) (n : nat) : Z :=
  match n with
  | O => 0
  | S k =>
      let c1 := hd 0 s1 in
      let c2 := hd 0 s2 in
      if c1 =? c2 then (if c1 =? 0 then 0 else strncmp (tl s1) (tl s2) k)
      else c1 - c2
  end.

(* ================================================================== *)
(** * The reader *)

Definition get_tiff_field_size (data_type : Z) : Z :=
  if (data_type =? TIFF_UINT8) || (data_type =? TIFF_INT8)
     || (data_type =? TIFF_ASCII) || (data_type =? TIFF_UNDEFINED) then 1
  else if (data_type =? TIFF_UINT16) || (data_type =? TIFF_INT16) then 2
  else if (data_type =? TIFF_UINT32) || (data_type =? TIFF_INT32)
          || (data_type =? TIFF_IFD) || (data_type =? TIFF_FLOAT) then 4
  else if (data_type =? TIFF_RATIONAL) || (data_type =? TIFF_SRATIONAL) then 8
  else if (data_type =? TIFF_DOUBLE) || (data_type =? TIFF_UINT64)
          || (data_type =? TIFF_INT64) || (data_type =? TIFF_IFD8) then 8
  else 0.

Section Parser.
Context {C : common_h}.

(** The [switch(field_size)] of [maybe_swap_tiff_field], at [pos]. *)
Definition swap_at (field : list Z) (pos field_size : Z) : outcome (list Z) :=
  if field_size =? 2 then
    Done (store field pos (le_encode 2 (bswap_16 (load 2 field pos))))
  else if field_size =? 4 then
    Done (store field pos (le_encode 4 (bswap_32 (load 4 field pos))))
  else if field_size =? 8 then
    Done (store field pos (le_encode 8 (bswap_64 (load 8 field pos))))
  else
    _ <- ASSERT false ;; Done field.

(** [maybe_swap_tiff_field(field, data_type, is_big_endian)], on the bytes at
    [field].  The loop runs [sub_count] times: twice for RATIONAL and
    SRATIONAL, once for every other type. *)
Definition maybe_swap_tiff_field (field : list Z) (data_type : Z)
    (is_big_endian : bool) : outcome (list Z) :=
  if is_big_endian then
    let field_size := get_tiff_field_size data_type in
    if field_size >? 1 then
      let sub_count :=
        if (data_type =? TIFF_RATIONAL) || (data_type =? TIFF_SRATIONAL)
        then 2%nat else 1%nat in
      fold_left
        (fun acc i => f <- acc ;; swap_at f (Z.of_nat i * field_size) field_size)
        (seq 0 sub_count) (Done field)
    else Done field
  else Done field.

(** The body of the first loop of [tiff_read_ifd]: one raw entry (12 bytes,
    or 20 in BigTIFF) restructured into a [tiff_tag_t].  The tag starts
    zeroed ([calloc]).  [maybe_swap_tiff_field] is handed the 8-byte [data]
    array; what it touches past the array (the second component of an inline
    RATIONAL) is not part of [data] and is dropped. *)
Definition read_raw_tag (is_bigtiff is_big_endian : bool) (raw : list Z)
  : outcome tiff_tag_t :=
  let code := maybe_swap_16 (load 2 raw 0) is_big_endian in
  let data_type := maybe_swap_16 (load 2 raw 2) is_big_endian in
  if is_bigtiff then
    let data_count := maybe_swap_64 (load 8 raw 4) is_big_endian in
    let field_size := get_tiff_field_size data_type in
    let data_size := u64 (field_size * data_count) in
    if data_size <=? 8 then
      let data := memcpy (calloc 8) (slice raw 12 8) 8 in
      data' <- maybe_swap_tiff_field data data_type is_big_endian ;;
      Done (mk_tag code data_type data_count (firstn 8 data') false)
    else
      Done (mk_tag code data_type data_count
              (le_encode 8 (maybe_swap_64 (load 8 raw 12) is_big_endian)) true)
  else
    let data_count := maybe_swap_32 (load 4 raw 4) is_big_endian in
    let field_size := get_tiff_field_size data_type in
    let data_size := u64 (field_size * data_count) in
    if data_size <=? 4 then
      let data := memcpy (calloc 8) (slice raw 8 4) 4 in
      data' <- maybe_swap_tiff_field data data_type is_big_endian ;;
      Done (mk_tag code data_type data_count (firstn 8 data') false)
    else
      Done (mk_tag code data_type data_count
              (le_encode 8 (maybe_swap_32 (load 4 raw 8) is_big_endian)) true).

(** [tiff_read_field_ascii]: the zeroed buffer of
    [ATLEAST(8, data_count + 1)] bytes with the field copied to its start.
    The result of the positioned read is not looked at.  An inline copy of
    more than the 8 bytes of [tag->data] reads past the array. *)
Definition tiff_read_field_ascii (fp : FILE) (tag : tiff_tag_t)
  : outcome (list Z * FILE) :=
  let description_length := data_count tag in
  let result := calloc (ATLEAST 8 (u64 (description_length + 1))) in
  if data_is_offset tag then
    '(got, _, fp') <- file_read_at_offset fp (offset tag) (data_count tag) ;;
    Done (store result 0 got, fp')
  else if description_length <=? 8 then
    Done (memcpy result (data tag) description_length, fp)
  else Aborted OutOfBounds.

Definition tiff_read_field_undefined (fp : FILE) (tag : tiff_tag_t)
  : outcome (list Z * FILE) :=
  tiff_read_field_ascii fp tag.

(** The element loops of [tiff_read_field_integers]: [count] elements of
    [bytesize] bytes each, widened to 64 bits. *)
Definition widen_elements (bytesize : Z) (is_big_endian : bool) (count : nat)
    (temp_integers : list Z) : list Z :=
  map (fun i =>
         let x := load bytesize temp_integers (Z.of_nat i * bytesize) in
         if bytesize =? 8 then (if is_big_endian then bswap_64 x else x)
         else if bytesize =? 4 then maybe_swap_32 x is_big_endian
         else if bytesize =? 2 then maybe_swap_16 x is_big_endian
         else x)
      (seq 0 count).

(** [tiff_read_field_integers]: [None] is the NULL of a failed read.  The
    loops index with an [i32] against the 64-bit [data_count], and read
    [data_count] elements from the [data_count * bytesize mod 2^64] bytes
    that were fetched. *)
Definition tiff_read_field_integers (is_big_endian : bool) (fp : FILE)
    (tag : tiff_tag_t) : outcome (option (list Z) * FILE) :=
  if data_is_offset tag then
    let bytesize := get_tiff_field_size (data_type tag) in
    '(temp_integers, ret, fp') <-
      file_read_at_offset fp (offset tag) (u64 (data_count tag * bytesize)) ;;
    if negb (ret =? 1) then Done (None, fp')
    else if (bytesize =? 8) || (bytesize =? 4) || (bytesize =? 2) || (bytesize =? 1) then
      if negb (u64 (data_count tag * bytesize) =? data_count tag * bytesize)
         || (INT32_MAX <? data_count tag)
      then Aborted OutOfBounds
      else Done (Some (widen_elements bytesize is_big_endian
                         (Z.to_nat (data_count tag)) temp_integers), fp')
    else Done (None, fp')
  else
    Done (Some [data_u64 tag], fp).

(** [tiff_read_field_rationals].  The inline branch dereferences the value
    [tag->data_u64] as an address. *)
Definition tiff_read_field_rationals (is_big_endian : bool) (fp : FILE)
    (tag : tiff_tag_t) : outcome (option (list tiff_rational_t) * FILE) :=
  let size := ATLEAST 8 (u64 (data_count tag * 8)) in
  if data_is_offset tag then
    '(got, _, fp') <- file_read_at_offset fp (offset tag) (u64 (data_count tag * 8)) ;;
    let rationals := store (calloc size) 0 got in
    if is_big_endian then
      if negb (u64 (data_count tag * 8) =? data_count tag * 8)
         || (INT32_MAX <? data_count tag)
      then Aborted OutOfBounds
      else
        Done (Some (map (fun i => (bswap_32 (load 4 rationals (Z.of_nat i * 8)),
                                   bswap_32 (load 4 rationals (Z.of_nat i * 8 + 4))))
                        (seq 0 (Z.to_nat (data_count tag)))), fp')
    else
      Done (Some (map (fun i => (load 4 rationals (Z.of_nat i * 8),
                                 load 4 rationals (Z.of_nat i * 8 + 4)))
                      (seq 0 (Z.to_nat (size / 8)))), fp')
  else Aborted OutOfBounds.

(** The body of the second loop of [tiff_read_ifd]: the [switch] on the tag
    code. *)
Definition interpret_tag (is_big_endian : bool) (fp : FILE) (ifd : tiff_ifd_t)
    (tag : tiff_tag_t) : outcome (FILE * tiff_ifd_t) :=
  let c := code tag in
  if c =? TIFF_TAG_NEW_SUBFILE_TYPE then
    Done (fp, set_tiff_subfiletype (data_u32 tag) ifd)
  else if c =? TIFF_TAG_IMAGE_WIDTH then
    Done (fp, set_image_width (data_u32 tag) ifd)
  else if c =? TIFF_TAG_IMAGE_LENGTH then
    Done (fp, set_image_height (data_u32 tag) ifd)
  else if c =? TIFF_TAG_BITS_PER_SAMPLE then
    Done (fp, ifd)
  else if c =? TIFF_TAG_COMPRESSION then
    Done (fp, set_compression (data_u16 tag) ifd)
  else if c =? TIFF_TAG_PHOTOMETRIC_INTERPRETATION then
    Done (fp, set_color_space (data_u16 tag) ifd)
  else if c =? TIFF_TAG_IMAGE_DESCRIPTION then
    '(s, fp') <- tiff_read_field_ascii fp tag ;;
    Done (fp', set_image_description_length (data_count tag)
                 (set_image_description (Some s) ifd))
  else if c =? TIFF_TAG_TILE_WIDTH then
    Done (fp, set_tile_width (data_u32 tag) ifd)
  else if c =? TIFF_TAG_TILE_LENGTH then
    Done (fp, set_tile_height (data_u32 tag) ifd)
  else if c =? TIFF_TAG_TILE_OFFSETS then
    let ifd1 := set_tile_count (data_count tag) ifd in
    '(r, fp') <- tiff_read_field_integers is_big_endian fp tag ;;
    match r with
    | None => Failed
    | Some v => Done (fp', set_tile_offsets (Some v) ifd1)
    end
  else if c =? TIFF_TAG_TILE_BYTE_COUNTS then
    if negb (data_count tag =? tile_count ifd) then
      _ <- ASSERT (negb (data_count tag =? 0)) ;;
      Failed
    else
      '(r, fp') <- tiff_read_field_integers is_big_endian fp tag ;;
      match r with
      | None => Failed
      | Some v => Done (fp', set_tile_byte_counts (Some v) ifd)
      end
  else if c =? TIFF_TAG_JPEG_TABLES then
    '(s, fp') <- tiff_read_field_undefined fp tag ;;
    Done (fp', set_jpeg_tables_length (data_count tag)
                 (set_jpeg_tables (Some s) ifd))
  else if c =? TIFF_TAG_YCBCRSUBSAMPLING then
    Done (fp, set_chroma_subsampling_vertical (load 2 (data tag) 2)
                (set_chroma_subsampling_horizontal (load 2 (data tag) 0) ifd))
  else if c =? TIFF_TAG_REFERENCEBLACKWHITE then
    let ifd1 := set_reference_black_white_rational_count (data_count tag) ifd in
    '(r, fp') <- tiff_read_field_rationals is_big_endian fp tag ;;
    match r with
    | None => Failed
    | Some v => Done (fp', set_reference_black_white (Some v) ifd1)
    end
  else Done (fp, ifd).

(** The second loop of [tiff_read_ifd], over the restructured tags. *)
Fixpoint interpret_tags (is_big_endian : bool) (fp : FILE) (ifd : tiff_ifd_t)
    (tags : list tiff_tag_t) : outcome (FILE * tiff_ifd_t) :=
  match tags with
  | [] => Done (fp, ifd)
  | tag :: rest =>
      '(fp', ifd') <- interpret_tag is_big_endian fp ifd tag ;;
      interpret_tags is_big_endian fp' ifd' rest
  end.

(** Every element of a list through a fallible function, in order. *)
Fixpoint map_outcome {A B : Type} (f : A -> outcome B) (l : list A)
  : outcome (list B) :=
  match l with
  | [] => Done []
  | a :: r => b <- f a ;; bs <- map_outcome f r ;; Done (b :: bs)
  end.

(** The part of [tiff_read_ifd] that deduces the subimage type. *)
Definition classify_subimage (tiff : tiff_t) (ifd : tiff_ifd_t)
  : tiff_t * tiff_ifd_t :=
  let '(tiff1, ifd1) :=
    match image_description ifd with
    | Some description =>
        if strncmp description lit_Macro 5 =? 0 then
          (set_macro_image_index (ifd_index ifd) tiff,
           set_subimage_type TIFF_MACRO_SUBIMAGE ifd)
        else if strncmp description lit_Label 5 =? 0 then
          (set_label_image_index (ifd_index ifd) tiff,
           set_subimage_type TIFF_LABEL_SUBIMAGE ifd)
        else if strncmp description lit_level 5 =? 0 then
          (tiff, set_subimage_type TIFF_LEVEL_SUBIMAGE ifd)
        else (tiff, ifd)
    | None => (tiff, ifd)
    end in
  if subimage_type_eqb (subimage_type ifd1) TIFF_UNKNOWN_SUBIMAGE
     && (tile_width ifd1 >? 0) then
    if (ifd_index ifd1 =? 0)
       || negb (Z.land (tiff_subfiletype ifd1) TIFF_FILETYPE_REDUCEDIMAGE =? 0)
    then (tiff1, set_subimage_type TIFF_LEVEL_SUBIMAGE ifd1)
    else (tiff1, ifd1)
  else (tiff1, ifd1).

(** The derived tile grid of [tiff_read_ifd], in 32-bit arithmetic. *)
Definition compute_tile_grid (ifd : tiff_ifd_t) : tiff_ifd_t :=
  let ifd1 :=
    if tile_width ifd >? 0 then
      set_width_in_tiles
        (u32 (image_width ifd + tile_width ifd - 1) / tile_width ifd) ifd
    else ifd in
  if tile_height ifd1 >? 0 then
    set_height_in_tiles
      (u32 (image_height ifd1 + tile_height ifd1 - 1) / tile_height ifd1) ifd1
  else ifd1.

(** The raw entries of an IFD: [tag_count] records of [tag_size] bytes. *)
Definition raw_tag_entries (raw_tags : list Z) (tag_count tag_size : Z)
  : list (list Z) :=
  map (fun i => slice raw_tags (Z.of_nat i * tag_size) tag_size)
      (seq 0 (Z.to_nat tag_count)).

(** The first half of [tiff_read_ifd]: the seek to the IFD, the tag count,
    the raw entries and their restructuring into tags. *)
Definition read_ifd_tags (tiff : tiff_t) (fp : FILE) (next_ifd_offset : Z)
  : outcome (list tiff_tag_t * FILE) :=
  let bigtiff := is_bigtiff tiff in
  let big_endian := is_big_endian tiff in
  let '(ret, fp) := fseeko64 fp next_ifd_offset in
  if negb (ret =? 0) then Failed else
  let tag_count_num_bytes := if bigtiff then 8 else 2 in
  let '(got, ret, fp) := fread tag_count_num_bytes fp in
  if negb (ret =? 1) then Failed else
  let tag_count := le_decode got in
  let tag_count :=
    if big_endian then (if bigtiff then bswap_64 tag_count else bswap_16 tag_count)
    else tag_count in
  let tag_size := if bigtiff then 20 else 12 in
  let bytes_to_read := u64 (tag_count * tag_size) in
  let '(raw_tags, ret, fp) := fread bytes_to_read fp in
  if negb (ret =? 1) then Failed else
  if negb (bytes_to_read =? tag_count * tag_size) || (INT32_MAX <? tag_count)
  then Aborted OutOfBounds else
  tags <- map_outcome (read_raw_tag bigtiff big_endian)
            (raw_tag_entries raw_tags tag_count tag_size) ;;
  Done (tags, fp).

(** [tiff_read_ifd(tiff, ifd, next_ifd_offset)]: on success, the descriptor,
    the stream, the IFD and the offset of the next IFD.  The offset of the
    next IFD is read into the low [bytesize_of_offsets] bytes of
    [*next_ifd_offset] as they are in the file. *)
Definition tiff_read_ifd (tiff : tiff_t) (fp : FILE) (ifd : tiff_ifd_t)
    (next_ifd_offset : Z) : outcome (tiff_t * FILE * tiff_ifd_t * Z) :=
  let ifd := set_color_space TIFF_PHOTOMETRIC_RGB ifd in
  '(tags, fp) <- read_ifd_tags tiff fp next_ifd_offset ;;
  '(fp, ifd) <- interpret_tags (is_big_endian tiff) fp ifd tags ;;
  let ifd := compute_tile_grid ifd in
  let '(tiff, ifd) := classify_subimage tiff ifd in
  if 8 <? bytesize_of_offsets tiff then Aborted OutOfBounds else
  let '(got, ret, fp) := fread (bytesize_of_offsets tiff) fp in
  if negb (ret =? 1) then Failed else
  Done (tiff, fp, ifd, load 8 (store (le_encode 8 next_ifd_offset) 0 got) 0).

(** The [while (next_ifd_offset != 0)] loop of [open_tiff_file]. *)
Fixpoint read_ifds (fuel : nat) (tiff : tiff_t) (fp : FILE)
    (next_ifd_offset : Z) : outcome (tiff_t * FILE) :=
  if next_ifd_offset =? 0 then Done (tiff, fp)
  else
    match fuel with
    | O => OutOfFuel
    | S fuel' =>
        let ifd := ifd_with_index (ifd_count tiff) in
        '(tiff1, fp1, ifd1, next) <- tiff_read_ifd tiff fp ifd next_ifd_offset ;;
        let tiff2 := set_ifds (ifds tiff1 ++ [ifd1]) tiff1 in
        let tiff3 := set_ifd_count (u64 (ifd_count tiff2 + 1)) tiff2 in
        read_ifds fuel' tiff3 fp1 next
    end.

Definition is_level (ifd : tiff_ifd_t) : bool :=
  subimage_type_eqb (subimage_type ifd) TIFF_LEVEL_SUBIMAGE.

(** The level counter of [open_tiff_file]. *)
Definition count_levels (tiff : tiff_t) : Z :=
  Z.of_nat (length (filter is_level
                      (take (ifds tiff) (ifd_count tiff)))).

(** The last loop of [open_tiff_file], over the first [n] IFDs. *)
Fixpoint assign_um_per_pixel (n : nat) (um_per_pixel : float)
    (l : list tiff_ifd_t) : outcome (list tiff_ifd_t) :=
  match n with
  | O => Done l
  | S k =>
      match l with
      | [] => Aborted OutOfBounds
      | ifd :: rest =>
          _ <- ASSERT (tile_width ifd =? 512) ;;
          _ <- ASSERT (tile_height ifd =? 512) ;;
          let ifd1 := set_um_per_pixel_x um_per_pixel ifd in
          let ifd2 := set_um_per_pixel_y um_per_pixel ifd1 in
          let ifd3 := set_x_tile_side_in_um
                        (float_mul (um_per_pixel_x ifd2)
                                   (float_of_Z (tile_width ifd2))) ifd2 in
          let ifd4 := set_y_tile_side_in_um
                        (float_mul (um_per_pixel_y ifd3)
                                   (float_of_Z (tile_height ifd3))) ifd3 in
          rest' <- assign_um_per_pixel k (float_mul um_per_pixel float_2_0) rest ;;
          Done (ifd4 :: rest')
      end
  end.

(** The start of [open_tiff_file], up to the IFD loop: the size check and
    the 16-byte header.  On success, the descriptor, the stream and the
    offset of the first IFD. *)
Definition read_tiff_header (tiff : tiff_t) (bytes : list Z)
  : outcome (tiff_t * FILE * Z) :=
  let fp := {| f_bytes := bytes; f_pos := 0 |} in
  let filesize := Z.of_nat (length bytes) in
  if filesize >? 8 then
    let '(tiff_header, ret, fp) := fread 16 fp in
    if negb (ret =? 1) then Failed else
    let byte_order_indication := load 2 tiff_header 0 in
    big_endian <-
      (if byte_order_indication =? TIFF_BIG_ENDIAN then Done true
       else if byte_order_indication =? TIFF_LITTLE_ENDIAN then Done false
       else Failed) ;;
    let tiff := set_is_big_endian big_endian tiff in
    let filetype := maybe_swap_16 (load 2 tiff_header 2) big_endian in
    bigtiff <-
      (if filetype =? 0x2A then Done false
       else if filetype =? 0x2B then Done true
       else Failed) ;;
    let tiff := set_is_bigtiff bigtiff tiff in
    '(offsets_size, next_ifd_offset) <-
      (if bigtiff then
         let bytesize_of_offsets := maybe_swap_16 (load 2 tiff_header 4) big_endian in
         if negb (bytesize_of_offsets =? 8) then Failed
         else if negb (load 2 tiff_header 6 =? 0) then Failed
         else Done (bytesize_of_offsets,
                    maybe_swap_64 (load 8 tiff_header 8) big_endian)
       else Done (4, maybe_swap_32 (load 4 tiff_header 4) big_endian)) ;;
    _ <- ASSERT (((offsets_size =? 4) && negb bigtiff)
                 || ((offsets_size =? 8) && bigtiff)) ;;
    Done (set_bytesize_of_offsets offsets_size tiff, fp, next_ifd_offset)
  else Failed.

(** The end of [open_tiff_file], after the IFD loop. *)
Definition finish_tiff (tiff : tiff_t) : outcome tiff_t :=
  let tiff := set_main_image_index 0 tiff in
  let tiff := set_level_image_index 0 tiff in
  let tiff := set_level_count (count_levels tiff) tiff in
  let tiff := set_mpp_y float_0_25 tiff in
  let tiff := set_mpp_x float_0_25 tiff in
  ifds' <- assign_um_per_pixel (Z.to_nat (level_count tiff)) float_0_25
             (ifds tiff) ;;
  Done (set_ifds ifds' tiff).

(** [open_tiff_file(tiff, filename)].  [file] is what the name refers to:
    [None] when [fopen64] fails, the bytes of the file otherwise.  [Failed]
    is the [false] that the function returns. *)
Definition open_tiff_file (fuel : nat) (tiff : tiff_t) (file : option (list Z))
  : outcome tiff_t :=
  match file with
  | None => Failed
  | Some bytes =>
      '(tiff, fp, next_ifd_offset) <- read_tiff_header tiff bytes ;;
      '(tiff, fp) <- read_ifds fuel tiff fp next_ifd_offset ;;
      finish_tiff tiff
  end.

(** The states of the IFD loop: [ifd_walk s s'] when the loop, started in
    [s], gets to [s'] after some number of IFDs read with success. *)
Inductive ifd_walk : tiff_t * FILE * Z -> tiff_t * FILE * Z -> Prop :=
| ifd_walk_here : forall s, ifd_walk s s
| ifd_walk_next : forall tiff fp next_ifd_offset tiff1 fp1 ifd1 next s,
    next_ifd_offset <> 0 ->
    tiff_read_ifd tiff fp (ifd_with_index (ifd_count tiff)) next_ifd_offset
      = Done (tiff1, fp1, ifd1, next) ->
    ifd_walk (set_ifd_count (u64 (ifd_count tiff1 + 1))
                (set_ifds (ifds tiff1 ++ [ifd1]) tiff1), fp1, next) s ->
    ifd_walk (tiff, fp, next_ifd_offset) s.

End Parser.

(* ================================================================== *)
(** * The block codec *)

Definition bytes_of_string (s : string) : list Z :=
  map (fun a => Z.of_N (N_of_ascii a)) (list_ascii_of_string s).

Definition CRLF : list Z := [13; 10].

(** The block types.  Their numbers are an enum of [tiff.h], which is not in
    the tree: see [tiff_h] below. *)
Inductive serial_block_type : Type :=
| SERIAL_BLOCK_TIFF_HEADER_AND_META
| SERIAL_BLOCK_TIFF_IFDS
| SERIAL_BLOCK_TIFF_IMAGE_DESCRIPTION
| SERIAL_BLOCK_TIFF_TILE_OFFSETS
| SERIAL_BLOCK_TIFF_TILE_BYTE_COUNTS
| SERIAL_BLOCK_TIFF_JPEG_TABLES
| SERIAL_BLOCK_LZ4_COMPRESSED_DATA
| SERIAL_BLOCK_TERMINATOR.

(** [serial_block_t]: 16 bytes, host order. *)
Record serial_block_t : Type := mk_block {
  block_type : Z;   (* u32 *)
  index : Z;        (* u32 *)
  length_ : Z       (* u64, the field [length] *)
}.

Definition sizeof_serial_block_t : Z := 16.

Definition block_bytes (b : serial_block_t) : list Z :=
  le_encode 4 (block_type b) ++ le_encode 4 (index b) ++ le_encode 8 (length_ b).

Definition block_of_bytes (bs : list Z) : serial_block_t :=
  mk_block (load 4 bs 0) (load 4 bs 4) (load 8 bs 8).

(** [tiff_serial_header_t] and [tiff_serial_ifd_t]: the fields that
    [tiff_serialize] initialises and [tiff_deserialize] reads back. *)
Record tiff_serial_header_t : Type := mk_serial_header {
  sh_filesize : Z;
  sh_ifd_count : Z;
  sh_main_image_index : Z;
  sh_macro_image_index : Z;
  sh_label_image_index : Z;
  sh_level_count : Z;
  sh_level_image_index : Z;
  sh_bytesize_of_offsets : Z;
  sh_is_bigtiff : bool;
  sh_is_big_endian : bool;
  sh_mpp_x : float;
  sh_mpp_y : float
}.

Record tiff_serial_ifd_t : Type := mk_serial_ifd {
  si_image_width : Z;
  si_image_height : Z;
  si_tile_width : Z;
  si_tile_height : Z;
  si_tile_count : Z;
  si_image_description_length : Z;
  si_jpeg_tables_length : Z;
  si_compression : Z;
  si_color_space : Z;
  si_level_magnification : float;
  si_width_in_tiles : Z;
  si_height_in_tiles : Z;
  si_um_per_pixel_x : float;
  si_um_per_pixel_y : float;
  si_x_tile_side_in_um : float;
  si_y_tile_side_in_um : float;
  si_chroma_subsampling_horizontal : Z;
  si_chroma_subsampling_vertical : Z;
  si_subimage_type : tiff_subimage_type
}.

(** What [tiff.h] fixes and the tree does not show: the numbers of the block
    types, and for each of the two fixed-size records its size, its object
    representation, and which field values its field types can hold. *)
Class tiff_h : Type := {
  block_code : serial_block_type -> Z;
  sizeof_tiff_serial_header_t : Z;
  serial_header_bytes : tiff_serial_header_t -> list Z;
  serial_header_of_bytes : list Z -> tiff_serial_header_t;
  serial_header_representable : tiff_serial_header_t -> Prop;
  sizeof_tiff_serial_ifd_t : Z;
  serial_ifd_bytes : tiff_serial_ifd_t -> list Z;
  serial_ifd_of_bytes : list Z -> tiff_serial_ifd_t;
  serial_ifd_representable : tiff_serial_ifd_t -> Prop
}.

(** What any such header satisfies: the block types are distinct 32-bit
    numbers, a record occupies its size, and a record read back from its
    object representation is the record. *)
Record tiff_h_ok (T : tiff_h) : Prop := {
  block_code_inj : forall a b, block_code a = block_code b -> a = b;
  block_code_range : forall a, 0 <= block_code a < 2^32;
  serial_header_size : forall h,
    Z.of_nat (length (serial_header_bytes h)) = sizeof_tiff_serial_header_t;
  serial_header_round_trip : forall h,
    serial_header_representable h ->
    serial_header_of_bytes (serial_header_bytes h) = h;
  serial_ifd_size : forall s,
    Z.of_nat (length (serial_ifd_bytes s)) = sizeof_tiff_serial_ifd_t;
  serial_ifd_round_trip : forall s,
    serial_ifd_representable s ->
    serial_ifd_of_bytes (serial_ifd_bytes s) = s
}.

(** The LZ4 library as the codec uses it.  Both functions get the bytes at
    the source pointer, the source size and the capacity of the destination,
    and give their return value and the bytes they wrote. *)
Class lz4_h : Type := {
  LZ4_COMPRESSBOUND : Z -> Z;
  LZ4_compress_default : list Z -> Z -> Z -> Z * list Z;
  LZ4_decompress_safe : list Z -> Z -> Z -> Z * list Z
}.

(** The contract of the library: what was compressed with success
    decompresses, into a destination of the original size, to the original;
    and a decompression that reports [n > 0] bytes wrote [n] bytes. *)
Record lz4_ok (L : lz4_h) : Prop := {
  LZ4_round_trip : forall src dstCapacity n out,
    LZ4_compress_default src (Z.of_nat (length src)) dstCapacity = (n, out) ->
    0 < i32 n ->
    LZ4_decompress_safe (take out (i32 n)) (i32 n)
      (Z.of_nat (length src)) = (Z.of_nat (length src), src);
  LZ4_decompress_wrote : forall src compressedSize dstCapacity n out,
    LZ4_decompress_safe src compressedSize dstCapacity = (n, out) ->
    0 < i32 n -> i32 n = Z.of_nat (length out)
}.

(** [push_buffer_t].  [raw_memory] holds the HTTP headers, [pb_data] the
    [used_size] bytes pushed after them (the field [data] points there), and
    [capacity] is the room behind [data]. *)
Record push_buffer_t : Type := mk_push_buffer {
  raw_memory : list Z;
  pb_data : list Z;
  capacity : Z
}.

Definition used_size (buffer : push_buffer_t) : Z :=
  Z.of_nat (length (pb_data buffer)).

(** The bytes of the buffer that are in use: headers, then payload. *)
Definition buffer_bytes (buffer : push_buffer_t) : list Z :=
  raw_memory buffer ++ pb_data buffer.

(** [push_size(buffer, data, size)]; [src] is the object behind [data]. *)
Definition push_size (buffer : push_buffer_t) (src : list Z) (size : Z)
  : outcome push_buffer_t :=
  if u64 (used_size buffer + size) >? capacity buffer then Aborted ExitCalled
  else if Z.of_nat (length src) <? size then Aborted OutOfBounds
  else Done (mk_push_buffer (raw_memory buffer)
               (pb_data buffer ++ take src size)
               (capacity buffer)).

Definition push_block (buffer : push_buffer_t) (block_type index block_length : Z)
  : outcome push_buffer_t :=
  let block := mk_block (u32 block_type) (u32 index) (u64 block_length) in
  push_size buffer (block_bytes block) sizeof_serial_block_t.

(** The object behind a pointer field; nothing behind NULL. *)
Definition object_bytes (p : option (list Z)) : list Z :=
  match p with Some l => l | None => [] end.

(** An array of [u64] as bytes. *)
Definition u64_array_bytes (p : option (list Z)) : list Z :=
  flat_map (le_encode 8) (object_bytes p).

(** A byte region as an array of [u64]: its whole elements. *)
Definition u64_array_of_bytes (bs : list Z) : list Z :=
  map (fun i => load 8 bs (Z.of_nat i * 8)) (seq 0 (length bs / 8)).

(** [%llu]. *)
Fixpoint decimal_digits (fuel : nat) (n : Z) (acc : list Z) : list Z :=
  match fuel with
  | O => acc
  | S f =>
      let acc' := (48 + n mod 10) :: acc in
      if n / 10 =? 0 then acc' else decimal_digits f (n / 10) acc'
  end.

Definition print_llu (n : Z) : list Z := decimal_digits 20 (u64 n) [].

(** [%-16llu]: left-justified in a field of at least 16 characters. *)
Definition print_llu_left16 (n : Z) : list Z :=
  print_llu n ++ repeat 32 (16 - length (print_llu n)).

(** The [snprintf] of the HTTP headers. *)
Definition http_headers (total_size : Z) : list Z :=
  bytes_of_string "HTTP/1.1 200 OK" ++ CRLF
  ++ bytes_of_string "Connection: close" ++ CRLF
  ++ bytes_of_string "Content-type: application/octet-stream" ++ CRLF
  ++ bytes_of_string "Content-length: " ++ print_llu_left16 total_size
  ++ CRLF ++ CRLF.

(** [strlen]. *)
Fixpoint strlen (s : list Z) : Z :=
  match s with
  | [] => 0
  | c :: r => if c =? 0 then 0 else 1 + strlen r
  end.

Definition serial_header_of (tiff : tiff_t) : tiff_serial_header_t :=
  {| sh_filesize := filesize tiff;
     sh_ifd_count := ifd_count tiff;
     sh_main_image_index := main_image_index tiff;
     sh_macro_image_index := macro_image_index tiff;
     sh_label_image_index := label_image_index tiff;
     sh_level_count := level_count tiff;
     sh_level_image_index := level_image_index tiff;
     sh_bytesize_of_offsets := bytesize_of_offsets tiff;
     sh_is_bigtiff := is_bigtiff tiff;
     sh_is_big_endian := is_big_endian tiff;
     sh_mpp_x := mpp_x tiff;
     sh_mpp_y := mpp_y tiff |}.

Definition serial_ifd_of (ifd : tiff_ifd_t) : tiff_serial_ifd_t :=
  {| si_image_width := image_width ifd;
     si_image_height := image_height ifd;
     si_tile_width := tile_width ifd;
     si_tile_height := tile_height ifd;
     si_tile_count := tile_count ifd;
     si_image_description_length := image_description_length ifd;
     si_jpeg_tables_length := jpeg_tables_length ifd;
     si_compression := compression ifd;
     si_color_space := color_space ifd;
     si_level_magnification := level_magnification ifd;
     si_width_in_tiles := width_in_tiles ifd;
     si_height_in_tiles := height_in_tiles ifd;
     si_um_per_pixel_x := um_per_pixel_x ifd;
     si_um_per_pixel_y := um_per_pixel_y ifd;
     si_x_tile_side_in_um := x_tile_side_in_um ifd;
     si_y_tile_side_in_um := y_tile_side_in_um ifd;
     si_chroma_subsampling_horizontal := chroma_subsampling_horizontal ifd;
     si_chroma_subsampling_vertical := chroma_subsampling_vertical ifd;
     si_subimage_type := subimage_type ifd |}.

Section Codec.
Context {C : common_h} {T : tiff_h} {L : lz4_h}.

(** The part of [total_size] that one IFD adds in the first loop of
    [tiff_serialize]. *)
Definition ifd_payload_size (ifd : tiff_ifd_t) : Z :=
  image_description_length ifd + jpeg_tables_length ifd
  + tile_count ifd * 8 + tile_count ifd * 8.

(** The terms that [tiff_serialize] adds to [total_size], before the
    reduction to 64 bits. *)
Definition total_size_sum (tiff : tiff_t) : Z :=
  sizeof_serial_block_t + sizeof_tiff_serial_header_t
  + sizeof_serial_block_t
  + fold_right Z.add 0
      (map ifd_payload_size (take (ifds tiff) (ifd_count tiff)))
  + ifd_count tiff * sizeof_tiff_serial_ifd_t
  + ifd_count tiff * sizeof_serial_block_t
  + ifd_count tiff * sizeof_serial_block_t
  + ifd_count tiff * sizeof_serial_block_t
  + ifd_count tiff * sizeof_serial_block_t
  + sizeof_serial_block_t.

(** [total_size] as [tiff_serialize] adds it up (in [u64]). *)
Definition serial_total_size (tiff : tiff_t) : Z := u64 (total_size_sum tiff).

(** The four blocks of IFD [i] in the second loop of [tiff_serialize]. *)
Definition push_ifd_blocks (buffer : push_buffer_t) (i : Z) (ifd : tiff_ifd_t)
  : outcome push_buffer_t :=
  b <- push_block buffer (block_code SERIAL_BLOCK_TIFF_IMAGE_DESCRIPTION) i
         (image_description_length ifd) ;;
  b <- push_size b (object_bytes (image_description ifd))
         (image_description_length ifd) ;;
  let tile_offsets_size := u64 (tile_count ifd * 8) in
  b <- push_block b (block_code SERIAL_BLOCK_TIFF_TILE_OFFSETS) i tile_offsets_size ;;
  b <- push_size b (u64_array_bytes (tile_offsets ifd)) tile_offsets_size ;;
  let tile_byte_counts_size := u64 (tile_count ifd * 8) in
  b <- push_block b (block_code SERIAL_BLOCK_TIFF_TILE_BYTE_COUNTS) i
         tile_byte_counts_size ;;
  b <- push_size b (u64_array_bytes (tile_byte_counts ifd)) tile_byte_counts_size ;;
  b <- push_block b (block_code SERIAL_BLOCK_TIFF_JPEG_TABLES) i
         (jpeg_tables_length ifd) ;;
  push_size b (object_bytes (jpeg_tables ifd)) (jpeg_tables_length ifd).

Fixpoint push_all_ifd_blocks (buffer : push_buffer_t) (i : Z)
    (l : list tiff_ifd_t) : outcome push_buffer_t :=
  match l with
  | [] => Done buffer
  | ifd :: rest =>
      b <- push_ifd_blocks buffer i ifd ;;
      push_all_ifd_blocks b (i + 1) rest
  end.

(** The first half of [tiff_serialize]: the buffer with the HTTP headers and
    the uncompressed block stream.  The loops over the IFDs read [ifd_count]
    elements of [ifds] with an [i32] index. *)
Definition push_all_blocks (tiff : tiff_t) : outcome push_buffer_t :=
  if (Z.of_nat (length (ifds tiff)) <? ifd_count tiff)
     || (INT32_MAX <? ifd_count tiff) then Aborted OutOfBounds else
  let the_ifds := take (ifds tiff) (ifd_count tiff) in
  let total_size := serial_total_size tiff in
  let serial_header := serial_header_of tiff in
  let serial_ifds_block_size := u64 (ifd_count tiff * sizeof_tiff_serial_ifd_t) in
  let serial_ifds := flat_map (fun ifd => serial_ifd_bytes (serial_ifd_of ifd)) the_ifds in
  let headers := http_headers total_size in
  let http_headers_size := strlen headers in
  let buffer := mk_push_buffer (take headers http_headers_size) [] total_size in
  b <- push_block buffer (block_code SERIAL_BLOCK_TIFF_HEADER_AND_META) 0
         sizeof_serial_block_t ;;
  b <- push_size b (serial_header_bytes serial_header) sizeof_tiff_serial_header_t ;;
  b <- push_block b (block_code SERIAL_BLOCK_TIFF_IFDS) 0 serial_ifds_block_size ;;
  b <- push_size b serial_ifds serial_ifds_block_size ;;
  b <- push_all_ifd_blocks b 0 the_ifds ;;
  push_block b (block_code SERIAL_BLOCK_TERMINATOR) 0 0.

(** The second half of [tiff_serialize]: the compression step.  After a
    successful compression the buffer is refilled with one
    LZ4_COMPRESSED_DATA block and the headers are printed again, from the
    same [total_size]. *)
Definition compress_blocks (tiff : tiff_t) (b : push_buffer_t)
  : outcome push_buffer_t :=
  let total_size := serial_total_size tiff in
  let http_headers_size := strlen (http_headers total_size) in
  let compression_size_bound := i32 (LZ4_COMPRESSBOUND total_size) in
  _ <- ASSERT (used_size b =? total_size) ;;
  let '(compressed_size, compression_buffer) :=
    LZ4_compress_default (pb_data b) (i32 (used_size b)) compression_size_bound in
  let compressed_size := i32 compressed_size in
  if compressed_size >? 0 then
    let b0 := mk_push_buffer (raw_memory b) [] (capacity b) in
    b1 <- push_block b0 (block_code SERIAL_BLOCK_LZ4_COMPRESSED_DATA) total_size
            compressed_size ;;
    b2 <- push_size b1 compression_buffer compressed_size ;;
    let headers' := http_headers total_size in
    _ <- ASSERT (strlen headers' =? http_headers_size) ;;
    Done (mk_push_buffer (store (raw_memory b2) 0 (take headers' http_headers_size))
            (pb_data b2) (capacity b2))
  else Done b.

(** [tiff_serialize(tiff, buffer)]: the buffer it fills. *)
Definition tiff_serialize (tiff : tiff_t) : outcome push_buffer_t :=
  b <- push_all_blocks tiff ;;
  compress_blocks tiff b.

(** The read cursor of [tiff_deserialize]: the buffer [pos] points into, the
    position in it, and [bytes_left]. *)
Record cursor : Type := mk_cursor {
  cur_mem : list Z;
  cur_pos : Z;
  cur_left : Z
}.

(** [pop_from_buffer(&pos, size, &bytes_left)]: [None] is NULL; otherwise the
    old position and the advanced cursor. *)
Definition pop_from_buffer (c : cursor) (size : Z) : option (Z * cursor) :=
  if size >? cur_left c then None
  else Some (cur_pos c,
             mk_cursor (cur_mem c) (cur_pos c + size) (i64 (cur_left c - size))).

(** [n] bytes read through a pointer to offset [p] of [mem]. *)
Definition read_bytes (mem : list Z) (p n : Z) : outcome (list Z) :=
  if n =? 0 then Done []
  else if (p <? 0) || (n <? 0) || (Z.of_nat (length mem) <? p + n)
  then Aborted OutOfBounds
  else Done (slice mem p n).

(** [POP_DATA(size)]: the pointer [data], or [goto failed]. *)
Definition POP_DATA (c : cursor) (size : Z) : outcome (Z * cursor) :=
  match pop_from_buffer c (i64 size) with
  | None => Failed
  | Some r => Done r
  end.

(** [POP_BLOCK()], with the fields of the block it points to. *)
Definition POP_BLOCK (c : cursor) : outcome (serial_block_t * cursor) :=
  match pop_from_buffer c sizeof_serial_block_t with
  | None => Failed
  | Some (p, c') =>
      bs <- read_bytes (cur_mem c) p sizeof_serial_block_t ;;
      Done (block_of_bytes bs, c')
  end.

(** The search loop of [find_end_of_http_headers], [n] offsets from
    [offset]. *)
Fixpoint find_crlfcrlf (str : list Z) (offset : Z) (n : nat) : Z :=
  match n with
  | O => 0
  | S k =>
      if load 4 str offset =? le_decode [13; 10; 13; 10] then offset + 4
      else find_crlfcrlf str (offset + 1) k
  end.

(** [find_end_of_http_headers(str, len)].  The loop bound [len - 4] is
    unsigned: below 4 bytes it wraps and the search leaves the buffer. *)
Definition find_end_of_http_headers (str : list Z) (len : Z) : outcome Z :=
  if len <? 4 then Aborted OutOfBounds
  else Done (find_crlfcrlf str 0 (Z.to_nat (len - 4))).

Definition ifd_of_serial (i : Z) (serial_ifd : tiff_serial_ifd_t) : tiff_ifd_t :=
  {| ifd_index := i;
     image_width := si_image_width serial_ifd;
     image_height := si_image_height serial_ifd;
     tile_width := si_tile_width serial_ifd;
     tile_height := si_tile_height serial_ifd;
     tile_count := si_tile_count serial_ifd;
     tile_offsets := None;
     tile_byte_counts := None;
     image_description := None;
     image_description_length := si_image_description_length serial_ifd;
     jpeg_tables := None;
     jpeg_tables_length := si_jpeg_tables_length serial_ifd;
     compression := si_compression serial_ifd;
     color_space := si_color_space serial_ifd;
     tiff_subfiletype := 0;
     subimage_type := si_subimage_type serial_ifd;
     level_magnification := si_level_magnification serial_ifd;
     width_in_tiles := si_width_in_tiles serial_ifd;
     height_in_tiles := si_height_in_tiles serial_ifd;
     um_per_pixel_x := si_um_per_pixel_x serial_ifd;
     um_per_pixel_y := si_um_per_pixel_y serial_ifd;
     x_tile_side_in_um := si_x_tile_side_in_um serial_ifd;
     y_tile_side_in_um := si_y_tile_side_in_um serial_ifd;
     chroma_subsampling_horizontal := si_chroma_subsampling_horizontal serial_ifd;
     chroma_subsampling_vertical := si_chroma_subsampling_vertical serial_ifd;
     reference_black_white_rational_count := 0;
     reference_black_white := None |}.

Definition tiff_of_serial_header (serial_header : tiff_serial_header_t) : tiff_t :=
  {| filesize := sh_filesize serial_header;
     bytesize_of_offsets := sh_bytesize_of_offsets serial_header;
     ifd_count := sh_ifd_count serial_header;
     ifds := [];
     main_image_index := sh_main_image_index serial_header;
     macro_image_index := sh_macro_image_index serial_header;
     label_image_index := sh_label_image_index serial_header;
     level_count := sh_level_count serial_header;
     level_image_index := 0;
     is_bigtiff := sh_is_bigtiff serial_header;
     is_big_endian := sh_is_big_endian serial_header;
     mpp_x := sh_mpp_x serial_header;
     mpp_y := sh_mpp_y serial_header;
     is_remote := 0 |}.

(** [l] with its element [n] replaced. *)
Fixpoint update_nth {A : Type} (n : nat) (v : A) (l : list A) : list A :=
  match l, n with
  | [], _ => []
  | _ :: r, O => v :: r
  | a :: r, S k => a :: update_nth k v r
  end.

Definition is_null {A : Type} (p : option A) : bool :=
  match p with None => true | Some _ => false end.

(** The [switch (block->block_type)] of [tiff_deserialize]: the IFD after the
    block and whether the terminator was met.  The payload is copied into a
    fresh buffer; a description gets [length + 1] bytes with a NUL at the end.
    For the JPEG tables the buffer has [length] bytes, and the NUL that the
    source writes at index [length] falls behind it. *)
Definition apply_block (block : serial_block_t) (block_content : outcome (list Z))
    (referenced_ifd : tiff_ifd_t) : outcome (tiff_ifd_t * bool) :=
  let t := block_type block in
  if t =? block_code SERIAL_BLOCK_TIFF_IMAGE_DESCRIPTION then
    if negb (is_null (image_description referenced_ifd)) then Failed
    else
      content <- block_content ;;
      Done (set_image_description_length (length_ block)
              (set_image_description (Some (content ++ [0])) referenced_ifd), false)
  else if t =? block_code SERIAL_BLOCK_TIFF_TILE_OFFSETS then
    if negb (is_null (tile_offsets referenced_ifd)) then Failed
    else
      content <- block_content ;;
      Done (set_tile_offsets (Some (u64_array_of_bytes content)) referenced_ifd, false)
  else if t =? block_code SERIAL_BLOCK_TIFF_TILE_BYTE_COUNTS then
    if negb (is_null (tile_byte_counts referenced_ifd)) then Failed
    else
      content <- block_content ;;
      Done (set_tile_byte_counts (Some (u64_array_of_bytes content)) referenced_ifd, false)
  else if t =? block_code SERIAL_BLOCK_TIFF_JPEG_TABLES then
    if negb (is_null (jpeg_tables referenced_ifd)) then Failed
    else
      content <- block_content ;;
      Done (set_jpeg_tables_length (length_ block)
              (set_jpeg_tables (Some content) referenced_ifd), false)
  else if t =? block_code SERIAL_BLOCK_TERMINATOR then
    Done (referenced_ifd, true)
  else Done (referenced_ifd, false).

(** The [while (!reached_end)] loop of [tiff_deserialize]. *)
Fixpoint deserialize_blocks (fuel : nat) (tiff : tiff_t) (c : cursor)
  : outcome tiff_t :=
  match fuel with
  | O => OutOfFuel
  | S fuel' =>
      '(block, c1) <- POP_BLOCK c ;;
      '(data, c2) <- (if length_ block >? 0 then POP_DATA c1 (length_ block)
                      else Done (cur_pos c1, c1)) ;;
      let block_content := read_bytes (cur_mem c2) data (length_ block) in
      if index block >=? ifd_count tiff then Failed else
      match nth_error (ifds tiff) (Z.to_nat (index block)) with
      | None => Aborted OutOfBounds
      | Some referenced_ifd =>
          '(ifd', reached_end) <- apply_block block block_content referenced_ifd ;;
          let tiff' := set_ifds (update_nth (Z.to_nat (index block)) ifd' (ifds tiff)) tiff in
          if reached_end then Done tiff' else deserialize_blocks fuel' tiff' c2
      end
  end.

(** The start of [tiff_deserialize]: the end of the HTTP headers and the
    first block behind them. *)
Definition pop_first_block (buffer : list Z) : outcome (serial_block_t * cursor) :=
  let buffer_size := Z.of_nat (length buffer) in
  let c := mk_cursor buffer 0 (i64 buffer_size) in
  content_offset <- find_end_of_http_headers buffer buffer_size ;;
  '(_, c) <- POP_DATA c content_offset ;;
  POP_BLOCK c.

(** The LZ4 layer of [tiff_deserialize]: the block that the check for
    HEADER_AND_META will look at, and the cursor.  When the
    decompressed size is not the expected one, or the decompression fails,
    [block] stays the LZ4 block. *)
Definition unwrap_lz4 (block : serial_block_t) (c : cursor)
  : outcome (serial_block_t * cursor) :=
  if block_type block =? block_code SERIAL_BLOCK_LZ4_COMPRESSED_DATA then
    let compressed_size := i32 (length_ block) in
    let decompressed_size := i32 (index block) in
    _ <- ASSERT (length_ block <? INT32_MAX) ;;
    _ <- ASSERT (index block <? INT32_MAX) ;;
    '(data, c) <- POP_DATA c compressed_size ;;
    src <- read_bytes (cur_mem c) data compressed_size ;;
    let '(bytes_decompressed, decompressed_buffer) :=
      LZ4_decompress_safe src compressed_size decompressed_size in
    let bytes_decompressed := i32 bytes_decompressed in
    if bytes_decompressed >? 0 then
      if negb (bytes_decompressed =? decompressed_size) then Done (block, c)
      else POP_BLOCK (mk_cursor decompressed_buffer 0 bytes_decompressed)
    else Done (block, c)
  else Done (block, c).

Definition deserialize_first_block (buffer : list Z)
  : outcome (serial_block_t * cursor) :=
  '(block, c) <- pop_first_block buffer ;;
  unwrap_lz4 block c.

(** The serial IFD records of the IFDS block, [n] of them from index [i]. *)
Definition ifds_of_serial (serial_ifds : list Z) (n : nat) : list tiff_ifd_t :=
  map (fun i => ifd_of_serial (Z.of_nat i)
                  (serial_ifd_of_bytes
                     (slice serial_ifds (Z.of_nat i * sizeof_tiff_serial_ifd_t)
                            sizeof_tiff_serial_ifd_t)))
      (seq 0 n).

(** The second part: the HEADER_AND_META record and the IFDS block. *)
Definition deserialize_header_and_ifds (block : serial_block_t) (c : cursor)
  : outcome (tiff_t * cursor) :=
  if negb (block_type block =? block_code SERIAL_BLOCK_TIFF_HEADER_AND_META)
  then Failed else
  '(data, c) <- POP_DATA c sizeof_tiff_serial_header_t ;;
  bs <- read_bytes (cur_mem c) data sizeof_tiff_serial_header_t ;;
  let tiff := tiff_of_serial_header (serial_header_of_bytes bs) in
  '(block, c) <- POP_BLOCK c ;;
  if negb (block_type block =? block_code SERIAL_BLOCK_TIFF_IFDS) then Failed else
  let serial_ifds_block_size := u64 (ifd_count tiff * sizeof_tiff_serial_ifd_t) in
  if negb (length_ block =? serial_ifds_block_size) then Failed else
  '(data, c) <- POP_DATA c serial_ifds_block_size ;;
  if negb (serial_ifds_block_size =? ifd_count tiff * sizeof_tiff_serial_ifd_t)
     || (INT32_MAX <? ifd_count tiff)
  then Aborted OutOfBounds else
  serial_ifds <- read_bytes (cur_mem c) data serial_ifds_block_size ;;
  Done (set_ifds (ifds_of_serial serial_ifds (Z.to_nat (ifd_count tiff))) tiff, c).

(** [tiff_deserialize(tiff, buffer, buffer_size)] with [buffer_size] the size
    of [buffer]: the descriptor it builds, or [Failed] for [false]. *)
Definition tiff_deserialize (fuel : nat) (buffer : list Z) : outcome tiff_t :=
  '(block, c) <- deserialize_first_block buffer ;;
  '(tiff, c) <- deserialize_header_and_ifds block c ;;
  deserialize_blocks fuel tiff c.

End Codec.

(* ================================================================== *)
(** * A reference instance of the missing declarations

    One admissible choice of what [tiff.h] and [lz4.h] leave open, used to
    run the model on concrete inputs: every field of the fixed-size records
    in 8 bytes, and a run-length coder in the place of LZ4. *)

Module Reference.

Definition float_bytes (f : float) : list Z :=
  match f with
  | S754_zero s => le_encode 8 (if s then 1 else 0)
  | S754_infinity s => le_encode 8 (if s then 3 else 2)
  | S754_nan => le_encode 8 4
  | S754_finite s m e =>
      le_encode 8 (5 + (if s then 1 else 0) + 8 * (Z.pos m + 2^32 * (e + 2^15)))
  end.

Definition float_of_bytes (bs : list Z) : float :=
  let v := le_decode bs in
  if v =? 0 then S754_zero false
  else if v =? 1 then S754_zero true
  else if v =? 2 then S754_infinity false
  else if v =? 3 then S754_infinity true
  else if v =? 4 then S754_nan
  else
    let s := Z.odd (v - 5) in
    let r := (v - 5) / 8 in
    S754_finite s (Z.to_pos (r mod 2^32)) (r / 2^32 - 2^15).

Definition subimage_type_code (t : tiff_subimage_type) : Z :=
  match t with
  | TIFF_UNKNOWN_SUBIMAGE => 0
  | TIFF_LEVEL_SUBIMAGE => 1
  | TIFF_MACRO_SUBIMAGE => 2
  | TIFF_LABEL_SUBIMAGE => 3
  end.

Definition subimage_type_of_code (c : Z) : tiff_subimage_type :=
  if c =? 1 then TIFF_LEVEL_SUBIMAGE
  else if c =? 2 then TIFF_MACRO_SUBIMAGE
  else if c =? 3 then TIFF_LABEL_SUBIMAGE
  else TIFF_UNKNOWN_SUBIMAGE.

Definition bool_code (b : bool) : Z := if b then 1 else 0.

Definition header_bytes (h : tiff_serial_header_t) : list Z :=
  le_encode 8 (sh_filesize h) ++ le_encode 8 (sh_ifd_count h)
  ++ le_encode 8 (sh_main_image_index h) ++ le_encode 8 (sh_macro_image_index h)
  ++ le_encode 8 (sh_label_image_index h) ++ le_encode 8 (sh_level_count h)
  ++ le_encode 8 (sh_level_image_index h) ++ le_encode 8 (sh_bytesize_of_offsets h)
  ++ le_encode 8 (bool_code (sh_is_bigtiff h))
  ++ le_encode 8 (bool_code (sh_is_big_endian h))
  ++ float_bytes (sh_mpp_x h) ++ float_bytes (sh_mpp_y h).

Definition field (bs : list Z) (i : Z) : list Z := slice bs (8 * i) 8.

Definition header_of_bytes (bs : list Z) : tiff_serial_header_t :=
  {| sh_filesize := le_decode (field bs 0);
     sh_ifd_count := le_decode (field bs 1);
     sh_main_image_index := le_decode (field bs 2);
     sh_macro_image_index := le_decode (field bs 3);
     sh_label_image_index := le_decode (field bs 4);
     sh_level_count := le_decode (field bs 5);
     sh_level_image_index := le_decode (field bs 6);
     sh_bytesize_of_offsets := le_decode (field bs 7);
     sh_is_bigtiff := negb (le_decode (field bs 8) =? 0);
     sh_is_big_endian := negb (le_decode (field bs 9) =? 0);
     sh_mpp_x := float_of_bytes (field bs 10);
     sh_mpp_y := float_of_bytes (field bs 11) |}.

Definition ifd_bytes (s : tiff_serial_ifd_t) : list Z :=
  le_encode 8 (si_image_width s) ++ le_encode 8 (si_image_height s)
  ++ le_encode 8 (si_tile_width s) ++ le_encode 8 (si_tile_height s)
  ++ le_encode 8 (si_tile_count s)
  ++ le_encode 8 (si_image_description_length s)
  ++ le_encode 8 (si_jpeg_tables_length s)
  ++ le_encode 8 (si_compression s) ++ le_encode 8 (si_color_space s)
  ++ float_bytes (si_level_magnification s)
  ++ le_encode 8 (si_width_in_tiles s) ++ le_encode 8 (si_height_in_tiles s)
  ++ float_bytes (si_um_per_pixel_x s) ++ float_bytes (si_um_per_pixel_y s)
  ++ float_bytes (si_x_tile_side_in_um s) ++ float_bytes (si_y_tile_side_in_um s)
  ++ le_encode 8 (si_chroma_subsampling_horizontal s)
  ++ le_encode 8 (si_chroma_subsampling_vertical s)
  ++ le_encode 8 (subimage_type_code (si_subimage_type s)).

Definition ifd_of_bytes (bs : list Z) : tiff_serial_ifd_t :=
  {| si_image_width := le_decode (field bs 0);
     si_image_height := le_decode (field bs 1);
     si_tile_width := le_decode (field bs 2);
     si_tile_height := le_decode (field bs 3);
     si_tile_count := le_decode (field bs 4);
     si_image_description_length := le_decode (field bs 5);
     si_jpeg_tables_length := le_decode (field bs 6);
     si_compression := le_decode (field bs 7);
     si_color_space := le_decode (field bs 8);
     si_level_magnification := float_of_bytes (field bs 9);
     si_width_in_tiles := le_decode (field bs 10);
     si_height_in_tiles := le_decode (field bs 11);
     si_um_per_pixel_x := float_of_bytes (field bs 12);
     si_um_per_pixel_y := float_of_bytes (field bs 13);
     si_x_tile_side_in_um := float_of_bytes (field bs 14);
     si_y_tile_side_in_um := float_of_bytes (field bs 15);
     si_chroma_subsampling_horizontal := le_decode (field bs 16);
     si_chroma_subsampling_vertical := le_decode (field bs 17);
     si_subimage_type := subimage_type_of_code (le_decode (field bs 18)) |}.

Definition code_of (t : serial_block_type) : Z :=
  match t with
  | SERIAL_BLOCK_TERMINATOR => 0
  | SERIAL_BLOCK_TIFF_HEADER_AND_META => 1
  | SERIAL_BLOCK_TIFF_IFDS => 2
  | SERIAL_BLOCK_TIFF_IMAGE_DESCRIPTION => 3
  | SERIAL_BLOCK_TIFF_TILE_OFFSETS => 4
  | SERIAL_BLOCK_TIFF_TILE_BYTE_COUNTS => 5
  | SERIAL_BLOCK_TIFF_JPEG_TABLES => 6
  | SERIAL_BLOCK_LZ4_COMPRESSED_DATA => 7
  end.

Definition word (v : Z) : Prop := 0 <= v < 2^64.

Definition float_ok (f : float) : Prop :=
  match f with
  | S754_finite _ m e => Z.pos m < 2^32 /\ - 2^15 <= e < 2^15
  | _ => True
  end.

Definition header_ok (h : tiff_serial_header_t) : Prop :=
  word (sh_filesize h) /\ word (sh_ifd_count h)
  /\ word (sh_main_image_index h) /\ word (sh_macro_image_index h)
  /\ word (sh_label_image_index h) /\ word (sh_level_count h)
  /\ word (sh_level_image_index h) /\ word (sh_bytesize_of_offsets h)
  /\ float_ok (sh_mpp_x h) /\ float_ok (sh_mpp_y h).

Definition ifd_ok (s : tiff_serial_ifd_t) : Prop :=
  word (si_image_width s) /\ word (si_image_height s)
  /\ word (si_tile_width s) /\ word (si_tile_height s)
  /\ word (si_tile_count s) /\ word (si_image_description_length s)
  /\ word (si_jpeg_tables_length s) /\ word (si_compression s)
  /\ word (si_color_space s) /\ float_ok (si_level_magnification s)
  /\ word (si_width_in_tiles s) /\ word (si_height_in_tiles s)
  /\ float_ok (si_um_per_pixel_x s) /\ float_ok (si_um_per_pixel_y s)
  /\ float_ok (si_x_tile_side_in_um s) /\ float_ok (si_y_tile_side_in_um s)
  /\ word (si_chroma_subsampling_horizontal s)
  /\ word (si_chroma_subsampling_vertical s).

Definition layout : tiff_h :=
  {| block_code := code_of;
     sizeof_tiff_serial_header_t := 96;
     serial_header_bytes := header_bytes;
     serial_header_of_bytes := header_of_bytes;
     serial_header_representable := header_ok;
     sizeof_tiff_serial_ifd_t := 152;
     serial_ifd_bytes := ifd_bytes;
     serial_ifd_of_bytes := ifd_of_bytes;
     serial_ifd_representable := ifd_ok |}.

(** A run-length coder: pairs of a count (1 to 255) and a value. *)
Fixpoint rle_encode (l : list Z) : list Z :=
  match l with
  | [] => []
  | x :: r =>
      match rle_encode r with
      | c :: y :: out =>
          if (x =? y) && (c <? 255) then (c + 1) :: y :: out
          else 1 :: x :: c :: y :: out
      | _ => [1; x]
      end
  end.

Fixpoint rle_decode (l : list Z) : list Z :=
  match l with
  | c :: y :: out => repeat y (Z.to_nat c) ++ rle_decode out
  | _ => []
  end.

Definition rle : lz4_h :=
  {| LZ4_COMPRESSBOUND := fun n => 2 * n;
     LZ4_compress_default := fun src srcSize dstCapacity =>
       let out := rle_encode (take src srcSize) in
       if (Z.of_nat (length out) <=? dstCapacity)
          && (Z.of_nat (length out) <=? INT32_MAX)
          && (srcSize <=? INT32_MAX)
       then (Z.of_nat (length out), out) else (0, []);
     LZ4_decompress_safe := fun src compressedSize dstCapacity =>
       let out := rle_decode (take src compressedSize) in
       if (Z.of_nat (length out) <=? dstCapacity)
          && (Z.of_nat (length out) <=? INT32_MAX)
       then (Z.of_nat (length out), out) else (-1, []) |}.

(** A library whose compressor always gives up (returns 0). *)
Definition stored : lz4_h :=
  {| LZ4_COMPRESSBOUND := fun n => n;
     LZ4_compress_default := fun _ _ _ => (0, []);
     LZ4_decompress_safe := fun _ _ _ => (-1, []) |}.

Definition debug_build : common_h := {| ASSERT_enabled := true |}.
Definition release_build : common_h := {| ASSERT_enabled := false |}.

End Reference.

(* ================================================================== *)
(** * Concrete files and descriptors used below *)

Module Samples.

(** A classic little-endian TIFF of 26 bytes: one IFD with the single tag
    YCbCrSubSampling = (2, 1), two SHORTs stored inline. *)
Definition ycbcr_le : list Z :=
  [0x49; 0x49; 0x2A; 0; 8; 0; 0; 0;
   1; 0;
   0x12; 2;  3; 0;  2; 0; 0; 0;  2; 0; 1; 0;
   0; 0; 0; 0].

(** The same file written big-endian. *)
Definition ycbcr_be : list Z :=
  [0x4D; 0x4D; 0; 0x2A; 0; 0; 0; 8;
   0; 1;
   2; 0x12;  0; 3;  0; 0; 0; 2;  0; 2; 0; 1;
   0; 0; 0; 0].

(** The IFD entry of [ycbcr_be]. *)
Definition ycbcr_be_entry : list Z :=
  [2; 0x12;  0; 3;  0; 0; 0; 2;  0; 2; 0; 1].

(** A classic little-endian TIFF with two IFDs, each with the single tag
    ImageWidth = 1 (a LONG), and the same file written big-endian. *)
Definition two_ifds_le : list Z :=
  [0x49; 0x49; 0x2A; 0; 8; 0; 0; 0;
   1; 0;   0; 1;  4; 0;  1; 0; 0; 0;  1; 0; 0; 0;   26; 0; 0; 0;
   1; 0;   0; 1;  4; 0;  1; 0; 0; 0;  1; 0; 0; 0;   0; 0; 0; 0].

Definition two_ifds_be : list Z :=
  [0x4D; 0x4D; 0; 0x2A; 0; 0; 0; 8;
   0; 1;   1; 0;  0; 4;  0; 0; 0; 1;  0; 0; 0; 1;   0; 0; 0; 26;
   0; 1;   1; 0;  0; 4;  0; 0; 0; 1;  0; 0; 0; 1;   0; 0; 0; 0].

(** A classic little-endian TIFF whose only IFD has the single tag
    ImageWidth = 1: no description, no tile geometry. *)
Definition untiled_le : list Z :=
  [0x49; 0x49; 0x2A; 0; 8; 0; 0; 0;
   1; 0;   0; 1;  4; 0;  1; 0; 0; 0;  1; 0; 0; 0;   0; 0; 0; 0].

(** A classic little-endian TIFF header alone, 12 bytes long. *)
Definition header_only_le : list Z :=
  [0x49; 0x49; 0x2A; 0; 0; 0; 0; 0;  0; 0; 0; 0].

(** A classic little-endian TIFF whose IFD has TileOffsets with 2 inline
    BYTE values and then TileByteCounts with 1. *)
Definition mismatch_le : list Z :=
  [0x49; 0x49; 0x2A; 0; 8; 0; 0; 0;
   2; 0;
   0x44; 1;  1; 0;  2; 0; 0; 0;  9; 9; 0; 0;
   0x45; 1;  1; 0;  1; 0; 0; 0;  5; 0; 0; 0;
   0; 0; 0; 0].

(** The same with a TileByteCounts tag whose count is 0. *)
Definition zero_count_le : list Z :=
  [0x49; 0x49; 0x2A; 0; 8; 0; 0; 0;
   2; 0;
   0x44; 1;  1; 0;  2; 0; 0; 0;  9; 9; 0; 0;
   0x45; 1;  1; 0;  0; 0; 0; 0;  0; 0; 0; 0;
   0; 0; 0; 0].

(** A descriptor with one IFD that has a description, two tiles and no JPEG
    tables. *)
Definition one_ifd : tiff_ifd_t :=
  set_image_description_length 7
    (set_image_description (Some [108; 101; 118; 101; 108; 32; 48; 0])
       (set_tile_count 2
          (set_tile_offsets (Some [1000; 2000])
             (set_tile_byte_counts (Some [10; 20])
                (set_image_width 512 (ifd_with_index 0)))))).

Definition one_ifd_tiff : tiff_t :=
  set_ifd_count 1 (set_ifds [one_ifd] tiff_zero).

(** A stream whose first block is LZ4_COMPRESSED_DATA (in the numbering of
    [Reference.layout]) with [index] 100, followed by two bytes that the
    run-length coder of [Reference.rle] expands to one byte. *)
Definition short_lz4_stream : list Z :=
  [13; 10; 13; 10]
  ++ [7; 0; 0; 0;  100; 0; 0; 0;  2; 0; 0; 0; 0; 0; 0; 0]
  ++ [1; 7].

End Samples.

(* ================================================================== *)
(** * Definitions that follow the wording of the specification *)

(** The description [d] begins with the literal [prefix]. *)
Fixpoint has_prefix (prefix d : list Z) : bool :=
  match prefix with
  | [] => true
  | c :: prefix' =>
      match d with
      | [] => false
      | x :: d' => (x =? c) && has_prefix prefix' d'
      end
  end.

Definition begins_with (prefix : list Z) (description : option (list Z)) : bool :=
  match description with
  | Some d => has_prefix prefix d
  | None => false
  end.

(** The subimage type of the IFD at index 0, as the classification rules of
    spec 4.4 (step 6) give it from the description and the tile width. *)
Definition main_image_type (ifd : tiff_ifd_t) : tiff_subimage_type :=
  if begins_with lit_Macro (image_description ifd) then TIFF_MACRO_SUBIMAGE
  else if begins_with lit_Label (image_description ifd) then TIFF_LABEL_SUBIMAGE
  else if begins_with lit_level (image_description ifd) then TIFF_LEVEL_SUBIMAGE
  else if tile_width ifd >? 0 then TIFF_LEVEL_SUBIMAGE
  else TIFF_UNKNOWN_SUBIMAGE.

(** What [open_tiff_file] makes of [Samples.untiled_le], and its IFD. *)
Definition untiled_parsed : tiff_t :=
  Eval vm_compute in
    match open_tiff_file (C := Reference.debug_build) 1 tiff_zero
            (Some Samples.untiled_le) with
    | Done t => t
    | _ => tiff_zero
    end.

Definition untiled_ifd : tiff_ifd_t :=
  Eval vm_compute in hd ifd_zero (ifds untiled_parsed).

Section RoundTripSpec.
Context {T : tiff_h}.

(** The block stream of spec 4.6 for one IFD: IMAGE_DESCRIPTION,
    TILE_OFFSETS, TILE_BYTE_COUNTS, JPEG_TABLES, each a block header and its
    payload. *)
Definition ifd_stream (i : Z) (ifd : tiff_ifd_t) : list Z :=
  block_bytes (mk_block (block_code SERIAL_BLOCK_TIFF_IMAGE_DESCRIPTION) i
                 (image_description_length ifd))
  ++ take (object_bytes (image_description ifd)) (image_description_length ifd)
  ++ block_bytes (mk_block (block_code SERIAL_BLOCK_TIFF_TILE_OFFSETS) i
                    (tile_count ifd * 8))
  ++ take (u64_array_bytes (tile_offsets ifd)) (tile_count ifd * 8)
  ++ block_bytes (mk_block (block_code SERIAL_BLOCK_TIFF_TILE_BYTE_COUNTS) i
                    (tile_count ifd * 8))
  ++ take (u64_array_bytes (tile_byte_counts ifd)) (tile_count ifd * 8)
  ++ block_bytes (mk_block (block_code SERIAL_BLOCK_TIFF_JPEG_TABLES) i
                    (jpeg_tables_length ifd))
  ++ take (object_bytes (jpeg_tables ifd)) (jpeg_tables_length ifd).

Fixpoint ifd_streams (i : Z) (l : list tiff_ifd_t) : list Z :=
  match l with
  | [] => []
  | ifd :: rest => ifd_stream i ifd ++ ifd_streams (i + 1) rest
  end.

(** The whole uncompressed stream: HEADER_AND_META, IFDS, the blocks of
    each IFD in order, TERMINATOR. *)
Definition block_stream (tiff : tiff_t) : list Z :=
  block_bytes (mk_block (block_code SERIAL_BLOCK_TIFF_HEADER_AND_META) 0
                 sizeof_serial_block_t)
  ++ serial_header_bytes (serial_header_of tiff)
  ++ block_bytes (mk_block (block_code SERIAL_BLOCK_TIFF_IFDS) 0
                    (ifd_count tiff * sizeof_tiff_serial_ifd_t))
  ++ flat_map (fun ifd => serial_ifd_bytes (serial_ifd_of ifd)) (ifds tiff)
  ++ ifd_streams 0 (ifds tiff)
  ++ block_bytes (mk_block (block_code SERIAL_BLOCK_TERMINATOR) 0 0).

(** A descriptor as a value of the C types: the IFD array has [ifd_count]
    elements, the lengths and counts are not negative, the arrays hold 64-bit
    values, and the fields fit the fixed-size records. *)
Definition u64_values (p : option (list Z)) : Prop :=
  Forall (fun v => 0 <= v < 2^64) (object_bytes p).

Definition ifd_well_formed (ifd : tiff_ifd_t) : Prop :=
  0 <= image_description_length ifd
  /\ 0 <= jpeg_tables_length ifd
  /\ 0 <= tile_count ifd
  /\ u64_values (tile_offsets ifd)
  /\ u64_values (tile_byte_counts ifd)
  /\ serial_ifd_representable (serial_ifd_of ifd).

Definition tiff_well_formed (tiff : tiff_t) : Prop :=
  Z.of_nat (length (ifds tiff)) = ifd_count tiff
  /\ Forall ifd_well_formed (ifds tiff)
  /\ serial_header_representable (serial_header_of tiff).





Fixpoint skeleton_ifds (i : Z) (l : list tiff_ifd_t) : list tiff_ifd_t :=
  match l with
  | [] => []
  | ifd :: rest => ifd_of_serial i (serial_ifd_of ifd) :: skeleton_ifds (i + 1) rest
  end.


End RoundTripSpec.

(** A cursor with [done] behind it and [todo] ahead. *)
Definition cursor_on (done todo : list Z) : cursor :=
  mk_cursor (done ++ todo) (Z.of_nat (length done)) (Z.of_nat (length todo)).

(** A cursor that stays inside its buffer. *)
Definition sane (c : cursor) : Prop :=
  0 <= cur_pos c
  /\ cur_pos c + cur_left c <= Z.of_nat (length (cur_mem c))
  /\ Z.of_nat (length (cur_mem c)) < 2^63.

(* ================================================================== *)
(** * Shapes of descriptors, streams and headers used in the statements *)

(** The chroma subsampling factors of the IFDs of a parse. *)
Definition chroma_of (r : outcome tiff_t) : option (list (Z * Z)) :=
  match r with
  | Done t => Some (map (fun ifd => (chroma_subsampling_horizontal ifd,
                                     chroma_subsampling_vertical ifd)) (ifds t))
  | _ => None
  end.

(** A block header whose fields are values of their C types. *)
Definition block_in_range (b : serial_block_t) : Prop :=
  0 <= block_type b < 2^32 /\ 0 <= index b < 2^32 /\ 0 <= length_ b < 2^64.

(** The search of [find_end_of_http_headers] on the rest of the string. *)
Fixpoint scan (l : list Z) (offset : Z) (n : nat) : Z :=
  match n with
  | O => 0
  | S k =>
      if le_decode (take l 4) =? le_decode [13; 10; 13; 10] then offset + 4
      else scan (tl l) (offset + 1) k
  end.

(** A character that is neither NUL nor a carriage return. *)
Definition plain (c : Z) : bool := negb (c mod 256 =? 13) && negb (c =? 0).

(** [atoi] on the Content-length field: the decimal digits at its start. *)
Fixpoint atoi_digits (s : list Z) (acc : Z) : Z :=
  match s with
  | c :: r => if (48 <=? c) && (c <=? 57) then atoi_digits r (10 * acc + (c - 48)) else acc
  | [] => acc
  end.

(** The value of the Content-length field of the headers: the field starts
    92 bytes into them. *)
Definition content_length (headers : list Z) : Z := atoi_digits (drop headers 92) 0.

Section StreamShape.
Context {T : tiff_h}.

(** The sizes of one IFD as the stream needs them. *)
Definition ifd_sizes_ok (ifd : tiff_ifd_t) : Prop :=
  0 <= image_description_length ifd < 2^31
  /\ 0 <= jpeg_tables_length ifd < 2^31
  /\ 0 <= tile_count ifd * 8 < 2^31.

Definition ifd_objects_ok (ifd : tiff_ifd_t) : Prop :=
  image_description_length ifd
    <= Z.of_nat (length (object_bytes (image_description ifd)))
  /\ jpeg_tables_length ifd <= Z.of_nat (length (object_bytes (jpeg_tables ifd)))
  /\ tile_count ifd * 8 <= Z.of_nat (length (u64_array_bytes (tile_offsets ifd)))
  /\ tile_count ifd * 8 <= Z.of_nat (length (u64_array_bytes (tile_byte_counts ifd))).

(** What [tiff_serialize] needs of a descriptor for its sizes not to wrap. *)
Record sizes_fit (tiff : tiff_t) : Prop := {
  fit_wf : tiff_well_formed tiff;
  fit_total : total_size_sum tiff < INT32_MAX
}.

(** The descriptor after the HEADER_AND_META record and the IFDS block. *)
Definition skeleton_tiff (tiff : tiff_t) : tiff_t :=
  set_ifds (skeleton_ifds 0 (ifds tiff))
    (tiff_of_serial_header (serial_header_of tiff)).

(** The rest of the stream behind the HEADER_AND_META block header. *)
Definition stream_tail (tiff : tiff_t) : list Z :=
  serial_header_bytes (serial_header_of tiff)
  ++ block_bytes (mk_block (block_code SERIAL_BLOCK_TIFF_IFDS) 0
                    (ifd_count tiff * sizeof_tiff_serial_ifd_t))
  ++ flat_map (fun ifd => serial_ifd_bytes (serial_ifd_of ifd)) (ifds tiff)
  ++ ifd_streams 0 (ifds tiff)
  ++ block_bytes (mk_block (block_code SERIAL_BLOCK_TERMINATOR) 0 0).

Definition header_block : serial_block_t :=
  mk_block (block_code SERIAL_BLOCK_TIFF_HEADER_AND_META) 0 sizeof_serial_block_t.

End StreamShape.

(** What [tiff_serialize] makes of [Samples.one_ifd_tiff] and of [tiff_zero]
    with the reference instance, and what [tiff_deserialize] rebuilds. *)
Definition one_ifd_buffer : push_buffer_t :=
  Eval vm_compute in
    match tiff_serialize (C := Reference.debug_build) (T := Reference.layout)
            (L := Reference.rle) Samples.one_ifd_tiff with
    | Done b => b
    | _ => mk_push_buffer [] [] 0
    end.

Definition zero_ifds_buffer : push_buffer_t :=
  Eval vm_compute in
    match tiff_serialize (C := Reference.debug_build) (T := Reference.layout)
            (L := Reference.rle) tiff_zero with
    | Done b => b
    | _ => mk_push_buffer [] [] 0
    end.

(** The buffer of [one_ifd_buffer] with the [index] of its LZ4 block, the
    expected uncompressed size, raised from 399 to 400. *)
Definition mismatched_index_stream : list Z :=
  raw_memory one_ifd_buffer
  ++ block_bytes (mk_block (Reference.code_of SERIAL_BLOCK_LZ4_COMPRESSED_DATA) 400 94)
  ++ drop (pb_data one_ifd_buffer) 16.

(* ================================================================== *)
(** * Files, entries and descriptors used in the further properties *)

(** A value of the range of a byte. *)
Definition is_byte (b : Z) : Prop := 0 <= b < 256.

(** The [n] bytes of [v] as a file of the given byte order stores them. *)
Definition file_encode (big_endian : bool) (n : nat) (v : Z) : list Z :=
  if big_endian then rev (le_encode n v) else le_encode n v.

(** The entry of an IFD as the file stores it: code, type, count and the
    value field (4 bytes, or 8 in BigTIFF; the count has the same width). *)
Definition raw_entry (bigtiff big_endian : bool) (code type count : Z)
    (value : list Z) : list Z :=
  file_encode big_endian 2 code ++ file_encode big_endian 2 type
  ++ file_encode big_endian (if bigtiff then 8 else 4) count ++ value.

Module Inputs.

(** A classic little-endian TIFF with two tiled IFDs: 512 x 512 tiles in
    both, and NewSubfileType = 1 (reduced image) in the second. *)
Definition two_levels_le : list Z :=
  [0x49; 0x49; 0x2A; 0; 8; 0; 0; 0;
   2; 0;
   0x42; 1;  3; 0;  1; 0; 0; 0;  0; 2; 0; 0;
   0x43; 1;  3; 0;  1; 0; 0; 0;  0; 2; 0; 0;
   38; 0; 0; 0;
   3; 0;
   0xFE; 0;  4; 0;  1; 0; 0; 0;  1; 0; 0; 0;
   0x42; 1;  3; 0;  1; 0; 0; 0;  0; 2; 0; 0;
   0x43; 1;  3; 0;  1; 0; 0; 0;  0; 2; 0; 0;
   0; 0; 0; 0].

(** A classic little-endian header whose first IFD offset is 0, padded to
    16 bytes. *)
Definition no_ifds_le : list Z :=
  [0x49; 0x49; 0x2A; 0; 0; 0; 0; 0;  0; 0; 0; 0; 0; 0; 0; 0].

(** A classic little-endian TIFF whose only IFD has no entries. *)
Definition empty_ifd_le : list Z :=
  [0x49; 0x49; 0x2A; 0; 8; 0; 0; 0;  0; 0;  0; 0; 0; 0;  0; 0].

End Inputs.

(** What [open_tiff_file] makes of [Inputs.two_levels_le]. *)
Definition two_levels_parsed : tiff_t :=
  Eval vm_compute in
    match open_tiff_file (C := Reference.debug_build) 2 tiff_zero
            (Some Inputs.two_levels_le) with
    | Done t => t
    | _ => tiff_zero
    end.

Module Descriptors.

(** A descriptor whose only IFD has a description of 600 bytes that
    alternate between two values. *)
Definition noisy_tiff : tiff_t :=
  set_ifd_count 1
    (set_ifds
       [set_image_description_length 600
          (set_image_description
             (Some (flat_map (fun _ => [65; 66]) (seq 0 300) ++ [0]))
             (ifd_with_index 0))]
       tiff_zero).

End Descriptors.

(* ================================================================== *)
(** * Shapes of the results of the reader and of the codec *)

(** The subimage type that the classification step of [tiff_read_ifd] gives
    an IFD that comes to it unclassified, from its description, tile width,
    index and NewSubfileType. *)
Definition subimage_type_rule (ifd : tiff_ifd_t) : tiff_subimage_type :=
  if begins_with lit_Macro (image_description ifd) then TIFF_MACRO_SUBIMAGE
  else if begins_with lit_Label (image_description ifd) then TIFF_LABEL_SUBIMAGE
  else if begins_with lit_level (image_description ifd) then TIFF_LEVEL_SUBIMAGE
  else if (tile_width ifd >? 0)
          && ((ifd_index ifd =? 0)
              || negb (Z.land (tiff_subfiletype ifd) TIFF_FILETYPE_REDUCEDIMAGE =? 0))
       then TIFF_LEVEL_SUBIMAGE
  else TIFF_UNKNOWN_SUBIMAGE.

(** Two IFDs with the same index and the same inputs and result of the
    classification. *)
Definition same_class (a b : tiff_ifd_t) : Prop :=
  ifd_index b = ifd_index a
  /\ subimage_type b = subimage_type a
  /\ image_description b = image_description a
  /\ tile_width b = tile_width a
  /\ tiff_subfiletype b = tiff_subfiletype a.

(** The byte order, the flavour and the offset size of a descriptor. *)
Definition same_format (a b : tiff_t) : Prop :=
  is_big_endian b = is_big_endian a
  /\ is_bigtiff b = is_bigtiff a
  /\ bytesize_of_offsets b = bytesize_of_offsets a.

(** The IFDs of a list carry their positions, counted from [k], and the
    subimage type of the rule. *)
Definition indexed_from (k : nat) (l : list tiff_ifd_t) : Prop :=
  forall i ifd, nth_error l i = Some ifd ->
    ifd_index ifd = Z.of_nat (k + i)
    /\ subimage_type ifd = subimage_type_rule ifd.

(** What the header checks of [open_tiff_file] establish. *)
Definition header_accepted (bytes : list Z) (t : tiff_t) : Prop :=
  (16 <= length bytes)%nat
  /\ (load 2 bytes 0 = TIFF_LITTLE_ENDIAN /\ is_big_endian t = false
      \/ load 2 bytes 0 = TIFF_BIG_ENDIAN /\ is_big_endian t = true)
  /\ (maybe_swap_16 (load 2 bytes 2) (is_big_endian t) = 0x2A
      /\ is_bigtiff t = false /\ bytesize_of_offsets t = 4
      \/ maybe_swap_16 (load 2 bytes 2) (is_big_endian t) = 0x2B
         /\ is_bigtiff t = true /\ bytesize_of_offsets t = 8
         /\ maybe_swap_16 (load 2 bytes 4) (is_big_endian t) = 8
         /\ load 2 bytes 6 = 0).

(** The resolution that the last loop of [open_tiff_file] gives the IFD at
    position [i]: [um] doubled [i] times. *)
Fixpoint um_after (i : nat) (um : float) : float :=
  match i with
  | O => um
  | S k => um_after k (float_mul um float_2_0)
  end.



(** What the serial records do not carry: the fields that
    [tiff_deserialize] fills on its own. *)
Definition fresh_ifd_fields (i : nat) (b : tiff_ifd_t) : Prop :=
  ifd_index b = Z.of_nat i
  /\ tiff_subfiletype b = 0
  /\ reference_black_white_rational_count b = 0
  /\ reference_black_white b = None.

(** The four bytes at offset [j] of [str] are CR LF CR LF. *)
Definition crlfcrlf_at (str : list Z) (j : nat) : Prop :=
  load 4 str (Z.of_nat j) = le_decode [13; 10; 13; 10].

(** The description of a deserialized IFD, when it has one: the
    [image_description_length] bytes of the block and a NUL behind them. *)
Definition description_terminated (ifd : tiff_ifd_t) : Prop :=
  match image_description ifd with
  | Some d =>
      exists content,
        d = content ++ [0]
        /\ Z.of_nat (length content) = image_description_length ifd
  | None => True
  end.

(** The shape of a descriptor built by [tiff_deserialize]: as many IFDs as
    [ifd_count] says, each with its position as [ifd_index], the fields that
    the stream does not carry at 0 and NULL, and a terminated description. *)
Definition deserialized_shape (t : tiff_t) : Prop :=
  length (ifds t) = Z.to_nat (ifd_count t)
  /\ forall i ifd, nth_error (ifds t) i = Some ifd ->
       fresh_ifd_fields i ifd /\ description_terminated ifd.

(* ================================================================== *)
(* ================================================================== *)
(** * Theorems *)

(* ================================================================== *)
(** * Properties of the positioned read *)

Section ReaderFacts.
Context {C : common_h}.

Lemma ASSERT_true : ASSERT true = Done tt.
Proof. unfold ASSERT. rewrite andb_false_r. reflexivity. Qed.

(** C8: [file_read_at_offset] always returns, and on return the file
    position indicator (and the file) is what it was on entry, whether the
    read was complete or short. *)
Theorem file_read_at_offset_restores_position :
  forall (fp : FILE) (offset num_bytes : Z),
  exists got result fp',
    file_read_at_offset fp offset num_bytes = Done (got, result, fp')
    /\ f_pos fp' = f_pos fp
    /\ f_bytes fp' = f_bytes fp.
Proof.
  intros fp offset num_bytes.
  unfold file_read_at_offset, fgetpos64.
  change (0 =? 0) with true. rewrite ASSERT_true. cbn [bind].
  destruct (fseeko64 fp offset) as [r1 fp1] eqn:Hseek.
  destruct (fread num_bytes fp1) as [[got result] fp2] eqn:Hread.
  unfold fsetpos64. change (0 =? 0) with true. rewrite ASSERT_true. cbn [bind].
  exists got, result. eexists. split; [reflexivity|]. split; [reflexivity|].
  cbn [f_bytes].
  assert (H1 : f_bytes fp1 = f_bytes fp).
  { unfold fseeko64 in Hseek. destruct (i64 offset <? 0); inversion Hseek; reflexivity. }
  assert (H2 : f_bytes fp2 = f_bytes fp1).
  { unfold fread in Hread. destruct (num_bytes =? 0); inversion Hread; reflexivity. }
  congruence.
Qed.

End ReaderFacts.

Section ParserFacts.
Context {C : common_h}.

Lemma take_firstn : forall (A : Type) (l : list A) (n : Z),
  take l n = firstn (Z.to_nat n) l.
Proof.
  induction l as [|x r IH]; intro n; simpl.
  - destruct (Z.to_nat n); reflexivity.
  - destruct (n <=? 0) eqn:E.
    + apply Z.leb_le in E. replace (Z.to_nat n) with 0%nat by lia. reflexivity.
    + apply Z.leb_gt in E.
      replace (Z.to_nat n) with (S (Z.to_nat (n - 1))) by lia.
      simpl. f_equal. apply IH.
Qed.

Lemma drop_skipn : forall (A : Type) (l : list A) (n : Z),
  drop l n = skipn (Z.to_nat n) l.
Proof.
  induction l as [|x r IH]; intro n; simpl.
  - destruct (Z.to_nat n); reflexivity.
  - destruct (n <=? 0) eqn:E.
    + apply Z.leb_le in E. replace (Z.to_nat n) with 0%nat by lia. reflexivity.
    + apply Z.leb_gt in E.
      replace (Z.to_nat n) with (S (Z.to_nat (n - 1))) by lia.
      simpl. apply IH.
Qed.

Lemma slice_firstn_skipn : forall mem off n,
  slice mem off n = firstn (Z.to_nat n) (skipn (Z.to_nat off) mem).
Proof. intros. unfold slice. rewrite take_firstn, drop_skipn. reflexivity. Qed.

Lemma slice_length : forall mem off n,
  length (slice mem off n) = Nat.min (Z.to_nat n) (length mem - Z.to_nat off).
Proof.
  intros. rewrite slice_firstn_skipn, length_firstn, length_skipn. reflexivity.
Qed.

Lemma read_tiff_header_short : forall tiff bytes,
  (length bytes < 16)%nat -> read_tiff_header tiff bytes = Failed.
Proof.
  intros tiff bytes Hlen. unfold read_tiff_header.
  destruct (Z.of_nat (length bytes) >? 8); [|reflexivity].
  unfold fread. change (16 =? 0) with false. cbv iota.
  cbn [f_bytes f_pos].
  assert (Hs : (Z.of_nat (length (slice bytes 0 16)) =? 16) = false).
  { apply Z.eqb_neq. rewrite slice_length. lia. }
  rewrite Hs. reflexivity.
Qed.

(** C10: [open_tiff_file] returns failure for every file shorter than 16
    bytes, whatever the file holds: the header is read as one item of 16
    bytes. *)
Theorem open_tiff_file_rejects_short_files :
  forall (fuel : nat) (tiff : tiff_t) (bytes : list Z),
    (length bytes < 16)%nat ->
    open_tiff_file fuel tiff (Some bytes) = Failed.
Proof.
  intros fuel tiff bytes Hlen. unfold open_tiff_file.
  rewrite (read_tiff_header_short tiff bytes Hlen). reflexivity.
Qed.

End ParserFacts.

(** A 12-byte file that starts with a well-formed classic little-endian
    header is rejected. *)
Lemma open_tiff_file_rejects_short_files_witness :
  (length Samples.header_only_le < 16)%nat
  /\ open_tiff_file (C := Reference.release_build) 1 tiff_zero
       (Some Samples.header_only_le) = Failed.
Proof.
  split.
  - vm_compute. lia.
  - apply (open_tiff_file_rejects_short_files (C := Reference.release_build)).
    vm_compute. lia.
Defined.

(** C3: the inline payload of a big-endian entry is not swapped element by
    element.  For the entry YCbCrSubSampling = (2, 1) of a big-endian classic
    TIFF, two inline SHORTs, the reader swaps the first element only: the tag
    keeps the second one in file order, and the vertical subsampling is read
    as 256 instead of 1. *)
Theorem inline_swap_leaves_second_element :
  forall (C : common_h),
    read_raw_tag false true Samples.ycbcr_be_entry
      = Done (mk_tag 530 3 2 [2; 0; 0; 1; 0; 0; 0; 0] false)
    /\ (forall fp ifd,
          interpret_tag true fp ifd (mk_tag 530 3 2 [2; 0; 0; 1; 0; 0; 0; 0] false)
          = Done (fp, set_chroma_subsampling_vertical 256
                        (set_chroma_subsampling_horizontal 2 ifd))).
Proof.
  intro C. split.
  - reflexivity.
  - intros fp ifd. reflexivity.
Qed.

(** C4: the little-endian file [ycbcr_le] and its big-endian twin
    [ycbcr_be] are both opened with success, and the descriptors differ in
    the vertical chroma subsampling: 1 against 256. *)
Theorem endianness_twins_differ :
  forall (C : common_h),
    chroma_of (open_tiff_file 1 tiff_zero (Some Samples.ycbcr_le)) = Some [(2, 1)]
    /\ chroma_of (open_tiff_file 1 tiff_zero (Some Samples.ycbcr_be)) = Some [(2, 256)].
Proof.
  intro C. split.
  - destruct C as [[|]]; vm_compute; reflexivity.
  - destruct C as [[|]]; vm_compute; reflexivity.
Qed.

(** The offset of the next IFD is taken from the file as it is: the
    big-endian twin of a little-endian file with two IFDs is not opened. *)
Lemma big_endian_next_ifd_offset_not_swapped :
  forall (C : common_h),
    (exists t, open_tiff_file 2 tiff_zero (Some Samples.two_ifds_le) = Done t
               /\ ifd_count t = 2)
    /\ open_tiff_file 2 tiff_zero (Some Samples.two_ifds_be) = Failed.
Proof.
  intro C. split.
  - destruct C as [[|]]; eexists; split; vm_compute; reflexivity.
  - destruct C as [[|]]; vm_compute; reflexivity.
Qed.

Section Classification.
Context {C : common_h}.

Lemma strncmp_has_prefix : forall prefix d,
  Forall (fun c => c <> 0) prefix ->
  (strncmp d prefix (length prefix) =? 0) = has_prefix prefix d.
Proof.
  induction prefix as [|c p IH]; intros d Hnz.
  - reflexivity.
  - inversion Hnz as [|? ? Hc Hp]; subst.
    cbn [length strncmp has_prefix hd tl].
    destruct d as [|x d']; cbn [hd tl].
    + assert (E : (0 =? c) = false) by (apply Z.eqb_neq; lia).
      rewrite E. apply Z.eqb_neq. lia.
    + destruct (x =? c) eqn:E.
      * apply Z.eqb_eq in E. subst x.
        assert (E0 : (c =? 0) = false) by (apply Z.eqb_neq; assumption).
        rewrite E0. cbn [andb]. apply IH; assumption.
      * cbn [andb]. apply Z.eqb_neq in E. apply Z.eqb_neq. lia.
Qed.

Lemma lit_Macro_nonzero : Forall (fun c => c <> 0) lit_Macro.
Proof. unfold lit_Macro. repeat constructor; discriminate. Qed.
Lemma lit_Label_nonzero : Forall (fun c => c <> 0) lit_Label.
Proof. unfold lit_Label. repeat constructor; discriminate. Qed.
Lemma lit_level_nonzero : Forall (fun c => c <> 0) lit_level.
Proof. unfold lit_level. repeat constructor; discriminate. Qed.

Lemma classify_subimage_main : forall tiff ifd tiff' ifd',
  subimage_type ifd = TIFF_UNKNOWN_SUBIMAGE ->
  ifd_index ifd = 0 ->
  classify_subimage tiff ifd = (tiff', ifd') ->
  subimage_type ifd' = main_image_type ifd'
  /\ ifds tiff' = ifds tiff /\ ifd_count tiff' = ifd_count tiff.
Proof.
  intros tiff ifd tiff' ifd' Hty Hidx H.
  unfold classify_subimage in H. unfold main_image_type.
  destruct (image_description ifd) as [d|] eqn:Hd.
  - change 5%nat with (length lit_Macro) in H at 1.
    rewrite (strncmp_has_prefix lit_Macro d lit_Macro_nonzero) in H.
    change 5%nat with (length lit_Label) in H at 1.
    rewrite (strncmp_has_prefix lit_Label d lit_Label_nonzero) in H.
    change 5%nat with (length lit_level) in H.
    rewrite (strncmp_has_prefix lit_level d lit_level_nonzero) in H.
    destruct (has_prefix lit_Macro d) eqn:EM.
    { cbn -[has_prefix] in H. inversion H; subst. cbn -[has_prefix].
      rewrite Hd. cbn -[has_prefix]. rewrite EM. auto. }
    destruct (has_prefix lit_Label d) eqn:EL.
    { cbn -[has_prefix] in H. inversion H; subst. cbn -[has_prefix].
      rewrite Hd. cbn -[has_prefix]. rewrite EM, EL. auto. }
    destruct (has_prefix lit_level d) eqn:Ev.
    { cbn -[has_prefix] in H. inversion H; subst. cbn -[has_prefix].
      rewrite Hd. cbn -[has_prefix]. rewrite EM, EL, Ev. auto. }
    rewrite Hty, Hidx in H. cbn [subimage_type_eqb andb orb Z.eqb] in H.
    destruct (tile_width ifd >? 0) eqn:Etw; inversion H; subst; cbn -[has_prefix];
      rewrite Hd; cbn -[has_prefix]; rewrite EM, EL, Ev, ?Etw; auto.
  - rewrite Hty, Hidx in H. cbn [subimage_type_eqb andb orb Z.eqb] in H.
    destruct (tile_width ifd >? 0) eqn:Etw; inversion H; subst; cbn -[has_prefix];
      rewrite Hd; cbn -[has_prefix]; rewrite ?Etw; auto.
Qed.

Lemma classify_subimage_frame : forall tiff ifd,
  ifds (fst (classify_subimage tiff ifd)) = ifds tiff
  /\ ifd_count (fst (classify_subimage tiff ifd)) = ifd_count tiff.
Proof.
  intros tiff ifd. unfold classify_subimage.
  destruct (image_description ifd);
    repeat match goal with |- context [if ?b then _ else _] => destruct b end;
    split; reflexivity.
Qed.

(** The tag interpreter and the tile grid never touch the subimage type or
    the index of the IFD. *)
Lemma interpret_tag_frame : forall be fp ifd tag fp' ifd',
  interpret_tag be fp ifd tag = Done (fp', ifd') ->
  subimage_type ifd' = subimage_type ifd /\ ifd_index ifd' = ifd_index ifd.
Proof.
  intros be fp ifd tag fp' ifd' H. unfold interpret_tag in H.
  repeat match type of H with
         | (if ?b then _ else _) = Done _ => destruct b
         end;
  repeat match type of H with
         | bind ?m _ = Done _ =>
             destruct m as [?| | |]; cbn [bind] in H; try discriminate H
         | (let '(_, _) := ?p in _) = Done _ => destruct p
         | match ?m with _ => _ end = Done _ => destruct m; try discriminate H
         end;
  try (inversion H; subst; split; reflexivity).
Qed.

Lemma interpret_tags_frame : forall be tags fp ifd fp' ifd',
  interpret_tags be fp ifd tags = Done (fp', ifd') ->
  subimage_type ifd' = subimage_type ifd /\ ifd_index ifd' = ifd_index ifd.
Proof.
  induction tags as [|tag rest IH]; intros fp ifd fp' ifd' H; cbn [interpret_tags] in H.
  - inversion H; subst. split; reflexivity.
  - destruct (interpret_tag be fp ifd tag) as [[fp1 ifd1]| | |] eqn:E;
      cbn [bind] in H; try discriminate H.
    apply interpret_tag_frame in E. apply IH in H.
    destruct E, H. split; congruence.
Qed.

Lemma compute_tile_grid_frame : forall ifd,
  subimage_type (compute_tile_grid ifd) = subimage_type ifd
  /\ ifd_index (compute_tile_grid ifd) = ifd_index ifd.
Proof.
  intro ifd. unfold compute_tile_grid.
  destruct (tile_width ifd >? 0);
    match goal with |- context [if ?b then _ else _] => destruct b end;
    split; reflexivity.
Qed.

Lemma tiff_read_ifd_main : forall tiff fp i off tiff' fp' ifd' next,
  tiff_read_ifd tiff fp (ifd_with_index i) off = Done (tiff', fp', ifd', next) ->
  (i = 0 -> subimage_type ifd' = main_image_type ifd')
  /\ ifds tiff' = ifds tiff /\ ifd_count tiff' = ifd_count tiff.
Proof.
  intros tiff fp i off tiff' fp' ifd' next H. unfold tiff_read_ifd in H.
  destruct (read_ifd_tags tiff fp off) as [[tags fp1]| | |];
    cbn [bind] in H; try discriminate H.
  destruct (interpret_tags _ fp1 _ tags) as [[fp2 ifd2]| | |] eqn:Ei;
    cbn [bind] in H; try discriminate H.
  apply interpret_tags_frame in Ei. cbn in Ei. destruct Ei as [Ety Eidx].
  destruct (compute_tile_grid_frame ifd2) as [Gty Gidx].
  destruct (classify_subimage tiff (compute_tile_grid ifd2)) as [tiff1 ifd3] eqn:Ec.
  destruct (8 <? bytesize_of_offsets tiff1); try discriminate H.
  destruct (fread (bytesize_of_offsets tiff1) fp2) as [[got ret] fp3].
  destruct (negb (ret =? 1)); try discriminate H.
  revert Ety Eidx Gty Gidx Ec. inversion H; subst. clear H.
  intros Ety Eidx Gty Gidx Ec.
  split.
  - intro Hi.
    eapply (classify_subimage_main tiff (compute_tile_grid ifd2)); [congruence|congruence|].
    exact Ec.
  - pose proof (classify_subimage_frame tiff (compute_tile_grid ifd2)) as F.
    rewrite Ec in F. exact F.
Qed.

Lemma read_ifds_extends : forall fuel tiff fp off t fp',
  read_ifds fuel tiff fp off = Done (t, fp') ->
  exists more, ifds t = ifds tiff ++ more.
Proof.
  induction fuel as [|fuel IH]; intros tiff fp off t fp' H; cbn [read_ifds] in H.
  - destruct (off =? 0); [|discriminate H]. inversion H; subst.
    exists []. rewrite app_nil_r. reflexivity.
  - destruct (off =? 0).
    + inversion H; subst. exists []. rewrite app_nil_r. reflexivity.
    + destruct (tiff_read_ifd tiff fp (ifd_with_index (ifd_count tiff)) off)
        as [[[[tiff1 fp1] ifd1] next]| | |] eqn:E; cbn [bind] in H; try discriminate H.
      apply tiff_read_ifd_main in E. destruct E as [_ [Eifds _]].
      apply IH in H. destruct H as [more Hmore]. cbn in Hmore.
      exists (ifd1 :: more). rewrite Hmore, Eifds, <- app_assoc. reflexivity.
Qed.

Lemma read_ifds_main : forall fuel tiff fp off t fp' ifd0,
  ifds tiff = [] -> ifd_count tiff = 0 ->
  read_ifds fuel tiff fp off = Done (t, fp') ->
  nth_error (ifds t) 0 = Some ifd0 ->
  subimage_type ifd0 = main_image_type ifd0.
Proof.
  intros fuel tiff fp off t fp' ifd0 Hnil Hcount H Hnth.
  destruct fuel as [|fuel]; cbn [read_ifds] in H.
  - destruct (off =? 0); [|discriminate H]. inversion H; subst.
    rewrite Hnil in Hnth. discriminate Hnth.
  - destruct (off =? 0).
    + inversion H; subst. rewrite Hnil in Hnth. discriminate Hnth.
    + destruct (tiff_read_ifd tiff fp (ifd_with_index (ifd_count tiff)) off)
        as [[[[tiff1 fp1] ifd1] next]| | |] eqn:E; cbn [bind] in H; try discriminate H.
      apply tiff_read_ifd_main in E. destruct E as [Emain [Eifds _]].
      apply read_ifds_extends in H. destruct H as [more Hmore]. cbn in Hmore.
      rewrite Hmore, Eifds, Hnil in Hnth. cbn in Hnth. inversion Hnth; subst.
      apply Emain. exact Hcount.
Qed.

Lemma read_tiff_header_frame : forall tiff bytes tiff' fp next,
  read_tiff_header tiff bytes = Done (tiff', fp, next) ->
  ifds tiff' = ifds tiff /\ ifd_count tiff' = ifd_count tiff.
Proof.
  intros tiff bytes tiff' fp next H. unfold read_tiff_header in H.
  destruct (Z.of_nat (length bytes) >? 8); [|discriminate H].
  destruct (fread 16 _) as [[hdr ret] fp0].
  destruct (negb (ret =? 1)); [discriminate H|].
  repeat match type of H with
         | bind ?m _ = Done _ =>
             let E := fresh "E" in
             destruct m as [?| | |] eqn:E; cbn [bind] in H; try discriminate H
         | (let '(_, _) := ?p in _) = Done _ => destruct p
         end.
  inversion H; subst. split; reflexivity.
Qed.

Lemma assign_um_per_pixel_head : forall n um l l' b,
  assign_um_per_pixel n um l = Done l' ->
  nth_error l' 0 = Some b ->
  exists a, nth_error l 0 = Some a
            /\ subimage_type b = subimage_type a
            /\ image_description b = image_description a
            /\ tile_width b = tile_width a.
Proof.
  intros n um l l' b H Hnth. destruct n as [|n]; cbn [assign_um_per_pixel] in H.
  - inversion H; subst. exists b. auto.
  - destruct l as [|a rest]; [discriminate H|].
    destruct (ASSERT (tile_width a =? 512)); cbn [bind] in H; try discriminate H.
    destruct (ASSERT (tile_height a =? 512)); cbn [bind] in H; try discriminate H.
    destruct (assign_um_per_pixel n _ rest); cbn [bind] in H; try discriminate H.
    inversion H; subst. cbn in Hnth. inversion Hnth; subst.
    exists a. cbn. auto.
Qed.

(** C7, as amended: in every file that [open_tiff_file] parses with success
    (into a descriptor that starts without IFDs), the IFD at index 0 is
    MACRO or LABEL when its description begins with "Macro" or "Label",
    LEVEL when its description begins with "level" or, failing all three,
    its tile width is positive, and UNKNOWN otherwise. *)
Theorem main_image_classification :
  forall (fuel : nat) (tiff : tiff_t) (file : option (list Z))
         (t : tiff_t) (ifd0 : tiff_ifd_t),
    ifds tiff = [] -> ifd_count tiff = 0 ->
    open_tiff_file fuel tiff file = Done t ->
    nth_error (ifds t) 0 = Some ifd0 ->
    subimage_type ifd0 = main_image_type ifd0.
Proof.
  intros fuel tiff file t ifd0 Hnil Hcount H Hnth.
  unfold open_tiff_file in H. destruct file as [bytes|]; [|discriminate H].
  destruct (read_tiff_header tiff bytes) as [[[tiff1 fp1] off]| | |] eqn:Eh;
    cbn [bind] in H; try discriminate H.
  apply read_tiff_header_frame in Eh. destruct Eh as [Eifds Ecount].
  destruct (read_ifds fuel tiff1 fp1 off) as [[tiff2 fp2]| | |] eqn:Er;
    cbn [bind] in H; try discriminate H.
  unfold finish_tiff in H.
  match type of H with bind ?m _ = _ => destruct m as [l'| | |] eqn:Ea end;
    cbn [bind] in H; try discriminate H.
  inversion H; subst. clear H. cbn [ifds set_ifds] in Hnth, Ea.
  destruct (assign_um_per_pixel_head _ _ _ _ _ Ea Hnth) as [a [Ha [Hty [Hdesc Htw]]]].
  assert (Hmain : subimage_type a = main_image_type a).
  { eapply read_ifds_main; [| |exact Er|exact Ha]; congruence. }
  unfold main_image_type in *. rewrite Hty, Hdesc, Htw. exact Hmain.
Qed.

End Classification.

(** [untiled_le] is parsed with success and its IFD 0 satisfies the
    classification rule: it is UNKNOWN. *)
Lemma main_image_classification_witness :
  open_tiff_file (C := Reference.debug_build) 1 tiff_zero
    (Some Samples.untiled_le) = Done untiled_parsed
  /\ nth_error (ifds untiled_parsed) 0 = Some untiled_ifd
  /\ subimage_type untiled_ifd = main_image_type untiled_ifd.
Proof.
  assert (H : open_tiff_file (C := Reference.debug_build) 1 tiff_zero
                (Some Samples.untiled_le) = Done untiled_parsed)
    by (vm_compute; reflexivity).
  split; [exact H|]. split; [reflexivity|].
  apply (main_image_classification (C := Reference.debug_build) 1 tiff_zero
           (Some Samples.untiled_le) untiled_parsed untiled_ifd
           eq_refl eq_refl H).
  reflexivity.
Defined.

(** C7 as stated fails: [untiled_le] is parsed with success, its IFD 0 has
    no description beginning with "Macro" or "Label" (it has none at all)
    and no tile geometry, and it is classified UNKNOWN, not LEVEL. *)
Lemma main_image_not_always_level :
  open_tiff_file (C := Reference.debug_build) 1 tiff_zero
    (Some Samples.untiled_le) = Done untiled_parsed
  /\ nth_error (ifds untiled_parsed) 0 = Some untiled_ifd
  /\ image_description untiled_ifd = None
  /\ tile_width untiled_ifd = 0
  /\ subimage_type untiled_ifd = TIFF_UNKNOWN_SUBIMAGE
  /\ subimage_type untiled_ifd <> TIFF_LEVEL_SUBIMAGE.
Proof.
  split; [vm_compute; reflexivity|].
  repeat split; try reflexivity. discriminate.
Qed.

Section TileCounts.
Context {C : common_h}.

Lemma interpret_tags_app : forall be pre post fp ifd fp' ifd',
  interpret_tags be fp ifd pre = Done (fp', ifd') ->
  interpret_tags be fp ifd (pre ++ post) = interpret_tags be fp' ifd' post.
Proof.
  induction pre as [|tag pre IH]; intros post fp ifd fp' ifd' H;
    cbn [interpret_tags app] in *.
  - inversion H; subst. reflexivity.
  - destruct (interpret_tag be fp ifd tag) as [[fp1 ifd1]| | |];
      cbn [bind] in *; try discriminate H.
    apply IH. exact H.
Qed.

(** The TileByteCounts case of the tag switch when the count differs. *)
Lemma interpret_tile_byte_counts_mismatch : forall be fp ifd tag,
  code tag = TIFF_TAG_TILE_BYTE_COUNTS ->
  data_count tag <> tile_count ifd ->
  interpret_tag be fp ifd tag
  = if ASSERT_enabled && (data_count tag =? 0)
    then Aborted AssertionFailed else Failed.
Proof.
  intros be fp ifd tag Hcode Hne. unfold interpret_tag. rewrite Hcode.
  cbn [TIFF_TAG_TILE_BYTE_COUNTS Z.eqb Pos.eqb
       TIFF_TAG_NEW_SUBFILE_TYPE TIFF_TAG_IMAGE_WIDTH TIFF_TAG_IMAGE_LENGTH
       TIFF_TAG_BITS_PER_SAMPLE TIFF_TAG_COMPRESSION
       TIFF_TAG_PHOTOMETRIC_INTERPRETATION TIFF_TAG_IMAGE_DESCRIPTION
       TIFF_TAG_TILE_WIDTH TIFF_TAG_TILE_LENGTH TIFF_TAG_TILE_OFFSETS].
  apply Z.eqb_neq in Hne. rewrite Hne. cbn [negb].
  unfold ASSERT. rewrite negb_involutive.
  destruct (ASSERT_enabled && (data_count tag =? 0)); reflexivity.
Qed.

Lemma tiff_read_ifd_mismatch : forall tiff fp ifd off tags fp1 pre t post fp2 ifd2,
  read_ifd_tags tiff fp off = Done (tags, fp1) ->
  tags = pre ++ t :: post ->
  interpret_tags (is_big_endian tiff) fp1
    (set_color_space TIFF_PHOTOMETRIC_RGB ifd) pre = Done (fp2, ifd2) ->
  code t = TIFF_TAG_TILE_BYTE_COUNTS ->
  data_count t <> tile_count ifd2 ->
  tiff_read_ifd tiff fp ifd off
  = if ASSERT_enabled && (data_count t =? 0)
    then Aborted AssertionFailed else Failed.
Proof.
  intros tiff fp ifd off tags fp1 pre t post fp2 ifd2 Htags Hsplit Hpre Hcode Hne.
  unfold tiff_read_ifd. rewrite Htags. cbn [bind]. subst tags.
  rewrite (interpret_tags_app _ pre (t :: post) _ _ _ _ Hpre).
  cbn [interpret_tags].
  rewrite (interpret_tile_byte_counts_mismatch _ fp2 ifd2 t Hcode Hne).
  destruct (ASSERT_enabled && (data_count t =? 0)); reflexivity.
Qed.

(** A failure of [tiff_read_ifd] at a state that the IFD loop reaches is a
    failure of the loop, once the fuel covers the IFDs before it. *)
Lemma read_ifds_fails_at : forall s tiffk fpk offk,
  ifd_walk s (tiffk, fpk, offk) ->
  offk <> 0 ->
  tiff_read_ifd tiffk fpk (ifd_with_index (ifd_count tiffk)) offk = Failed ->
  exists n, forall fuel, (n <= fuel)%nat ->
    read_ifds fuel (fst (fst s)) (snd (fst s)) (snd s) = Failed.
Proof.
  intros s tiffk fpk offk Hwalk.
  remember (tiffk, fpk, offk) as sk eqn:Hsk. revert tiffk fpk offk Hsk.
  induction Hwalk as [s|tiff fp off tiff1 fp1 ifd1 next s Hoff Hread Hwalk IH];
    intros tiffk fpk offk Hsk Hk Hfail.
  - subst s. cbn [fst snd]. exists 1%nat. intros fuel Hfuel.
    destruct fuel as [|fuel]; [lia|]. cbn [read_ifds].
    apply Z.eqb_neq in Hk. rewrite Hk, Hfail. reflexivity.
  - destruct (IH tiffk fpk offk Hsk Hk Hfail) as [n Hn]. cbn [fst snd] in *.
    exists (S n). intros fuel Hfuel.
    destruct fuel as [|fuel]; [lia|]. cbn [read_ifds].
    apply Z.eqb_neq in Hoff. rewrite Hoff, Hread. cbn [bind].
    apply Hn. lia.
Qed.

(** C5, as amended: in an IFD that the reader reaches, a TileByteCounts tag
    whose count differs from the tile count that the tags before it have
    established makes [tiff_read_ifd] return failure, and with it
    [open_tiff_file] (for every fuel that covers the IFDs up to that one),
    when the count is not 0 or assertions are compiled out: the failure
    branch first asserts that the count is not 0. *)
Theorem tile_byte_counts_mismatch_fails :
  forall (tiff : tiff_t) (bytes : list Z) (s0 : tiff_t * FILE * Z)
         (tiffk : tiff_t) (fpk : FILE) (offk : Z)
         (tags : list tiff_tag_t) (fp1 : FILE)
         (pre : list tiff_tag_t) (t : tiff_tag_t) (post : list tiff_tag_t)
         (fp2 : FILE) (ifd2 : tiff_ifd_t),
    read_tiff_header tiff bytes = Done s0 ->
    ifd_walk s0 (tiffk, fpk, offk) ->
    offk <> 0 ->
    read_ifd_tags tiffk fpk offk = Done (tags, fp1) ->
    tags = pre ++ t :: post ->
    interpret_tags (is_big_endian tiffk) fp1
      (set_color_space TIFF_PHOTOMETRIC_RGB (ifd_with_index (ifd_count tiffk)))
      pre = Done (fp2, ifd2) ->
    code t = TIFF_TAG_TILE_BYTE_COUNTS ->
    data_count t <> tile_count ifd2 ->
    ASSERT_enabled = false \/ data_count t <> 0 ->
    tiff_read_ifd tiffk fpk (ifd_with_index (ifd_count tiffk)) offk = Failed
    /\ exists n, forall fuel, (n <= fuel)%nat ->
         open_tiff_file fuel tiff (Some bytes) = Failed.
Proof.
  intros tiff bytes s0 tiffk fpk offk tags fp1 pre t post fp2 ifd2
         Hhdr Hwalk Hoff Htags Hsplit Hpre Hcode Hne Hassert.
  assert (Hfail : tiff_read_ifd tiffk fpk (ifd_with_index (ifd_count tiffk)) offk
                  = Failed).
  { rewrite (tiff_read_ifd_mismatch tiffk fpk _ offk tags fp1 pre t post fp2 ifd2
               Htags Hsplit Hpre Hcode Hne).
    destruct Hassert as [Hoffa | Hnz].
    - rewrite Hoffa. reflexivity.
    - apply Z.eqb_neq in Hnz. rewrite Hnz, andb_false_r. reflexivity. }
  split; [exact Hfail|].
  destruct (read_ifds_fails_at s0 tiffk fpk offk Hwalk Hoff Hfail) as [n Hn].
  exists n. intros fuel Hfuel. unfold open_tiff_file. rewrite Hhdr.
  destruct s0 as [[tiff0 fp0] off0]. cbn [bind fst snd] in *.
  rewrite (Hn fuel Hfuel). reflexivity.
Qed.

(** The same mismatch never lets the reader succeed, assertion or not. *)
Lemma tile_byte_counts_mismatch_never_succeeds :
  forall tiff fp ifd off tags fp1 pre t post fp2 ifd2,
    read_ifd_tags tiff fp off = Done (tags, fp1) ->
    tags = pre ++ t :: post ->
    interpret_tags (is_big_endian tiff) fp1
      (set_color_space TIFF_PHOTOMETRIC_RGB ifd) pre = Done (fp2, ifd2) ->
    code t = TIFF_TAG_TILE_BYTE_COUNTS ->
    data_count t <> tile_count ifd2 ->
    succeeded (tiff_read_ifd tiff fp ifd off) = false.
Proof.
  intros. erewrite tiff_read_ifd_mismatch by eassumption.
  destruct (ASSERT_enabled && (data_count t =? 0)); reflexivity.
Qed.

End TileCounts.

(** [mismatch_le]: TileOffsets announces 2 tiles and TileByteCounts 1; the
    file is not opened. *)
Lemma tile_byte_counts_mismatch_fails_witness :
  exists n, forall fuel, (n <= fuel)%nat ->
    open_tiff_file (C := Reference.debug_build) fuel tiff_zero
      (Some Samples.mismatch_le) = Failed.
Proof.
  eapply proj2.
  eapply (tile_byte_counts_mismatch_fails (C := Reference.debug_build)
            tiff_zero Samples.mismatch_le).
  - vm_compute. reflexivity.
  - apply ifd_walk_here.
  - discriminate.
  - vm_compute. reflexivity.
  - instantiate (3 := [_]). cbn [app]. reflexivity.
  - vm_compute. reflexivity.
  - reflexivity.
  - vm_compute. discriminate.
  - right. vm_compute. discriminate.
Defined.

(** [zero_count_le]: TileOffsets announces 2 tiles and TileByteCounts 0.
    With assertions compiled in, the reader stops in the assertion of the
    failure branch and does not return; without them it returns failure. *)
Lemma tile_byte_counts_zero_asserts :
  open_tiff_file (C := Reference.debug_build) 1 tiff_zero
    (Some Samples.zero_count_le) = Aborted AssertionFailed
  /\ open_tiff_file (C := Reference.debug_build) 1 tiff_zero
       (Some Samples.zero_count_le) <> Failed
  /\ open_tiff_file (C := Reference.release_build) 1 tiff_zero
       (Some Samples.zero_count_le) = Failed.
Proof.
  split; [vm_compute; reflexivity|].
  split; [vm_compute; discriminate|vm_compute; reflexivity].
Qed.

(* ================================================================== *)
(** * Properties of the block codec: the reading side *)

Section Deserialize.
Context {C : common_h} {T : tiff_h} {L : lz4_h}.

Lemma i32_small : forall x, - 2^31 <= x < 2^31 -> i32 x = x.
Proof. intros x H. unfold i32. rewrite Z.mod_small; lia. Qed.

Lemma i64_small : forall x, - 2^63 <= x < 2^63 -> i64 x = x.
Proof. intros x H. unfold i64. rewrite Z.mod_small; lia. Qed.

Lemma i32_range : forall x, - 2^31 <= i32 x < 2^31.
Proof.
  intro x. unfold i32.
  pose proof (Z.mod_pos_bound (x + 2^31) (2^32) ltac:(lia)). lia.
Qed.

Lemma i64_range : forall x, - 2^63 <= i64 x < 2^63.
Proof.
  intro x. unfold i64.
  pose proof (Z.mod_pos_bound (x + 2^63) (2^64) ltac:(lia)). lia.
Qed.

Lemma le_decode_range : forall bs, 0 <= le_decode bs < 256 ^ Z.of_nat (length bs).
Proof.
  induction bs as [|b r IH]; cbn [le_decode length].
  - cbn. lia.
  - rewrite Nat2Z.inj_succ, Z.pow_succ_r by lia.
    pose proof (Z.mod_pos_bound b 256 ltac:(lia)). lia.
Qed.

(** C6, as amended: when the first block behind the HTTP headers is
    LZ4_COMPRESSED_DATA, its payload is in the buffer, and the decompression
    returns a positive byte count that differs from the [index] field of the
    block, [tiff_deserialize] returns failure: the block that it then checks
    for HEADER_AND_META is still the LZ4 block.  (For the runs in which the
    two size assertions, if compiled in, hold.) *)
Theorem lz4_size_mismatch_fails :
  forall (fuel : nat) (buffer : list Z) (block : serial_block_t) (c c' : cursor)
         (data : Z) (src : list Z) (n : Z) (out : list Z),
    tiff_h_ok T ->
    pop_first_block buffer = Done (block, c) ->
    block_type block = block_code SERIAL_BLOCK_LZ4_COMPRESSED_DATA ->
    ASSERT_enabled = false
      \/ (length_ block < INT32_MAX /\ index block < INT32_MAX) ->
    POP_DATA c (i32 (length_ block)) = Done (data, c') ->
    read_bytes (cur_mem c') data (i32 (length_ block)) = Done src ->
    LZ4_decompress_safe src (i32 (length_ block)) (i32 (index block)) = (n, out) ->
    0 < i32 n ->
    i32 n <> i32 (index block) ->
    tiff_deserialize fuel buffer = Failed.
Proof.
  intros fuel buffer block c c' data src n out Tok Hfirst Hty Hassert Hpop Hread
         Hlz Hpos Hne.
  unfold tiff_deserialize, deserialize_first_block. rewrite Hfirst. cbn [bind].
  unfold unwrap_lz4. rewrite Hty, Z.eqb_refl.
  assert (HA1 : ASSERT (length_ block <? INT32_MAX) = Done tt).
  { unfold ASSERT. destruct Hassert as [Hoff | [H1 _]].
    - rewrite Hoff. reflexivity.
    - apply Z.ltb_lt in H1. rewrite H1, andb_false_r. reflexivity. }
  assert (HA2 : ASSERT (index block <? INT32_MAX) = Done tt).
  { unfold ASSERT. destruct Hassert as [Hoff | [_ H2]].
    - rewrite Hoff. reflexivity.
    - apply Z.ltb_lt in H2. rewrite H2, andb_false_r. reflexivity. }
  rewrite HA1, HA2. cbn [bind]. rewrite Hpop. cbn [bind]. rewrite Hread.
  cbn [bind]. rewrite Hlz.
  assert (Hgt : (i32 n >? 0) = true) by (apply Z.gtb_lt; lia).
  rewrite Hgt. apply Z.eqb_neq in Hne. rewrite Hne. cbn [negb bind].
  unfold deserialize_header_and_ifds. rewrite Hty.
  assert (Hcode : (block_code SERIAL_BLOCK_LZ4_COMPRESSED_DATA
                   =? block_code SERIAL_BLOCK_TIFF_HEADER_AND_META) = false).
  { apply Z.eqb_neq. intro E. apply (block_code_inj T Tok) in E. discriminate E. }
  rewrite Hcode. reflexivity.
Qed.

(** ** Cursors that stay inside their buffer *)

Lemma POP_DATA_sane : forall c size p c' bs,
  sane c ->
  POP_DATA c size = Done (p, c') ->
  read_bytes (cur_mem c') p size = Done bs ->
  sane c'.
Proof.
  intros c size p c' bs [Hpos [Hle Hlen]] Hpop Hread.
  unfold POP_DATA, pop_from_buffer in Hpop.
  destruct (i64 size >? cur_left c) eqn:E; [discriminate Hpop|].
  inversion Hpop; subst p c'. clear Hpop. cbn [cur_mem] in Hread.
  unfold read_bytes in Hread.
  assert (E' : i64 size <= cur_left c).
  { destruct (Z.gtb_spec (i64 size) (cur_left c)); [discriminate E|lia]. }
  assert (Hsz : i64 size = size /\ 0 <= size).
  { destruct (size =? 0) eqn:E0.
    - apply Z.eqb_eq in E0. subst size. split; [reflexivity|lia].
    - destruct ((cur_pos c <? 0) || (size <? 0)
                || (Z.of_nat (length (cur_mem c)) <? cur_pos c + size)) eqn:E1;
        [discriminate Hread|].
      apply orb_false_elim in E1. destruct E1 as [E1 E3].
      apply orb_false_elim in E1. destruct E1 as [E1 E2].
      apply Z.ltb_ge in E2, E3. split; [apply i64_small; lia|lia]. }
  destruct Hsz as [Hsz Hnn]. rewrite Hsz in *.
  unfold sane. cbn [cur_pos cur_left cur_mem].
  rewrite i64_small by lia. lia.
Qed.

Lemma POP_DATA_zero_sane : forall c p c',
  sane c -> POP_DATA c 0 = Done (p, c') -> sane c'.
Proof.
  intros c p c' Hs Hpop. eapply POP_DATA_sane; [exact Hs|exact Hpop|reflexivity].
Qed.

Lemma POP_BLOCK_sane : forall c,
  sane c ->
  POP_BLOCK c = Failed
  \/ exists b c', POP_BLOCK c = Done (b, c') /\ sane c'.
Proof.
  intros c [Hpos [Hle Hlen]]. unfold POP_BLOCK, pop_from_buffer.
  unfold sizeof_serial_block_t.
  destruct (16 >? cur_left c) eqn:E; [left; reflexivity|right].
  assert (E' : 16 <= cur_left c).
  { destruct (Z.gtb_spec 16 (cur_left c)); [discriminate E|lia]. }
  unfold read_bytes. change (16 =? 0) with false. cbv iota.
  assert (E1 : ((cur_pos c <? 0) || (16 <? 0)
                || (Z.of_nat (length (cur_mem c)) <? cur_pos c + 16)) = false).
  { apply orb_false_intro; [apply orb_false_intro|].
    - apply Z.ltb_ge. lia.
    - reflexivity.
    - apply Z.ltb_ge. lia. }
  rewrite E1. cbn [bind]. eexists. eexists. split; [reflexivity|].
  unfold sane. cbn [cur_pos cur_left cur_mem]. rewrite i64_small by lia. lia.
Qed.

Lemma POP_BLOCK_sane_done : forall c b c',
  sane c -> POP_BLOCK c = Done (b, c') -> sane c'.
Proof.
  intros c b c' Hs H. destruct (POP_BLOCK_sane c Hs) as [F | [b0 [c0 [E S]]]].
  - rewrite F in H. discriminate H.
  - rewrite E in H. inversion H; subst. exact S.
Qed.

Lemma find_crlfcrlf_bound : forall str n offset,
  0 <= offset ->
  0 <= find_crlfcrlf str offset n <= offset + Z.of_nat n + 3.
Proof.
  induction n as [|n IH]; intros offset Hoff; cbn [find_crlfcrlf].
  - lia.
  - destruct (load 4 str offset =? le_decode [13; 10; 13; 10]).
    + lia.
    + specialize (IH (offset + 1) ltac:(lia)). lia.
Qed.

Lemma pop_first_block_sane : forall buffer block c,
  Z.of_nat (length buffer) < 2^63 ->
  pop_first_block buffer = Done (block, c) ->
  sane c.
Proof.
  intros buffer block c Hlen H. unfold pop_first_block in H.
  unfold find_end_of_http_headers in H.
  destruct (Z.of_nat (length buffer) <? 4) eqn:E4; [discriminate H|].
  apply Z.ltb_ge in E4. cbn [bind] in H.
  pose proof (find_crlfcrlf_bound buffer
                (Z.to_nat (Z.of_nat (length buffer) - 4)) 0 ltac:(lia)) as Hb.
  set (off := find_crlfcrlf buffer 0 (Z.to_nat (Z.of_nat (length buffer) - 4))) in *.
  unfold POP_DATA, pop_from_buffer in H. cbn [cur_left cur_pos cur_mem] in H.
  rewrite (i64_small off) in H by lia.
  rewrite (i64_small (Z.of_nat (length buffer))) in H by lia.
  destruct (off >? Z.of_nat (length buffer)); [discriminate H|].
  cbn [bind] in H.
  eapply POP_BLOCK_sane_done; [|exact H].
  unfold sane. cbn [cur_pos cur_left cur_mem]. rewrite i64_small by lia. lia.
Qed.

Lemma unwrap_lz4_sane : forall block c block' c',
  lz4_ok L ->
  sane c ->
  unwrap_lz4 block c = Done (block', c') ->
  sane c'.
Proof.
  intros block c block' c' Lok Hs H. unfold unwrap_lz4 in H.
  destruct (block_type block =? _); [|inversion H; subst; exact Hs].
  destruct (ASSERT (length_ block <? INT32_MAX)); cbn [bind] in H; try discriminate H.
  destruct (ASSERT (index block <? INT32_MAX)); cbn [bind] in H; try discriminate H.
  destruct (POP_DATA c (i32 (length_ block))) as [[p c1]| | |] eqn:Ep;
    cbn [bind] in H; try discriminate H.
  destruct (read_bytes (cur_mem c1) p (i32 (length_ block))) as [src| | |] eqn:Er;
    cbn [bind] in H; try discriminate H.
  pose proof (POP_DATA_sane _ _ _ _ _ Hs Ep Er) as Hs1.
  destruct (LZ4_decompress_safe src _ _) as [n out] eqn:El.
  destruct (i32 n >? 0) eqn:Egt; [|inversion H; subst; exact Hs1].
  destruct (negb (i32 n =? i32 (index block))); [inversion H; subst; exact Hs1|].
  eapply POP_BLOCK_sane_done; [|exact H].
  pose proof (LZ4_decompress_wrote L Lok _ _ _ _ _ El) as Hw.
  assert (0 < i32 n) by (apply Z.gtb_lt; exact Egt).
  specialize (Hw H0). pose proof (i32_range n).
  unfold sane. cbn [cur_pos cur_left cur_mem]. lia.
Qed.

Lemma deserialize_header_and_ifds_sane : forall block c tiff c',
  sane c ->
  deserialize_header_and_ifds block c = Done (tiff, c') ->
  sane c'.
Proof.
  intros block c tiff c' Hs H. unfold deserialize_header_and_ifds in H.
  destruct (negb (block_type block =? _)); [discriminate H|].
  destruct (POP_DATA c sizeof_tiff_serial_header_t) as [[p c1]| | |] eqn:Ep;
    cbn [bind] in H; try discriminate H.
  destruct (read_bytes (cur_mem c1) p sizeof_tiff_serial_header_t) as [bs| | |] eqn:Er;
    cbn [bind] in H; try discriminate H.
  pose proof (POP_DATA_sane _ _ _ _ _ Hs Ep Er) as Hs1.
  destruct (POP_BLOCK c1) as [[b2 c2]| | |] eqn:Eb; cbn [bind] in H; try discriminate H.
  pose proof (POP_BLOCK_sane_done _ _ _ Hs1 Eb) as Hs2.
  destruct (negb (block_type b2 =? _)); [discriminate H|].
  destruct (negb (length_ b2 =? _)); [discriminate H|].
  match type of H with
  | bind (POP_DATA c2 ?sz) _ = _ =>
      destruct (POP_DATA c2 sz) as [[p3 c3]| | |] eqn:Ep3;
        cbn [bind] in H; try discriminate H
  end.
  destruct (negb _ || _); [discriminate H|].
  match type of H with
  | bind (read_bytes ?m ?p ?n) _ = _ =>
      destruct (read_bytes m p n) as [bs3| | |] eqn:Er3;
        cbn [bind] in H; try discriminate H
  end.
  inversion H; subst. eapply POP_DATA_sane; eassumption.
Qed.

Lemma POP_BLOCK_fields : forall c b c',
  POP_BLOCK c = Done (b, c') ->
  0 <= block_type b /\ 0 <= index b /\ 0 <= length_ b.
Proof.
  intros c b c' H. unfold POP_BLOCK in H.
  destruct (pop_from_buffer c sizeof_serial_block_t) as [[p c1]|]; [|discriminate H].
  destruct (read_bytes (cur_mem c) p sizeof_serial_block_t) as [bs| | |];
    cbn [bind] in H; try discriminate H.
  inversion H; subst. unfold block_of_bytes, load. cbn [block_type index length_].
  repeat split; apply le_decode_range.
Qed.

Lemma deserialize_blocks_zero_ifds : forall fuel tiff c,
  sane c -> ifd_count tiff = 0 ->
  deserialize_blocks (S fuel) tiff c = Failed.
Proof.
  intros fuel tiff c Hs Hz. cbn [deserialize_blocks].
  destruct (POP_BLOCK_sane c Hs) as [F | [b [c1 [E S1]]]].
  - rewrite F. reflexivity.
  - rewrite E. cbn [bind].
    pose proof (POP_BLOCK_fields _ _ _ E) as [_ [Hidx _]].
    assert (Hge : (index b >=? ifd_count tiff) = true).
    { rewrite Hz. apply Z.geb_le. exact Hidx. }
    destruct (length_ b >? 0).
    + unfold POP_DATA. destruct (pop_from_buffer c1 (i64 (length_ b))) as [[p c2]|];
        cbn [bind]; [|reflexivity].
      rewrite Hge. reflexivity.
    + cbn [bind]. rewrite Hge. reflexivity.
Qed.

(** Every buffer whose HEADER_AND_META record carries [ifd_count] 0 is
    refused: the first block of the payload loop, whatever it is, fails the
    check of its index against [ifd_count]. *)
Lemma tiff_deserialize_zero_ifds : forall fuel buffer block c tiff c',
  lz4_ok L ->
  Z.of_nat (length buffer) < 2^63 ->
  deserialize_first_block buffer = Done (block, c) ->
  deserialize_header_and_ifds block c = Done (tiff, c') ->
  ifd_count tiff = 0 ->
  tiff_deserialize (S fuel) buffer = Failed.
Proof.
  intros fuel buffer block c tiff c' Lok Hlen H1 H2 Hz.
  unfold tiff_deserialize. rewrite H1. cbn [bind]. rewrite H2. cbn [bind].
  apply deserialize_blocks_zero_ifds; [|exact Hz].
  eapply deserialize_header_and_ifds_sane; [|exact H2].
  unfold deserialize_first_block in H1.
  destruct (pop_first_block buffer) as [[b0 c0]| | |] eqn:E0;
    cbn [bind] in H1; try discriminate H1.
  eapply unwrap_lz4_sane; [exact Lok| |exact H1].
  eapply pop_first_block_sane; eassumption.
Qed.

End Deserialize.

(* ================================================================== *)
(** * Bytes, slices and blocks *)

Lemma take_app_exact : forall (A : Type) (a b : list A),
  take (a ++ b) (Z.of_nat (length a)) = a.
Proof.
  intros. rewrite take_firstn, Nat2Z.id.
  rewrite firstn_app, Nat.sub_diag, firstn_all. cbn. apply app_nil_r.
Qed.

Lemma drop_app_exact : forall (A : Type) (a b : list A),
  drop (a ++ b) (Z.of_nat (length a)) = b.
Proof.
  intros. rewrite drop_skipn, Nat2Z.id.
  rewrite skipn_app, Nat.sub_diag, skipn_all. reflexivity.
Qed.

Lemma take_all : forall (A : Type) (l : list A) (n : Z),
  Z.of_nat (length l) <= n -> take l n = l.
Proof. intros. rewrite take_firstn. apply firstn_all2. lia. Qed.

Lemma take_length : forall (A : Type) (l : list A) (n : Z),
  0 <= n <= Z.of_nat (length l) -> Z.of_nat (length (take l n)) = n.
Proof. intros. rewrite take_firstn, length_firstn. lia. Qed.

Lemma take_nonpos : forall (A : Type) (l : list A) (n : Z),
  n <= 0 -> take l n = [].
Proof.
  intros. rewrite take_firstn. replace (Z.to_nat n) with 0%nat by lia. reflexivity.
Qed.

Lemma slice_app_middle : forall a b c,
  slice (a ++ b ++ c) (Z.of_nat (length a)) (Z.of_nat (length b)) = b.
Proof.
  intros. unfold slice. rewrite drop_app_exact. apply take_app_exact.
Qed.

Lemma slice_at_zero : forall b c,
  slice (b ++ c) 0 (Z.of_nat (length b)) = b.
Proof. intros. apply (slice_app_middle [] b c). Qed.

Lemma le_encode_length : forall n v, length (le_encode n v) = n.
Proof. induction n; intro v; cbn [le_encode length]; [reflexivity|]. f_equal. apply IHn. Qed.

Lemma le_decode_encode : forall n v,
  le_decode (le_encode n v) = v mod 256 ^ Z.of_nat n.
Proof.
  induction n as [|n IH]; intro v; cbn [le_encode le_decode].
  - rewrite Z.pow_0_r, Z.mod_1_r. reflexivity.
  - rewrite IH, Nat2Z.inj_succ, Z.pow_succ_r by lia.
    rewrite Z.mod_mod by lia.
    rewrite Z.rem_mul_r by (try apply Z.pow_pos_nonneg; lia). reflexivity.
Qed.

Lemma load_encode_at : forall n a v c,
  load (Z.of_nat n) (a ++ le_encode n v ++ c) (Z.of_nat (length a))
  = v mod 256 ^ Z.of_nat n.
Proof.
  intros. unfold load.
  pose proof (slice_app_middle a (le_encode n v) c) as H.
  rewrite le_encode_length in H. rewrite H. apply le_decode_encode.
Qed.

Lemma block_bytes_length : forall b, length (block_bytes b) = 16%nat.
Proof.
  intro b. unfold block_bytes. rewrite !length_app, !le_encode_length. reflexivity.
Qed.

Lemma block_of_bytes_block_bytes : forall b,
  block_in_range b -> block_of_bytes (block_bytes b) = b.
Proof.
  intros [t i l] [Ht [Hi Hl]]. cbn [block_type index length_] in *.
  unfold block_of_bytes, block_bytes. cbn [block_type index length_].
  f_equal.
  - transitivity (t mod 256 ^ Z.of_nat 4).
    + exact (load_encode_at 4 [] t (le_encode 4 i ++ le_encode 8 l)).
    + change (256 ^ Z.of_nat 4) with (2^32). apply Z.mod_small. lia.
  - transitivity (i mod 256 ^ Z.of_nat 4).
    + exact (load_encode_at 4 (le_encode 4 t) i (le_encode 8 l)).
    + change (256 ^ Z.of_nat 4) with (2^32). apply Z.mod_small. lia.
  - transitivity (l mod 256 ^ Z.of_nat 8).
    + pose proof (load_encode_at 8 (le_encode 4 t ++ le_encode 4 i) l []) as H.
      rewrite app_nil_r, <- app_assoc in H. exact H.
    + change (256 ^ Z.of_nat 8) with (2^64). apply Z.mod_small. lia.
Qed.

Lemma u32_small : forall x, 0 <= x < 2^32 -> u32 x = x.
Proof. intros. apply Z.mod_small. lia. Qed.

Lemma u64_small : forall x, 0 <= x < 2^64 -> u64 x = x.
Proof. intros. apply Z.mod_small. lia. Qed.

(* ================================================================== *)
(** * The writing side: what a successful [tiff_serialize] has pushed *)

Section Serialize.
Context {C : common_h} {T : tiff_h} {L : lz4_h}.

Lemma push_size_inv : forall b src size b',
  push_size b src size = Done b' ->
  raw_memory b' = raw_memory b
  /\ capacity b' = capacity b
  /\ pb_data b' = pb_data b ++ take src size
  /\ size <= Z.of_nat (length src).
Proof.
  intros b src size b' H. unfold push_size in H.
  destruct (u64 (used_size b + size) >? capacity b); [discriminate H|].
  destruct (Z.of_nat (length src) <? size) eqn:E; [discriminate H|].
  apply Z.ltb_ge in E. inversion H; subst. cbn. auto.
Qed.

Lemma push_size_room : forall b src size b',
  push_size b src size = Done b' ->
  u64 (used_size b + size) <= capacity b.
Proof.
  intros b src size b' H. unfold push_size in H.
  destruct (Z.gtb_spec (u64 (used_size b + size)) (capacity b)); [discriminate H|lia].
Qed.

Lemma push_block_inv : forall b t i l b',
  push_block b t i l = Done b' ->
  raw_memory b' = raw_memory b
  /\ capacity b' = capacity b
  /\ pb_data b' = pb_data b ++ block_bytes (mk_block (u32 t) (u32 i) (u64 l)).
Proof.
  intros b t i l b' H. unfold push_block in H.
  apply push_size_inv in H. destruct H as [H1 [H2 [H3 _]]].
  rewrite take_all in H3 by (rewrite block_bytes_length; unfold sizeof_serial_block_t; lia).
  auto.
Qed.

Lemma push_ifd_blocks_inv : forall tok : tiff_h_ok T, forall b i ifd b',
  0 <= i < 2^32 ->
  ifd_sizes_ok ifd ->
  push_ifd_blocks b i ifd = Done b' ->
  raw_memory b' = raw_memory b
  /\ capacity b' = capacity b
  /\ pb_data b' = pb_data b ++ ifd_stream i ifd
  /\ ifd_objects_ok ifd.
Proof.
  intros tok b i ifd b' Hi [Hd [Hj Ht]] H. unfold push_ifd_blocks in H.
  repeat match type of H with
         | bind ?m _ = Done _ =>
             let E := fresh "E" in
             destruct m as [?b| | |] eqn:E; cbn [bind] in H; try discriminate H
         end.
  repeat match goal with
         | E : push_block _ _ _ _ = Done _ |- _ => apply push_block_inv in E;
             destruct E as [? [? ?]]
         | E : push_size _ _ _ = Done _ |- _ => apply push_size_inv in E;
             destruct E as [? [? [? ?]]]
         end.
  rewrite (u64_small (tile_count ifd * 8)) in * by lia.
  repeat split; try congruence; try assumption.
  unfold ifd_stream.
  pose proof (block_code_range T tok SERIAL_BLOCK_TIFF_IMAGE_DESCRIPTION).
  pose proof (block_code_range T tok SERIAL_BLOCK_TIFF_TILE_OFFSETS).
  pose proof (block_code_range T tok SERIAL_BLOCK_TIFF_TILE_BYTE_COUNTS).
  pose proof (block_code_range T tok SERIAL_BLOCK_TIFF_JPEG_TABLES).
  repeat match goal with
         | E : pb_data _ = _ |- _ => rewrite E; clear E
         end.
  rewrite !u32_small by lia. rewrite !u64_small by lia.
  rewrite <- !app_assoc. reflexivity.
Qed.

Lemma push_all_ifd_blocks_inv : forall tok : tiff_h_ok T, forall l b i b',
  0 <= i -> i + Z.of_nat (length l) <= 2^32 ->
  Forall ifd_sizes_ok l ->
  push_all_ifd_blocks b i l = Done b' ->
  raw_memory b' = raw_memory b
  /\ capacity b' = capacity b
  /\ pb_data b' = pb_data b ++ ifd_streams i l
  /\ Forall ifd_objects_ok l.
Proof.
  intros tok. induction l as [|ifd rest IH]; intros b i b' Hi Hlen Hs H;
    cbn [push_all_ifd_blocks ifd_streams] in *.
  - inversion H; subst. rewrite app_nil_r. auto.
  - inversion Hs as [|? ? Hs1 Hs2]; subst.
    cbn [length] in Hlen.
    destruct (push_ifd_blocks b i ifd) as [b1| | |] eqn:E; cbn [bind] in H;
      try discriminate H.
    apply (push_ifd_blocks_inv tok) in E; [|lia|assumption].
    destruct E as [E1 [E2 [E3 E4]]].
    apply IH in H; [|lia|lia|assumption].
    destruct H as [H1 [H2 [H3 H4]]].
    repeat split; try congruence.
    + rewrite H3, E3, <- app_assoc. reflexivity.
    + constructor; assumption.
Qed.

End Serialize.

(* ================================================================== *)
(** * The HTTP headers *)

Lemma drop_tl : forall (A : Type) (l : list A) (n : Z),
  0 <= n -> drop l (n + 1) = tl (drop l n).
Proof.
  intros A l n Hn. rewrite !drop_skipn.
  replace (Z.to_nat (n + 1)) with (S (Z.to_nat n)) by lia.
  generalize (Z.to_nat n). clear. intro k. revert l.
  induction k as [|k IH]; intro l.
  - destruct l; reflexivity.
  - destruct l as [|x r]; [reflexivity|]. cbn [skipn]. rewrite <- IH. reflexivity.
Qed.

Lemma find_crlfcrlf_scan : forall n str offset,
  0 <= offset ->
  find_crlfcrlf str offset n = scan (drop str offset) offset n.
Proof.
  induction n as [|n IH]; intros str offset Hoff; cbn [find_crlfcrlf scan].
  - reflexivity.
  - unfold load, slice.
    destruct (le_decode (take (drop str offset) 4) =? le_decode [13; 10; 13; 10]).
    + reflexivity.
    + rewrite IH by lia. rewrite drop_tl by lia. reflexivity.
Qed.

Lemma take_cons_pos : forall (A : Type) (x : A) (l : list A) (n : Z),
  0 < n -> take (x :: l) n = x :: take l (n - 1).
Proof.
  intros A x l n Hn. cbn [take].
  destruct (Z.leb_spec n 0); [lia|reflexivity].
Qed.

Lemma crlfcrlf_value : le_decode [13; 10; 13; 10] = 13 + 256 * (10 + 256 * (13 + 256 * 10)).
Proof. reflexivity. Qed.

Lemma scan_S : forall l off k,
  scan l off (S k)
  = if le_decode (take l 4) =? le_decode [13; 10; 13; 10] then off + 4
    else scan (tl l) (off + 1) k.
Proof. reflexivity. Qed.

Lemma scan_plain_head : forall x tail off n,
  plain x = true ->
  scan (x :: tail) off (S n) = scan tail (off + 1) n.
Proof.
  intros x tail off n Hx. cbn [scan tl].
  assert (E : (le_decode (take (x :: tail) 4) =? le_decode [13; 10; 13; 10]) = false).
  { apply Z.eqb_neq. rewrite take_cons_pos by lia. rewrite crlfcrlf_value.
    cbn [le_decode].
    unfold plain in Hx. apply andb_true_iff in Hx. destruct Hx as [Hx _].
    apply negb_true_iff, Z.eqb_neq in Hx.
    pose proof (Z.mod_pos_bound x 256 ltac:(lia)).
    generalize dependent (x mod 256). intros u Hu Hb.
    generalize (le_decode (take tail (4 - 1))). intro v. lia. }
  rewrite E. reflexivity.
Qed.

Lemma scan_plain : forall l tail off n,
  Forall (fun c => plain c = true) l ->
  scan (l ++ tail) off (length l + n) = scan tail (off + Z.of_nat (length l)) n.
Proof.
  induction l as [|x r IH]; intros tail off n Hl; cbn [app length Nat.add].
  - f_equal. cbn. lia.
  - inversion Hl; subst. rewrite scan_plain_head by assumption.
    rewrite IH by assumption. f_equal. lia.
Qed.

Lemma scan_crlf : forall x tail off n,
  plain x = true ->
  scan (13 :: 10 :: x :: tail) off (S (S n)) = scan (x :: tail) (off + 2) n.
Proof.
  intros x tail off n Hx.
  assert (E : (le_decode (take (13 :: 10 :: x :: tail) 4)
               =? le_decode [13; 10; 13; 10]) = false).
  { apply Z.eqb_neq. rewrite !take_cons_pos by lia. rewrite crlfcrlf_value.
    cbn [le_decode].
    unfold plain in Hx. apply andb_true_iff in Hx. destruct Hx as [Hx _].
    apply negb_true_iff, Z.eqb_neq in Hx.
    pose proof (Z.mod_pos_bound x 256 ltac:(lia)).
    change (13 mod 256) with 13. change (10 mod 256) with 10.
    generalize dependent (x mod 256). intros u Hu Hb.
    generalize (le_decode (take tail (4 - 1 - 1 - 1))). intro v. lia. }
  rewrite scan_S, E. cbn [tl].
  rewrite (scan_plain_head 10 (x :: tail)) by reflexivity.
  f_equal. lia.
Qed.

Lemma scan_match : forall tail off n,
  scan (13 :: 10 :: 13 :: 10 :: tail) off (S n) = off + 4.
Proof.
  intros. rewrite scan_S. rewrite !take_cons_pos by lia.
  rewrite (take_nonpos _ tail) by lia. rewrite Z.eqb_refl. reflexivity.
Qed.

Lemma forallb_plain : forall l,
  forallb plain l = true -> Forall (fun c => plain c = true) l.
Proof. intros l H. apply Forall_forall. apply forallb_forall. exact H. Qed.

Lemma decimal_digits_plain : forall fuel n acc,
  Forall (fun c => plain c = true) acc ->
  Forall (fun c => plain c = true) (decimal_digits fuel n acc).
Proof.
  induction fuel as [|fuel IH]; intros n acc Hacc; cbn [decimal_digits].
  - exact Hacc.
  - assert (Hd : plain (48 + n mod 10) = true).
    { pose proof (Z.mod_pos_bound n 10 ltac:(lia)) as Hb.
      unfold plain. apply andb_true_iff. split; apply negb_true_iff, Z.eqb_neq.
      - rewrite Z.mod_small by lia. lia.
      - lia. }
    destruct (n / 10 =? 0).
    + constructor; assumption.
    + apply IH. constructor; assumption.
Qed.

Lemma print_llu_left16_plain : forall n,
  Forall (fun c => plain c = true) (print_llu_left16 n).
Proof.
  intro n. unfold print_llu_left16, print_llu. apply Forall_app. split.
  - apply decimal_digits_plain. constructor.
  - apply Forall_forall. intros c Hc. apply repeat_spec in Hc. subst c. reflexivity.
Qed.

Lemma strlen_plain : forall l,
  Forall (fun c => plain c = true) l -> strlen l = Z.of_nat (length l).
Proof.
  induction l as [|c r IH]; intro H; cbn [strlen length].
  - reflexivity.
  - inversion H as [|? ? Hc Hr]; subst.
    unfold plain in Hc. apply andb_true_iff in Hc. destruct Hc as [_ Hc].
    apply negb_true_iff in Hc. rewrite Hc, IH by assumption. lia.
Qed.

Lemma strlen_app_zero_free : forall l tail,
  Forall (fun c => c <> 0) l -> strlen (l ++ tail) = Z.of_nat (length l) + strlen tail.
Proof.
  induction l as [|c r IH]; intros tail H; cbn [strlen length app].
  - lia.
  - inversion H as [|? ? Hc Hr]; subst. apply Z.eqb_neq in Hc. rewrite Hc.
    rewrite IH by assumption. lia.
Qed.

Lemma plain_nonzero : forall l,
  Forall (fun c => plain c = true) l -> Forall (fun c => c <> 0) l.
Proof.
  intros l H. eapply Forall_impl; [|exact H]. cbv beta. intros c Hc.
  unfold plain in Hc. apply andb_true_iff in Hc. destruct Hc as [_ Hc].
  apply negb_true_iff, Z.eqb_neq in Hc. exact Hc.
Qed.

(** The headers are a string without NUL, and the first CR LF CR LF in them
    is their end. *)
Lemma http_headers_zero_free : forall n, Forall (fun c => c <> 0) (http_headers n).
Proof.
  intro n. unfold http_headers, CRLF.
  do 9 (apply Forall_app; split;
        [ first [ apply plain_nonzero, print_llu_left16_plain
                | apply plain_nonzero, forallb_plain; reflexivity
                | repeat constructor; discriminate ] | ]).
  repeat constructor; discriminate.
Qed.

Lemma http_headers_strlen : forall n,
  strlen (http_headers n) = Z.of_nat (length (http_headers n)).
Proof.
  intro n.
  pose proof (strlen_app_zero_free (http_headers n) [] (http_headers_zero_free n)) as H.
  rewrite app_nil_r in H. cbn [strlen] in H. lia.
Qed.

Lemma scan_line : forall line tail off n,
  line <> [] ->
  Forall (fun c => plain c = true) line ->
  scan (13 :: 10 :: line ++ tail) off (S (S (length line + n)))
  = scan tail (off + 2 + Z.of_nat (length line)) n.
Proof.
  intros line tail off n Hne Hp. destruct line as [|x r]; [congruence|].
  inversion Hp; subst. cbn [app]. rewrite scan_crlf by assumption.
  change (x :: r ++ tail) with ((x :: r) ++ tail).
  rewrite scan_plain by assumption. reflexivity.
Qed.

Lemma http_headers_length : forall n,
  length (http_headers n) = (92 + length (print_llu_left16 n) + 4)%nat.
Proof.
  intro n. unfold http_headers, CRLF. rewrite !length_app. cbn [length].
  change (length (bytes_of_string "HTTP/1.1 200 OK")) with 15%nat.
  change (length (bytes_of_string "Connection: close")) with 17%nat.
  change (length (bytes_of_string "Content-type: application/octet-stream")) with 38%nat.
  change (length (bytes_of_string "Content-length: ")) with 16%nat. lia.
Qed.

Lemma http_headers_end : forall n rest m,
  rest <> [] ->
  m = Z.to_nat (Z.of_nat (length (http_headers n ++ rest)) - 4) ->
  find_crlfcrlf (http_headers n ++ rest) 0 m = Z.of_nat (length (http_headers n)).
Proof.
  intros n rest m Hrest Hm.
  rewrite find_crlfcrlf_scan by lia.
  assert (Hd0 : drop (http_headers n ++ rest) 0 = http_headers n ++ rest)
    by (destruct (http_headers n ++ rest); reflexivity).
  rewrite Hd0. clear Hd0.
  pose proof (print_llu_left16_plain n) as Hf.
  pose proof (http_headers_length n) as Hlen.
  rewrite length_app, Hlen in Hm. rewrite Hlen. clear Hlen.
  unfold http_headers, CRLF.
  set (field := print_llu_left16 n) in *.
  set (s1 := bytes_of_string "HTTP/1.1 200 OK").
  set (s2 := bytes_of_string "Connection: close").
  set (s3 := bytes_of_string "Content-type: application/octet-stream").
  set (s4 := bytes_of_string "Content-length: ").
  assert (L1 : length s1 = 15%nat) by reflexivity.
  assert (L2 : length s2 = 17%nat) by reflexivity.
  assert (L3 : length s3 = 38%nat) by reflexivity.
  assert (L4 : length s4 = 16%nat) by reflexivity.
  assert (P1 : Forall (fun c => plain c = true) s1) by (apply forallb_plain; reflexivity).
  assert (P2 : Forall (fun c => plain c = true) s2) by (apply forallb_plain; reflexivity).
  assert (P3 : Forall (fun c => plain c = true) s3) by (apply forallb_plain; reflexivity).
  assert (P4 : Forall (fun c => plain c = true) (s4 ++ field)).
  { apply Forall_app. split; [apply forallb_plain; reflexivity|exact Hf]. }
  assert (N2 : s2 <> []) by discriminate.
  assert (N3 : s3 <> []) by discriminate.
  assert (N4 : s4 ++ field <> []) by discriminate.
  assert (Hm' : m = (length s1 + S (S (length s2 + S (S (length s3
                       + S (S (length (s4 ++ field) + S (length rest - 1))))))))%nat).
  { rewrite length_app. destruct rest; [congruence|]. cbn [length] in *. lia. }
  rewrite Hm'. clear Hm Hm'.
  rewrite <- !app_assoc.
  rewrite scan_plain by exact P1.
  cbn [app]. rewrite scan_line by assumption.
  rewrite scan_line by assumption.
  rewrite (app_assoc s4 field).
  rewrite scan_line by assumption.
  rewrite scan_match. rewrite length_app. lia.
Qed.

Section SerializeClosedForm.
Context {C : common_h} {T : tiff_h} {L : lz4_h}.
Variable tok : tiff_h_ok T.

Lemma sizeof_header_nonneg : 0 <= sizeof_tiff_serial_header_t.
Proof.
  rewrite <- (serial_header_size T tok (serial_header_of tiff_zero)). lia.
Qed.

Lemma sizeof_ifd_nonneg : 0 <= sizeof_tiff_serial_ifd_t.
Proof.
  rewrite <- (serial_ifd_size T tok (serial_ifd_of ifd_zero)). lia.
Qed.

Lemma ifd_payload_nonneg : forall ifd,
  ifd_well_formed ifd -> 0 <= ifd_payload_size ifd.
Proof.
  intros ifd [H1 [H2 [H3 _]]]. unfold ifd_payload_size. lia.
Qed.

Lemma sum_payload_nonneg : forall l,
  Forall ifd_well_formed l -> 0 <= fold_right Z.add 0 (map ifd_payload_size l).
Proof.
  induction l as [|a r IH]; intro H; cbn [map fold_right]; [lia|].
  inversion H as [|? ? Ha Hr]; subst.
  pose proof (ifd_payload_nonneg a Ha). specialize (IH Hr). lia.
Qed.

Lemma sizes_from_sum : forall l bound,
  Forall ifd_well_formed l ->
  fold_right Z.add 0 (map ifd_payload_size l) < bound ->
  bound <= 2^31 ->
  Forall ifd_sizes_ok l.
Proof.
  induction l as [|a r IH]; intros bound H Hsum Hb; [constructor|].
  inversion H as [|? ? Ha Hr]; subst. cbn [map fold_right] in Hsum.
  pose proof (sum_payload_nonneg r Hr). pose proof (ifd_payload_nonneg a Ha).
  constructor.
  - destruct Ha as [Hd [Hj [Ht _]]]. unfold ifd_payload_size in *.
    unfold ifd_sizes_ok. lia.
  - apply (IH bound); [assumption|lia|assumption].
Qed.

Lemma flat_map_length_const : forall (A : Type) (f : A -> list Z) (s : Z) (l : list A),
  (forall a, Z.of_nat (length (f a)) = s) ->
  Z.of_nat (length (flat_map f l)) = Z.of_nat (length l) * s.
Proof.
  intros A f s l Hf. induction l as [|a r IH]; cbn [flat_map length].
  - lia.
  - rewrite length_app, Nat2Z.inj_add, IH, Hf. lia.
Qed.

Lemma ifd_stream_length : forall i ifd,
  ifd_sizes_ok ifd -> ifd_objects_ok ifd ->
  Z.of_nat (length (ifd_stream i ifd)) = 64 + ifd_payload_size ifd.
Proof.
  intros i ifd [Hd [Hj Ht]] [Od [Oj [Oo Oc]]]. unfold ifd_stream, ifd_payload_size.
  rewrite !length_app, !block_bytes_length, !Nat2Z.inj_add.
  rewrite !take_length by lia. lia.
Qed.

Lemma ifd_streams_length : forall l i,
  Forall ifd_sizes_ok l -> Forall ifd_objects_ok l ->
  Z.of_nat (length (ifd_streams i l))
  = 64 * Z.of_nat (length l) + fold_right Z.add 0 (map ifd_payload_size l).
Proof.
  induction l as [|a r IH]; intros i Hs Ho; cbn [ifd_streams length map fold_right].
  - lia.
  - inversion Hs; subst. inversion Ho; subst.
    rewrite length_app, Nat2Z.inj_add, ifd_stream_length, IH by assumption. lia.
Qed.

Lemma take_ifds : forall tiff,
  tiff_well_formed tiff -> take (ifds tiff) (ifd_count tiff) = ifds tiff.
Proof. intros tiff [H _]. apply take_all. lia. Qed.

Lemma fit_facts : forall tiff,
  sizes_fit tiff ->
  0 <= ifd_count tiff < 2^31
  /\ 0 <= ifd_count tiff * sizeof_tiff_serial_ifd_t < 2^31
  /\ 0 <= sizeof_tiff_serial_header_t < 2^31
  /\ Forall ifd_sizes_ok (ifds tiff)
  /\ 0 <= total_size_sum tiff.
Proof.
  intros tiff [Hwf Htot]. pose proof (take_ifds tiff Hwf) as Htake.
  destruct Hwf as [Hlen [Hall Hhdr]].
  unfold total_size_sum in *. rewrite Htake in *.
  pose proof sizeof_header_nonneg. pose proof sizeof_ifd_nonneg.
  pose proof (sum_payload_nonneg _ Hall).
  unfold sizeof_serial_block_t, INT32_MAX in *.
  assert (0 <= ifd_count tiff) by lia.
  assert (0 <= ifd_count tiff * sizeof_tiff_serial_ifd_t) by nia.
  repeat split; try lia.
  apply (sizes_from_sum _ (2^31)); [assumption|lia|lia].
Qed.

Lemma block_stream_length : forall tiff,
  sizes_fit tiff ->
  Forall ifd_objects_ok (ifds tiff) ->
  Z.of_nat (length (block_stream tiff)) = total_size_sum tiff.
Proof.
  intros tiff Hfit Ho. pose proof (fit_facts tiff Hfit) as [Hn [Hns [Hh [Hs _]]]].
  destruct Hfit as [Hwf Htot]. pose proof (take_ifds tiff Hwf) as Htake.
  destruct Hwf as [Hlen _].
  unfold block_stream, total_size_sum. rewrite Htake.
  rewrite !length_app, !block_bytes_length, !Nat2Z.inj_add.
  rewrite (serial_header_size T tok).
  rewrite (flat_map_length_const _ _ sizeof_tiff_serial_ifd_t)
    by (intro a; apply (serial_ifd_size T tok)).
  rewrite ifd_streams_length by assumption.
  unfold sizeof_serial_block_t. lia.
Qed.

Lemma serial_total_size_exact : forall tiff,
  sizes_fit tiff -> serial_total_size tiff = total_size_sum tiff.
Proof.
  intros tiff Hfit. pose proof (fit_facts tiff Hfit) as [_ [_ [_ [_ H0]]]].
  destruct Hfit as [_ Htot]. unfold serial_total_size, INT32_MAX in *.
  apply u64_small. lia.
Qed.

Lemma take_strlen_headers : forall n,
  take (http_headers n) (strlen (http_headers n)) = http_headers n.
Proof. intro n. rewrite http_headers_strlen. apply take_all. lia. Qed.

(** The first half of [tiff_serialize], when it returns, has written the
    headers and exactly the block stream. *)
Lemma push_all_blocks_inv : forall tiff b,
  sizes_fit tiff ->
  push_all_blocks tiff = Done b ->
  raw_memory b = http_headers (total_size_sum tiff)
  /\ capacity b = total_size_sum tiff
  /\ pb_data b = block_stream tiff
  /\ Forall ifd_objects_ok (ifds tiff).
Proof.
  intros tiff b Hfit H.
  pose proof (fit_facts tiff Hfit) as [Hn [Hns [Hh [Hs H0]]]].
  pose proof (serial_total_size_exact tiff Hfit) as Htot.
  pose proof (take_ifds tiff (fit_wf tiff Hfit)) as Htake.
  destruct (fit_wf tiff Hfit) as [Hlen _].
  unfold push_all_blocks in H.
  destruct (_ || _); [discriminate H|].
  rewrite Htake, Htot, take_strlen_headers in H.
  repeat match type of H with
         | bind ?m _ = Done _ =>
             let E := fresh "E" in
             destruct m as [?b| | |] eqn:E; cbn [bind] in H; try discriminate H
         end.
  apply push_block_inv in H. destruct H as [R6 [C6 D6]].
  apply (push_all_ifd_blocks_inv tok) in E3; [|lia|lia|assumption].
  destruct E3 as [R5 [C5 [D5 Ho]]].
  apply push_size_inv in E2. destruct E2 as [R4 [C4 [D4 S4]]].
  apply push_block_inv in E1. destruct E1 as [R3 [C3 D3]].
  apply push_size_inv in E0. destruct E0 as [R2 [C2 [D2 S2]]].
  apply push_block_inv in E. destruct E as [R1 [C1 D1]].
  cbn [raw_memory capacity pb_data] in *.
  repeat split; try congruence; try assumption.
  rewrite D6, D5, D4, D3, D2, D1. cbn [app].
  pose proof (block_code_range T tok SERIAL_BLOCK_TIFF_HEADER_AND_META).
  pose proof (block_code_range T tok SERIAL_BLOCK_TIFF_IFDS).
  pose proof (block_code_range T tok SERIAL_BLOCK_TERMINATOR).
  rewrite !u32_small by lia.
  rewrite (u64_small (ifd_count tiff * sizeof_tiff_serial_ifd_t)) by lia.
  rewrite !u64_small by (unfold sizeof_serial_block_t; lia).
  rewrite (take_all _ (serial_header_bytes (serial_header_of tiff)))
    by (rewrite (serial_header_size T tok); lia).
  rewrite (take_all _ (flat_map _ (ifds tiff))).
  2:{ rewrite (flat_map_length_const _ _ sizeof_tiff_serial_ifd_t)
        by (intro a; apply (serial_ifd_size T tok)). lia. }
  unfold block_stream. rewrite <- !app_assoc. reflexivity.
Qed.

End SerializeClosedForm.

Section SerializeOutcome.
Context {C : common_h} {T : tiff_h} {L : lz4_h}.
Variable tok : tiff_h_ok T.

Lemma Done_inj : forall (A : Type) (a b : A), Done a = Done b -> a = b.
Proof. intros A a b H. inversion H. reflexivity. Qed.

Lemma store_whole : forall h, store h 0 h = h.
Proof.
  intro h. unfold store. rewrite take_nonpos by lia. cbn [app].
  rewrite drop_skipn. replace (Z.to_nat (0 + Z.of_nat (length h))) with (length h) by lia.
  rewrite skipn_all. apply app_nil_r.
Qed.

(** What a successful [tiff_serialize] returns: the headers printed from
    [total_size], and behind them either the block stream or, after a
    successful compression, one LZ4_COMPRESSED_DATA block with the compressed
    stream. *)
Lemma tiff_serialize_inv : forall tiff b,
  sizes_fit tiff ->
  tiff_serialize tiff = Done b ->
  raw_memory b = http_headers (total_size_sum tiff)
  /\ Forall ifd_objects_ok (ifds tiff)
  /\ (i32 (fst (LZ4_compress_default (block_stream tiff) (total_size_sum tiff)
                  (i32 (LZ4_COMPRESSBOUND (total_size_sum tiff))))) <= 0
      /\ pb_data b = block_stream tiff
      \/ exists n cbuf,
           LZ4_compress_default (block_stream tiff) (total_size_sum tiff)
             (i32 (LZ4_COMPRESSBOUND (total_size_sum tiff))) = (n, cbuf)
           /\ 0 < i32 n
           /\ i32 n <= Z.of_nat (length cbuf)
           /\ 16 + i32 n <= total_size_sum tiff
           /\ pb_data b
              = block_bytes (mk_block (block_code SERIAL_BLOCK_LZ4_COMPRESSED_DATA)
                               (total_size_sum tiff) (i32 n))
                ++ take cbuf (i32 n)).
Proof.
  intros tiff b Hfit H. unfold tiff_serialize in H.
  destruct (push_all_blocks tiff) as [b0| | |] eqn:E0; cbn [bind] in H;
    try discriminate H.
  destruct (push_all_blocks_inv tok tiff b0 Hfit E0) as [R0 [C0 [D0 Ho]]].
  pose proof (block_stream_length tok tiff Hfit Ho) as Hlen.
  pose proof (serial_total_size_exact tok tiff Hfit) as Htot.
  pose proof (fit_facts tok tiff Hfit) as [_ [_ [_ [_ Hnn]]]].
  pose proof (fit_total tiff Hfit) as Hmax. unfold INT32_MAX in Hmax.
  unfold compress_blocks in H. rewrite Htot in H.
  assert (Hused : used_size b0 = total_size_sum tiff).
  { unfold used_size. rewrite D0. exact Hlen. }
  rewrite Hused in H.
  destruct (ASSERT (total_size_sum tiff =? total_size_sum tiff));
    cbn [bind] in H; try discriminate H.
  rewrite (i32_small (total_size_sum tiff)) in H by lia.
  rewrite D0 in H.
  destruct (LZ4_compress_default (block_stream tiff) (total_size_sum tiff)
              (i32 (LZ4_COMPRESSBOUND (total_size_sum tiff)))) as [n cbuf] eqn:El.
  destruct (i32 n >? 0) eqn:Egt.
  - apply Z.gtb_lt in Egt.
    destruct (push_block _ _ _ _) as [b1| | |] eqn:E1; cbn [bind] in H;
      try discriminate H.
    destruct (push_size b1 cbuf (i32 n)) as [b2| | |] eqn:E2; cbn [bind] in H;
      try discriminate H.
    destruct (ASSERT _); cbn [bind] in H; try discriminate H.
    apply Done_inj in H. subst b. cbn [raw_memory pb_data].
    pose proof (push_size_room _ _ _ _ E2) as Hroom.
    apply push_size_inv in E2. destruct E2 as [R2 [C2 [D2 S2]]].
    apply push_block_inv in E1. destruct E1 as [R1 [C1 D1]].
    cbn [raw_memory capacity pb_data] in *.
    split.
    { rewrite R2, R1, R0, take_strlen_headers. apply store_whole. }
    split; [exact Ho|]. right. exists n, cbuf.
    split; [reflexivity|]. split; [lia|]. split; [exact S2|].
    split.
    { unfold used_size in Hroom. rewrite D1 in Hroom. cbn [app] in Hroom.
      rewrite block_bytes_length in Hroom. change (Z.of_nat 16) with 16 in Hroom.
      pose proof (i32_range n). rewrite u64_small in Hroom by lia. lia. }
    rewrite D2, D1. cbn [app].
    pose proof (block_code_range T tok SERIAL_BLOCK_LZ4_COMPRESSED_DATA).
    pose proof (i32_range n).
    rewrite !u32_small by lia. rewrite u64_small by lia. reflexivity.
  - apply Done_inj in H. subst b.
    split; [exact R0|]. split; [exact Ho|]. left.
    split; [|exact D0]. cbn [fst].
    destruct (Z.gtb_spec (i32 n) 0) as [Hgt|Hle]; [discriminate Egt|exact Hle].
Qed.

End SerializeOutcome.

(* ================================================================== *)
(** * The reading side on a well-formed stream *)

Section CursorOn.
Context {C : common_h} {T : tiff_h} {L : lz4_h}.

Lemma POP_DATA_on : forall done bs rest,
  Z.of_nat (length (bs ++ rest)) < 2^63 ->
  POP_DATA (cursor_on done (bs ++ rest)) (Z.of_nat (length bs))
  = Done (Z.of_nat (length done), cursor_on (done ++ bs) rest).
Proof.
  intros done bs rest Hlen. rewrite length_app in Hlen.
  unfold POP_DATA, pop_from_buffer, cursor_on. cbn [cur_left cur_pos cur_mem].
  rewrite i64_small by lia.
  destruct (Z.gtb_spec (Z.of_nat (length bs)) (Z.of_nat (length (bs ++ rest)))) as [Hgt|Hle].
  - rewrite length_app in Hgt. lia.
  - f_equal. f_equal. rewrite !length_app, app_assoc. f_equal.
    + lia.
    + rewrite i64_small by lia. lia.
Qed.

Lemma read_bytes_on : forall done bs rest,
  read_bytes ((done ++ bs) ++ rest) (Z.of_nat (length done)) (Z.of_nat (length bs))
  = Done bs.
Proof.
  intros done bs rest. unfold read_bytes.
  destruct (Z.of_nat (length bs) =? 0) eqn:E0.
  - apply Z.eqb_eq in E0. destruct bs; [reflexivity|cbn [length] in E0; lia].
  - assert (E : ((Z.of_nat (length done) <? 0) || (Z.of_nat (length bs) <? 0)
                 || (Z.of_nat (length ((done ++ bs) ++ rest))
                     <? Z.of_nat (length done) + Z.of_nat (length bs))) = false).
    { rewrite !length_app. apply orb_false_intro; [apply orb_false_intro|];
        apply Z.ltb_ge; lia. }
    rewrite E. rewrite <- app_assoc, slice_app_middle. reflexivity.
Qed.

Lemma POP_BLOCK_on : forall done blk rest,
  block_in_range blk ->
  Z.of_nat (length (block_bytes blk ++ rest)) < 2^63 ->
  POP_BLOCK (cursor_on done (block_bytes blk ++ rest))
  = Done (blk, cursor_on (done ++ block_bytes blk) rest).
Proof.
  intros done blk rest Hr Hlen. unfold POP_BLOCK.
  pose proof (POP_DATA_on done (block_bytes blk) rest Hlen) as Hp.
  unfold POP_DATA in Hp. rewrite block_bytes_length in Hp.
  change (Z.of_nat 16) with 16 in Hp. rewrite (i64_small 16) in Hp by lia.
  unfold sizeof_serial_block_t.
  destruct (pop_from_buffer (cursor_on done (block_bytes blk ++ rest)) 16)
    as [[p c1]|]; [|discriminate Hp].
  inversion Hp; subst p c1. clear Hp.
  unfold cursor_on at 1. cbn [cur_mem].
  pose proof (read_bytes_on done (block_bytes blk) rest) as Hrd.
  rewrite block_bytes_length, <- app_assoc in Hrd. change (Z.of_nat 16) with 16 in Hrd.
  rewrite Hrd. cbn [bind]. rewrite block_of_bytes_block_bytes by assumption.
  reflexivity.
Qed.

Lemma pop_first_block_on : forall n blk rest,
  block_in_range blk ->
  Z.of_nat (length (http_headers n ++ block_bytes blk ++ rest)) < 2^63 ->
  pop_first_block (http_headers n ++ block_bytes blk ++ rest)
  = Done (blk, cursor_on (http_headers n ++ block_bytes blk) rest).
Proof.
  intros n blk rest Hr Hlen. unfold pop_first_block, find_end_of_http_headers.
  assert (Hnz : block_bytes blk ++ rest <> []).
  { intro E. apply (f_equal (@length Z)) in E.
    rewrite length_app, block_bytes_length in E. discriminate E. }
  assert (H4 : (Z.of_nat (length (http_headers n ++ block_bytes blk ++ rest)) <? 4)
               = false).
  { apply Z.ltb_ge. rewrite !length_app, block_bytes_length. lia. }
  rewrite H4. cbn [bind].
  rewrite (http_headers_end n (block_bytes blk ++ rest) _ Hnz eq_refl).
  rewrite (i64_small (Z.of_nat (length (http_headers n ++ block_bytes blk ++ rest))))
    by lia.
  change (mk_cursor (http_headers n ++ block_bytes blk ++ rest) 0
            (Z.of_nat (length (http_headers n ++ block_bytes blk ++ rest))))
    with (cursor_on [] (http_headers n ++ block_bytes blk ++ rest)).
  rewrite POP_DATA_on by exact Hlen. cbn [bind app].
  apply POP_BLOCK_on; [exact Hr|].
  rewrite length_app in Hlen. lia.
Qed.

End CursorOn.

Section Arrays.





Lemma Forall_take : forall (A : Type) (P : A -> Prop) (l : list A) (n : Z),
  Forall P l -> Forall P (take l n).
Proof.
  intros A P l n H. revert n.
  induction H as [|x r Hx Hr IH]; intro n; cbn [take]; [constructor|].
  destruct (n <=? 0); constructor; [exact Hx|apply IH].
Qed.


End Arrays.

Section HeaderAndIfds.
Context {C : common_h} {T : tiff_h} {L : lz4_h}.
Variable tok : tiff_h_ok T.

Lemma ifds_of_serial_elements : forall l pre k,
  Forall ifd_well_formed l ->
  Z.of_nat (length pre) = Z.of_nat k * sizeof_tiff_serial_ifd_t ->
  map (fun i => ifd_of_serial (Z.of_nat i)
                  (serial_ifd_of_bytes
                     (slice (pre ++ flat_map (fun ifd => serial_ifd_bytes (serial_ifd_of ifd)) l)
                            (Z.of_nat i * sizeof_tiff_serial_ifd_t)
                            sizeof_tiff_serial_ifd_t)))
      (seq k (length l))
  = skeleton_ifds (Z.of_nat k) l.
Proof.
  induction l as [|a r IH]; intros pre k Hl Hpre;
    cbn [length seq map flat_map skeleton_ifds].
  - reflexivity.
  - inversion Hl as [|? ? Ha Hr]; subst. f_equal.
    + rewrite <- Hpre.
      pose proof (slice_app_middle pre (serial_ifd_bytes (serial_ifd_of a))
                    (flat_map (fun ifd => serial_ifd_bytes (serial_ifd_of ifd)) r)) as S.
      rewrite (serial_ifd_size T tok) in S. rewrite S.
      rewrite (serial_ifd_round_trip T tok); [reflexivity|].
      destruct Ha as [_ [_ [_ [_ [_ Ha]]]]]. exact Ha.
    + rewrite app_assoc.
      replace (Z.of_nat k + 1) with (Z.of_nat (S k)) by lia.
      apply IH; [exact Hr|].
      rewrite length_app, Nat2Z.inj_add, (serial_ifd_size T tok). lia.
Qed.

Lemma deserialize_header_and_ifds_on : forall tiff done rest,
  sizes_fit tiff ->
  Z.of_nat (length (serial_header_bytes (serial_header_of tiff)
                    ++ block_bytes (mk_block (block_code SERIAL_BLOCK_TIFF_IFDS) 0
                                      (ifd_count tiff * sizeof_tiff_serial_ifd_t))
                    ++ flat_map (fun ifd => serial_ifd_bytes (serial_ifd_of ifd))
                         (ifds tiff)
                    ++ rest)) < 2^63 ->
  deserialize_header_and_ifds
    (mk_block (block_code SERIAL_BLOCK_TIFF_HEADER_AND_META) 0 sizeof_serial_block_t)
    (cursor_on done
       (serial_header_bytes (serial_header_of tiff)
        ++ block_bytes (mk_block (block_code SERIAL_BLOCK_TIFF_IFDS) 0
                          (ifd_count tiff * sizeof_tiff_serial_ifd_t))
        ++ flat_map (fun ifd => serial_ifd_bytes (serial_ifd_of ifd)) (ifds tiff)
        ++ rest))
  = Done (skeleton_tiff tiff,
          cursor_on
            (((done ++ serial_header_bytes (serial_header_of tiff))
              ++ block_bytes (mk_block (block_code SERIAL_BLOCK_TIFF_IFDS) 0
                                (ifd_count tiff * sizeof_tiff_serial_ifd_t)))
             ++ flat_map (fun ifd => serial_ifd_bytes (serial_ifd_of ifd)) (ifds tiff))
            rest).
Proof.
  intros tiff done rest Hfit Hlen.
  pose proof (fit_facts tok tiff Hfit) as [Hn [Hns [Hh [Hs H0]]]].
  destruct (fit_wf tiff Hfit) as [Hcount [Hall Hhdr]].
  set (hb := serial_header_bytes (serial_header_of tiff)) in *.
  set (IB := mk_block (block_code SERIAL_BLOCK_TIFF_IFDS) 0
               (ifd_count tiff * sizeof_tiff_serial_ifd_t)) in *.
  set (si := flat_map (fun ifd => serial_ifd_bytes (serial_ifd_of ifd)) (ifds tiff)) in *.
  assert (Lhb : Z.of_nat (length hb) = sizeof_tiff_serial_header_t)
    by apply (serial_header_size T tok).
  assert (Lsi : Z.of_nat (length si) = ifd_count tiff * sizeof_tiff_serial_ifd_t).
  { unfold si. rewrite (flat_map_length_const _ _ sizeof_tiff_serial_ifd_t)
      by (intro a; apply (serial_ifd_size T tok)). lia. }
  rewrite !length_app in Hlen.
  unfold deserialize_header_and_ifds. cbn [block_type]. rewrite Z.eqb_refl. cbn [negb].
  rewrite <- Lhb. rewrite POP_DATA_on by (rewrite !length_app; lia). cbn [bind].
  unfold cursor_on at 1. cbn [cur_mem]. rewrite read_bytes_on. cbn [bind].
  assert (Hrt : serial_header_of_bytes hb = serial_header_of tiff)
    by apply (serial_header_round_trip T tok _ Hhdr).
  rewrite Hrt.
  assert (RIB : block_in_range IB).
  { unfold block_in_range, IB. cbn [block_type index length_].
    pose proof (block_code_range T tok SERIAL_BLOCK_TIFF_IFDS). lia. }
  rewrite POP_BLOCK_on by (try exact RIB; rewrite !length_app; lia). cbn [bind].
  unfold IB at 1 2. cbn [block_type length_]. rewrite Z.eqb_refl. cbn [negb].
  change (ifd_count (tiff_of_serial_header (serial_header_of tiff)))
    with (ifd_count tiff).
  rewrite (u64_small (ifd_count tiff * sizeof_tiff_serial_ifd_t)) by lia.
  rewrite Z.eqb_refl. cbn [negb].
  rewrite <- Lsi. rewrite POP_DATA_on by (rewrite !length_app; lia). cbn [bind].
  assert (Emax : (INT32_MAX <? ifd_count tiff) = false)
    by (apply Z.ltb_ge; unfold INT32_MAX; lia).
  cbn [orb]. rewrite Emax.
  unfold cursor_on at 1. cbn [cur_mem]. rewrite read_bytes_on. cbn [bind].
  unfold skeleton_tiff. f_equal. f_equal. f_equal.
  rewrite <- Hcount, Nat2Z.id.
  unfold ifds_of_serial.
  exact (ifds_of_serial_elements (ifds tiff) [] 0 Hall eq_refl).
Qed.

End HeaderAndIfds.

Section BlockLoop.
Context {C : common_h} {T : tiff_h} {L : lz4_h}.
Variable tok : tiff_h_ok T.




Lemma code_eqb : forall a b,
  (block_code a =? block_code b) = true -> a = b.
Proof. intros a b H. apply Z.eqb_eq in H. apply (block_code_inj T tok). exact H. Qed.

Lemma code_neqb : forall a b, a <> b -> (block_code a =? block_code b) = false.
Proof.
  intros a b H. destruct (block_code a =? block_code b) eqn:E; [|reflexivity].
  apply code_eqb in E. contradiction.
Qed.







End BlockLoop.

Section WholeStream.
Context {C : common_h} {T : tiff_h} {L : lz4_h}.
Variable tok : tiff_h_ok T.




Lemma print_llu_length : forall fuel n acc,
  (length (decimal_digits fuel n acc) <= fuel + length acc)%nat.
Proof.
  induction fuel as [|fuel IH]; intros n acc; cbn [decimal_digits].
  - lia.
  - destruct (n / 10 =? 0).
    + cbn [length]. lia.
    + specialize (IH (n / 10) ((48 + n mod 10) :: acc)). cbn [length] in IH. lia.
Qed.

Lemma http_headers_short : forall n, (length (http_headers n) <= 116)%nat.
Proof.
  intro n. rewrite http_headers_length. unfold print_llu_left16, print_llu.
  rewrite length_app, repeat_length.
  pose proof (print_llu_length 20 (u64 n) []). cbn [length] in H. lia.
Qed.

Lemma block_stream_split : forall tiff,
  block_stream tiff = block_bytes header_block ++ stream_tail tiff.
Proof. reflexivity. Qed.

Lemma header_block_in_range : block_in_range header_block.
Proof.
  unfold block_in_range, header_block, sizeof_serial_block_t.
  cbn [block_type index length_].
  pose proof (block_code_range T tok SERIAL_BLOCK_TIFF_HEADER_AND_META). lia.
Qed.


End WholeStream.

(* ================================================================== *)
(** * The reference instance satisfies the contracts *)

Module ReferenceFacts.
Import Reference.

Lemma rle_encode_shape : forall l,
  l <> [] -> exists c y out, rle_encode l = c :: y :: out /\ 1 <= c.
Proof.
  induction l as [|x r IH]; intro Hne; [congruence|].
  cbn [rle_encode]. destruct r as [|x' r'].
  - cbn [rle_encode]. exists 1, x, []. split; [reflexivity|lia].
  - destruct IH as [c [y [out [E Hc]]]]; [discriminate|]. rewrite E.
    destruct ((x =? y) && (c <? 255)).
    + exists (c + 1), y, out. split; [reflexivity|lia].
    + exists 1, x, (c :: y :: out). split; [reflexivity|lia].
Qed.

Lemma rle_decode_encode : forall l, rle_decode (rle_encode l) = l.
Proof.
  induction l as [|x r IH]; [reflexivity|].
  cbn [rle_encode]. destruct r as [|x' r'].
  - reflexivity.
  - destruct (rle_encode_shape (x' :: r')) as [c [y [out [E Hc]]]]; [discriminate|].
    rewrite E in *. destruct ((x =? y) && (c <? 255)) eqn:Eb.
    + apply andb_true_iff in Eb. destruct Eb as [Ex _]. apply Z.eqb_eq in Ex. subst y.
      cbn [rle_decode] in *. rewrite <- IH.
      replace (Z.to_nat (c + 1)) with (S (Z.to_nat c)) by lia. reflexivity.
    + cbn [rle_decode] in *. rewrite <- IH. reflexivity.
Qed.

Lemma rle_ok : lz4_ok rle.
Proof.
  constructor.
  - intros src dstCapacity n out H Hpos. cbn [LZ4_compress_default LZ4_decompress_safe rle] in *.
    rewrite (take_all _ src) in H by lia.
    destruct ((Z.of_nat (length (rle_encode src)) <=? dstCapacity)
              && (Z.of_nat (length (rle_encode src)) <=? INT32_MAX)
              && (Z.of_nat (length src) <=? INT32_MAX)) eqn:E.
    + inversion H; subst n out. clear H.
      apply andb_true_iff in E. destruct E as [E E3].
      apply andb_true_iff in E. destruct E as [E1 E2].
      apply Z.leb_le in E2, E3. unfold INT32_MAX in *.
      rewrite i32_small by lia.
      rewrite (take_all _ (rle_encode src)) by lia.
      rewrite (take_all _ (rle_encode src)) by lia.
      rewrite rle_decode_encode.
      rewrite Z.leb_refl. cbn [andb].
      destruct (Z.leb_spec (Z.of_nat (length src)) (2 ^ 31 - 1)); [reflexivity|lia].
    + inversion H; subst n. cbn in Hpos. lia.
  - intros src compressedSize dstCapacity n out H Hpos.
    cbn [LZ4_decompress_safe rle] in H.
    destruct ((Z.of_nat (length (rle_decode (take src compressedSize))) <=? dstCapacity)
              && (Z.of_nat (length (rle_decode (take src compressedSize))) <=? INT32_MAX))
      eqn:E.
    + inversion H; subst n out. clear H.
      apply andb_true_iff in E. destruct E as [_ E2]. apply Z.leb_le in E2.
      unfold INT32_MAX in E2. apply i32_small. lia.
    + inversion H; subst n. cbn in Hpos. lia.
Qed.

Lemma stored_ok : lz4_ok stored.
Proof.
  constructor.
  - intros src dstCapacity n out H Hpos. cbn in H. inversion H; subst. cbn in Hpos. lia.
  - intros src compressedSize dstCapacity n out H Hpos. cbn in H.
    inversion H; subst. cbn in Hpos. lia.
Qed.

(** Fields of 8 bytes in a row. *)
Lemma field_of_chunks : forall chunks i,
  Forall (fun c => length c = 8%nat) chunks ->
  (i < length chunks)%nat ->
  field (concat chunks) (Z.of_nat i) = nth i chunks [].
Proof.
  induction chunks as [|c r IH]; intros i Hall Hi; cbn [length] in Hi; [lia|].
  inversion Hall as [|? ? Hc Hr]; subst. cbn [concat]. destruct i as [|i].
  - cbn [nth]. unfold field. change (8 * Z.of_nat 0) with (Z.of_nat 0).
    pose proof (slice_at_zero c (concat r)) as S. rewrite Hc in S. exact S.
  - cbn [nth]. rewrite <- IH by (try assumption; lia).
    unfold field, slice. f_equal.
    replace (8 * Z.of_nat (S i)) with (Z.of_nat (length c) + 8 * Z.of_nat i) by lia.
    rewrite !drop_skipn.
    replace (Z.to_nat (Z.of_nat (length c) + 8 * Z.of_nat i))
      with (Z.to_nat (8 * Z.of_nat i) + length c)%nat by lia.
    rewrite <- skipn_skipn. f_equal.
    rewrite skipn_app, skipn_all, Nat.sub_diag. reflexivity.
Qed.

Lemma field_at : forall chunks z i,
  Forall (fun c => length c = 8%nat) chunks ->
  z = Z.of_nat i ->
  (i < length chunks)%nat ->
  field (concat chunks) z = nth i chunks [].
Proof. intros chunks z i Hc Hz Hi. subst z. apply field_of_chunks; assumption. Qed.

Lemma float_bytes_length : forall f, length (float_bytes f) = 8%nat.
Proof. intros [s|s| |s m e]; apply le_encode_length. Qed.

Lemma word_round_trip : forall v, word v -> le_decode (le_encode 8 v) = v.
Proof.
  intros v Hv. rewrite le_decode_encode. change (256 ^ Z.of_nat 8) with (2^64).
  apply Z.mod_small. exact Hv.
Qed.

Lemma bool_round_trip : forall b,
  negb (le_decode (le_encode 8 (bool_code b)) =? 0) = b.
Proof. intros [|]; reflexivity. Qed.

Lemma subimage_round_trip : forall t,
  subimage_type_of_code (le_decode (le_encode 8 (subimage_type_code t))) = t.
Proof. intros [| | |]; reflexivity. Qed.

Lemma float_round_trip : forall f, float_ok f -> float_of_bytes (float_bytes f) = f.
Proof.
  intros [s|s| |s m e] Hf; try (destruct s; reflexivity); try reflexivity.
  cbn [float_ok] in Hf. destruct Hf as [Hm He].
  unfold float_of_bytes, float_bytes.
  set (v := 5 + (if s then 1 else 0) + 8 * (Z.pos m + 2 ^ 32 * (e + 2 ^ 15))).
  assert (Hv : 5 <= v < 2^64).
  { unfold v. destruct s; nia. }
  rewrite word_round_trip by (unfold word; lia).
  repeat match goal with
         | |- context [?a =? ?b] =>
             destruct (Z.eqb_spec a b); [lia|]
         end.
  assert (Hr : (v - 5) / 8 = Z.pos m + 2 ^ 32 * (e + 2 ^ 15)).
  { unfold v. destruct s.
    - replace (5 + 1 + 8 * (Z.pos m + 2 ^ 32 * (e + 2 ^ 15)) - 5)
        with (1 + (Z.pos m + 2 ^ 32 * (e + 2 ^ 15)) * 8) by lia.
      rewrite Z.div_add by lia. reflexivity.
    - replace (5 + 0 + 8 * (Z.pos m + 2 ^ 32 * (e + 2 ^ 15)) - 5)
        with (0 + (Z.pos m + 2 ^ 32 * (e + 2 ^ 15)) * 8) by lia.
      rewrite Z.div_add by lia. reflexivity. }
  rewrite Hr.
  assert (Hs : Z.odd (v - 5) = s).
  { unfold v. destruct s.
    - replace (5 + 1 + 8 * (Z.pos m + 2 ^ 32 * (e + 2 ^ 15)) - 5)
        with (1 + 2 * (4 * (Z.pos m + 2 ^ 32 * (e + 2 ^ 15)))) by lia.
      rewrite Z.odd_add_mul_2. reflexivity.
    - replace (5 + 0 + 8 * (Z.pos m + 2 ^ 32 * (e + 2 ^ 15)) - 5)
        with (0 + 2 * (4 * (Z.pos m + 2 ^ 32 * (e + 2 ^ 15)))) by lia.
      rewrite Z.odd_add_mul_2. reflexivity. }
  rewrite Hs.
  replace (Z.pos m + 2 ^ 32 * (e + 2 ^ 15)) with (Z.pos m + (e + 2 ^ 15) * 2 ^ 32) by lia.
  rewrite Z.mod_add, Z.div_add by lia.
  rewrite Z.mod_small, Z.div_small by lia.
  f_equal. lia.
Qed.

Lemma layout_ok : tiff_h_ok layout.
Proof.
  constructor.
  - intros a b H. destruct a, b; try reflexivity; cbn in H; discriminate H.
  - intros a. destruct a; cbn; lia.
  - intros h. cbn [serial_header_bytes sizeof_tiff_serial_header_t layout].
    unfold header_bytes. rewrite !length_app, !le_encode_length, !float_bytes_length.
    reflexivity.
  - intros h Hh. cbn [serial_header_representable layout] in Hh.
    cbn [serial_header_bytes serial_header_of_bytes layout].
    destruct h as [f0 f1 f2 f3 f4 f5 f6 f7 b8 b9 x10 x11].
    unfold header_ok in Hh. cbn [sh_filesize sh_ifd_count sh_main_image_index
      sh_macro_image_index sh_label_image_index sh_level_count
      sh_level_image_index sh_bytesize_of_offsets sh_mpp_x sh_mpp_y] in Hh.
    destruct Hh as [H0 [H1 [H2 [H3 [H4 [H5 [H6 [H7 [H10 H11]]]]]]]]].
    unfold header_of_bytes, header_bytes.
    cbn [sh_filesize sh_ifd_count sh_main_image_index
      sh_macro_image_index sh_label_image_index sh_level_count
      sh_level_image_index sh_bytesize_of_offsets sh_is_bigtiff sh_is_big_endian
      sh_mpp_x sh_mpp_y].
    set (chunks := [le_encode 8 f0; le_encode 8 f1; le_encode 8 f2; le_encode 8 f3;
                    le_encode 8 f4; le_encode 8 f5; le_encode 8 f6; le_encode 8 f7;
                    le_encode 8 (bool_code b8); le_encode 8 (bool_code b9);
                    float_bytes x10; float_bytes x11]).
    assert (Hc : Forall (fun c => length c = 8%nat) chunks).
    { unfold chunks. repeat constructor; first [apply le_encode_length | apply float_bytes_length]. }
    match goal with
    | |- context [field ?bs _] =>
        replace bs with (concat chunks)
          by (unfold chunks; cbn [concat]; rewrite app_nil_r; reflexivity)
    end.
    rewrite (field_at chunks 0 0%nat Hc eq_refl) by (unfold chunks; cbn [length]; lia).
    rewrite (field_at chunks 1 1%nat Hc eq_refl) by (unfold chunks; cbn [length]; lia).
    rewrite (field_at chunks 2 2%nat Hc eq_refl) by (unfold chunks; cbn [length]; lia).
    rewrite (field_at chunks 3 3%nat Hc eq_refl) by (unfold chunks; cbn [length]; lia).
    rewrite (field_at chunks 4 4%nat Hc eq_refl) by (unfold chunks; cbn [length]; lia).
    rewrite (field_at chunks 5 5%nat Hc eq_refl) by (unfold chunks; cbn [length]; lia).
    rewrite (field_at chunks 6 6%nat Hc eq_refl) by (unfold chunks; cbn [length]; lia).
    rewrite (field_at chunks 7 7%nat Hc eq_refl) by (unfold chunks; cbn [length]; lia).
    rewrite (field_at chunks 8 8%nat Hc eq_refl) by (unfold chunks; cbn [length]; lia).
    rewrite (field_at chunks 9 9%nat Hc eq_refl) by (unfold chunks; cbn [length]; lia).
    rewrite (field_at chunks 10 10%nat Hc eq_refl) by (unfold chunks; cbn [length]; lia).
    rewrite (field_at chunks 11 11%nat Hc eq_refl) by (unfold chunks; cbn [length]; lia).
    unfold chunks. cbn [nth].
    rewrite !word_round_trip, !bool_round_trip, !float_round_trip by assumption.
    reflexivity.
  - intros s. cbn [serial_ifd_bytes sizeof_tiff_serial_ifd_t layout].
    unfold ifd_bytes. rewrite !length_app, !le_encode_length, !float_bytes_length.
    reflexivity.
  - intros s Hs. cbn [serial_ifd_representable layout] in Hs.
    cbn [serial_ifd_bytes serial_ifd_of_bytes layout].
    destruct s as [f0 f1 f2 f3 f4 f5 f6 f7 f8 x9 f10 f11 x12 x13 x14 x15 f16 f17 t18].
    unfold ifd_ok in Hs. cbn [si_image_width si_image_height si_tile_width
      si_tile_height si_tile_count si_image_description_length
      si_jpeg_tables_length si_compression si_color_space si_level_magnification
      si_width_in_tiles si_height_in_tiles si_um_per_pixel_x si_um_per_pixel_y
      si_x_tile_side_in_um si_y_tile_side_in_um si_chroma_subsampling_horizontal
      si_chroma_subsampling_vertical] in Hs.
    destruct Hs as [H0 [H1 [H2 [H3 [H4 [H5 [H6 [H7 [H8 [H9 [H10 [H11 [H12 [H13
                     [H14 [H15 [H16 H17]]]]]]]]]]]]]]]]].
    unfold ifd_of_bytes, ifd_bytes.
    cbn [si_image_width si_image_height si_tile_width
      si_tile_height si_tile_count si_image_description_length
      si_jpeg_tables_length si_compression si_color_space si_level_magnification
      si_width_in_tiles si_height_in_tiles si_um_per_pixel_x si_um_per_pixel_y
      si_x_tile_side_in_um si_y_tile_side_in_um si_chroma_subsampling_horizontal
      si_chroma_subsampling_vertical si_subimage_type].
    set (chunks := [le_encode 8 f0; le_encode 8 f1; le_encode 8 f2; le_encode 8 f3;
                    le_encode 8 f4; le_encode 8 f5; le_encode 8 f6; le_encode 8 f7;
                    le_encode 8 f8; float_bytes x9; le_encode 8 f10; le_encode 8 f11;
                    float_bytes x12; float_bytes x13; float_bytes x14; float_bytes x15;
                    le_encode 8 f16; le_encode 8 f17;
                    le_encode 8 (subimage_type_code t18)]).
    assert (Hc : Forall (fun c => length c = 8%nat) chunks).
    { unfold chunks. repeat constructor; first [apply le_encode_length | apply float_bytes_length]. }
    match goal with
    | |- context [field ?bs _] =>
        replace bs with (concat chunks)
          by (unfold chunks; cbn [concat]; rewrite app_nil_r; reflexivity)
    end.
    rewrite (field_at chunks 0 0%nat Hc eq_refl) by (unfold chunks; cbn [length]; lia).
    rewrite (field_at chunks 1 1%nat Hc eq_refl) by (unfold chunks; cbn [length]; lia).
    rewrite (field_at chunks 2 2%nat Hc eq_refl) by (unfold chunks; cbn [length]; lia).
    rewrite (field_at chunks 3 3%nat Hc eq_refl) by (unfold chunks; cbn [length]; lia).
    rewrite (field_at chunks 4 4%nat Hc eq_refl) by (unfold chunks; cbn [length]; lia).
    rewrite (field_at chunks 5 5%nat Hc eq_refl) by (unfold chunks; cbn [length]; lia).
    rewrite (field_at chunks 6 6%nat Hc eq_refl) by (unfold chunks; cbn [length]; lia).
    rewrite (field_at chunks 7 7%nat Hc eq_refl) by (unfold chunks; cbn [length]; lia).
    rewrite (field_at chunks 8 8%nat Hc eq_refl) by (unfold chunks; cbn [length]; lia).
    rewrite (field_at chunks 9 9%nat Hc eq_refl) by (unfold chunks; cbn [length]; lia).
    rewrite (field_at chunks 10 10%nat Hc eq_refl) by (unfold chunks; cbn [length]; lia).
    rewrite (field_at chunks 11 11%nat Hc eq_refl) by (unfold chunks; cbn [length]; lia).
    rewrite (field_at chunks 12 12%nat Hc eq_refl) by (unfold chunks; cbn [length]; lia).
    rewrite (field_at chunks 13 13%nat Hc eq_refl) by (unfold chunks; cbn [length]; lia).
    rewrite (field_at chunks 14 14%nat Hc eq_refl) by (unfold chunks; cbn [length]; lia).
    rewrite (field_at chunks 15 15%nat Hc eq_refl) by (unfold chunks; cbn [length]; lia).
    rewrite (field_at chunks 16 16%nat Hc eq_refl) by (unfold chunks; cbn [length]; lia).
    rewrite (field_at chunks 17 17%nat Hc eq_refl) by (unfold chunks; cbn [length]; lia).
    rewrite (field_at chunks 18 18%nat Hc eq_refl) by (unfold chunks; cbn [length]; lia).
    unfold chunks. cbn [nth].
    rewrite !word_round_trip, !subimage_round_trip, !float_round_trip by assumption.
    reflexivity.
Qed.

End ReferenceFacts.

(* ================================================================== *)
(** * The round trip through [tiff_serialize] and [tiff_deserialize] *)

Section RoundTrip.
Context {C : common_h} {T : tiff_h} {L : lz4_h}.
Variable tok : tiff_h_ok T.
Variable lok : lz4_ok L.

(** The first block that [tiff_deserialize] looks at in a buffer made by
    [tiff_serialize] is HEADER_AND_META, with the rest of the block stream
    behind it: directly, or after the LZ4 layer is taken off. *)
Lemma deserialize_first_block_serialized : forall tiff b,
  sizes_fit tiff ->
  tiff_serialize tiff = Done b ->
  Forall ifd_objects_ok (ifds tiff)
  /\ exists done,
       (length done <= 132)%nat
       /\ deserialize_first_block (buffer_bytes b)
          = Done (header_block, cursor_on done (stream_tail tiff)).
Proof.
  intros tiff b Hfit H.
  destruct (tiff_serialize_inv tok tiff b Hfit H) as [Hraw [Ho Hdata]].
  split; [exact Ho|].
  pose proof (block_stream_length tok tiff Hfit Ho) as Hlen.
  pose proof (fit_total tiff Hfit) as Hmax. unfold INT32_MAX in Hmax.
  pose proof (fit_facts tok tiff Hfit) as [_ [_ [_ [_ Hnn]]]].
  pose proof (http_headers_short (total_size_sum tiff)) as Hh.
  pose proof (header_block_in_range tok) as Hhb.
  unfold buffer_bytes, deserialize_first_block. rewrite Hraw.
  destruct Hdata as [[_ Hd] | [n [cbuf [El [Hpos [Hcb [Hroom Hd]]]]]]]; rewrite Hd.
  - rewrite block_stream_split in *.
    rewrite pop_first_block_on; [ | exact Hhb | rewrite length_app; lia ].
    cbn [bind]. unfold unwrap_lz4, header_block at 1. cbn [block_type].
    rewrite (code_neqb tok SERIAL_BLOCK_TIFF_HEADER_AND_META
               SERIAL_BLOCK_LZ4_COMPRESSED_DATA) by discriminate.
    eexists. split; [|reflexivity].
    rewrite length_app, block_bytes_length. lia.
  - pose proof (i32_range n) as Hn.
    pose proof (block_code_range T tok SERIAL_BLOCK_LZ4_COMPRESSED_DATA) as Hc.
    assert (Htk : Z.of_nat (length (take cbuf (i32 n))) = i32 n)
      by (apply take_length; lia).
    rewrite pop_first_block_on;
      [ | unfold block_in_range; cbn [block_type index length_]; lia
        | rewrite !length_app, block_bytes_length; lia ].
    cbn [bind]. unfold unwrap_lz4. cbn [block_type index length_].
    rewrite Z.eqb_refl.
    assert (A1 : ASSERT (i32 n <? INT32_MAX) = Done tt).
    { unfold ASSERT, INT32_MAX. destruct (Z.ltb_spec (i32 n) (2 ^ 31 - 1)); [|lia].
      rewrite andb_false_r. reflexivity. }
    assert (A2 : ASSERT (total_size_sum tiff <? INT32_MAX) = Done tt).
    { unfold ASSERT, INT32_MAX.
      destruct (Z.ltb_spec (total_size_sum tiff) (2 ^ 31 - 1)); [|lia].
      rewrite andb_false_r. reflexivity. }
    rewrite A1, A2. cbn [bind].
    rewrite (i32_small (i32 n)) by lia.
    rewrite (i32_small (total_size_sum tiff)) by lia.
    set (pre := http_headers (total_size_sum tiff)
                ++ block_bytes (mk_block (block_code SERIAL_BLOCK_LZ4_COMPRESSED_DATA)
                                  (total_size_sum tiff) (i32 n))).
    pose proof (POP_DATA_on pre (take cbuf (i32 n)) []) as Hp.
    rewrite app_nil_r, Htk in Hp. rewrite Hp by lia. cbn [bind].
    unfold cursor_on at 1. cbn [cur_mem].
    pose proof (read_bytes_on pre (take cbuf (i32 n)) []) as Hr.
    rewrite Htk in Hr. rewrite Hr. cbn [bind].
    rewrite <- Hlen in El.
    pose proof (LZ4_round_trip L lok _ _ _ _ El Hpos) as Hrt.
    rewrite Hlen in Hrt. rewrite Hrt.
    rewrite (i32_small (total_size_sum tiff)) by lia.
    assert (Hgt : (total_size_sum tiff >? 0) = true).
    { apply Z.gtb_lt.
      rewrite block_stream_split, length_app, block_bytes_length in Hlen. lia. }
    rewrite Hgt, Z.eqb_refl. cbn [negb].
    rewrite <- Hlen.
    change (mk_cursor (block_stream tiff) 0 (Z.of_nat (length (block_stream tiff))))
      with (cursor_on [] (block_stream tiff)).
    rewrite block_stream_split.
    rewrite POP_BLOCK_on; [ | exact Hhb | rewrite <- block_stream_split; lia ].
    eexists. split; [|reflexivity].
    cbn [app]. rewrite block_bytes_length. lia.
Qed.








(** C9: a buffer whose HEADER_AND_META record carries [ifd_count] 0 is
    refused by [tiff_deserialize]: the first block of the payload loop, the
    terminator included, fails the check of its index against [ifd_count].
    In particular the buffer that [tiff_serialize] makes of a descriptor
    without IFDs is refused. *)
Theorem zero_ifds_rejected :
  forall (fuel : nat),
    (forall buffer block c tiff c',
        Z.of_nat (length buffer) < 2^63 ->
        deserialize_first_block buffer = Done (block, c) ->
        deserialize_header_and_ifds block c = Done (tiff, c') ->
        ifd_count tiff = 0 ->
        tiff_deserialize (S fuel) buffer = Failed)
    /\ (forall tiff b,
          tiff_well_formed tiff ->
          total_size_sum tiff < INT32_MAX ->
          ifd_count tiff = 0 ->
          tiff_serialize tiff = Done b ->
          tiff_deserialize (S fuel) (buffer_bytes b) = Failed).
Proof.
  intro fuel. split.
  - intros buffer block c tiff c' Hlen H1 H2 Hz.
    eapply tiff_deserialize_zero_ifds; eassumption.
  - intros tiff b Hwf Htot Hz H.
    assert (Hfit : sizes_fit tiff) by (constructor; assumption).
    destruct (deserialize_first_block_serialized tiff b Hfit H)
      as [Ho [done [Hdone Hfirst]]].
    pose proof (block_stream_length tok tiff Hfit Ho) as Hlen.
    rewrite block_stream_split, length_app, block_bytes_length, Nat2Z.inj_add in Hlen.
    unfold INT32_MAX in Htot.
    unfold tiff_deserialize. rewrite Hfirst. cbn [bind].
    unfold stream_tail in *. unfold header_block.
    rewrite !length_app, !Nat2Z.inj_add in Hlen.
    rewrite (deserialize_header_and_ifds_on tok);
      [ | exact Hfit | rewrite !length_app, !Nat2Z.inj_add; lia ].
    cbn [bind]. apply deserialize_blocks_zero_ifds; [|exact Hz].
    unfold sane, cursor_on. cbn [cur_pos cur_left cur_mem].
    rewrite !length_app, !Nat2Z.inj_add. lia.
Qed.

End RoundTrip.

(* ================================================================== *)
(** * The Content-length field *)

Lemma atoi_decimal_digits : forall fuel n acc rest,
  0 <= n < 10 ^ Z.of_nat fuel -> (0 < fuel)%nat ->
  atoi_digits (decimal_digits fuel n acc ++ rest) 0 = atoi_digits (acc ++ rest) n.
Proof.
  induction fuel as [|fuel IH]; intros n acc rest Hn Hf; [lia|].
  cbn [decimal_digits].
  pose proof (Z.mod_pos_bound n 10 ltac:(lia)) as Hm.
  pose proof (Z.div_mod n 10 ltac:(lia)) as Hdm.
  assert (Hstep : forall a, atoi_digits (((48 + n mod 10) :: acc) ++ rest) a
                            = atoi_digits (acc ++ rest) (10 * a + n mod 10)).
  { intro a. cbn [app atoi_digits].
    destruct (Z.leb_spec 48 (48 + n mod 10)); [|lia].
    destruct (Z.leb_spec (48 + n mod 10) 57); [|lia].
    cbn [andb]. f_equal. lia. }
  destruct (n / 10 =? 0) eqn:E.
  - apply Z.eqb_eq in E. rewrite Hstep. f_equal. lia.
  - apply Z.eqb_neq in E.
    assert (Hq : 0 <= n / 10 < 10 ^ Z.of_nat fuel).
    { rewrite Nat2Z.inj_succ, Z.pow_succ_r in Hn by lia.
      split; [apply Z.div_pos; lia|]. apply Z.div_lt_upper_bound; lia. }
    assert (Hfuel : (0 < fuel)%nat).
    { destruct fuel; [|lia]. cbn in Hq. lia. }
    rewrite (IH (n / 10) ((48 + n mod 10) :: acc) rest Hq Hfuel).
    rewrite Hstep. f_equal. lia.
Qed.

Lemma u64_range : forall n, 0 <= u64 n < 2^64.
Proof. intro n. unfold u64. apply Z.mod_pos_bound. lia. Qed.

Lemma content_length_http_headers : forall n, content_length (http_headers n) = u64 n.
Proof.
  intro n. unfold content_length.
  change (http_headers n)
    with ((bytes_of_string "HTTP/1.1 200 OK" ++ CRLF
           ++ bytes_of_string "Connection: close" ++ CRLF
           ++ bytes_of_string "Content-type: application/octet-stream" ++ CRLF
           ++ bytes_of_string "Content-length: ")
          ++ (print_llu_left16 n ++ CRLF ++ CRLF)).
  change 92 with (Z.of_nat (length (bytes_of_string "HTTP/1.1 200 OK" ++ CRLF
           ++ bytes_of_string "Connection: close" ++ CRLF
           ++ bytes_of_string "Content-type: application/octet-stream" ++ CRLF
           ++ bytes_of_string "Content-length: "))).
  rewrite drop_app_exact. unfold print_llu_left16, print_llu.
  rewrite <- app_assoc.
  pose proof (u64_range n) as Hr.
  rewrite atoi_decimal_digits; [ | change (10 ^ Z.of_nat 20) with 100000000000000000000; lia | lia ].
  cbn [app].
  destruct (repeat 32 (16 - length (decimal_digits 20 (u64 n) []))) as [|x r] eqn:E.
  - reflexivity.
  - assert (x = 32).
    { apply (repeat_spec (16 - length (decimal_digits 20 (u64 n) [])) 32 x).
      rewrite E. left. reflexivity. }
    subst x. reflexivity.
Qed.

Section Outcome.
Context {C : common_h} {T : tiff_h} {L : lz4_h}.
Variable tok : tiff_h_ok T.

(** A failure of [tiff_deserialize] ahead of the block loop does not depend
    on the fuel. *)
Lemma tiff_deserialize_failed_any_fuel : forall buffer,
  tiff_deserialize 0 buffer = Failed ->
  forall fuel, tiff_deserialize fuel buffer = Failed.
Proof.
  intros buffer H fuel. unfold tiff_deserialize in *.
  destruct (deserialize_first_block buffer) as [[block c]| | |]; cbn [bind] in *;
    try discriminate H; try reflexivity.
  destruct (deserialize_header_and_ifds block c) as [[t c']| | |]; cbn [bind] in *;
    try discriminate H; try reflexivity.
Qed.



(** C2: the Content-length field written by [tiff_serialize] is the size of
    the uncompressed block stream in both branches.  It is the payload
    length when the LZ4 step does not succeed.  When the step succeeds with
    [n] bytes the payload is the 16-byte block header and those [n] bytes,
    and the field still holds the uncompressed size: the rewrite of the
    headers prints [total_size] again. *)
Theorem content_length_is_uncompressed_size :
  forall (tiff : tiff_t) (b0 b : push_buffer_t) (n : Z) (cbuf : list Z),
    tiff_well_formed tiff ->
    total_size_sum tiff < INT32_MAX ->
    push_all_blocks tiff = Done b0 ->
    LZ4_compress_default (pb_data b0) (i32 (used_size b0))
      (i32 (LZ4_COMPRESSBOUND (serial_total_size tiff))) = (n, cbuf) ->
    tiff_serialize tiff = Done b ->
    content_length (raw_memory b) = total_size_sum tiff
    /\ (i32 n <= 0 -> Z.of_nat (length (pb_data b)) = total_size_sum tiff)
    /\ (0 < i32 n -> Z.of_nat (length (pb_data b)) = 16 + i32 n).
Proof.
  intros tiff b0 b n cbuf Hwf Htot Hpush Hlz H.
  assert (Hfit : sizes_fit tiff) by (constructor; assumption).
  destruct (push_all_blocks_inv tok tiff b0 Hfit Hpush) as [R0 [C0 [D0 Ho]]].
  pose proof (block_stream_length tok tiff Hfit Ho) as Hlen.
  pose proof (serial_total_size_exact tok tiff Hfit) as Hex.
  pose proof (fit_facts tok tiff Hfit) as [_ [_ [_ [_ Hnn]]]].
  unfold INT32_MAX in Htot.
  assert (Hused : used_size b0 = total_size_sum tiff).
  { unfold used_size. rewrite D0. exact Hlen. }
  rewrite D0, Hused, Hex, (i32_small (total_size_sum tiff)) in Hlz by lia.
  destruct (tiff_serialize_inv tok tiff b Hfit H) as [Hraw [_ Hdata]].
  split.
  { rewrite Hraw, content_length_http_headers. apply u64_small. lia. }
  destruct Hdata as [[Hle Hd] | [n' [cbuf' [El [Hpos [Hcb [Hroom Hd]]]]]]].
  - rewrite Hlz in Hle. cbn [fst] in Hle. split; [|lia].
    intros _. rewrite Hd. exact Hlen.
  - rewrite Hlz in El. inversion El; subst n' cbuf'. split; [lia|].
    intros _. rewrite Hd, length_app, block_bytes_length, Nat2Z.inj_add.
    rewrite take_length by (pose proof (i32_range n); lia). lia.
Qed.

End Outcome.

(* ================================================================== *)
(** * The codec on the sample descriptors, with the reference instance *)

Import Reference ReferenceFacts.

(** The two sample descriptors are values of the C types. *)
Lemma one_ifd_tiff_well_formed : tiff_well_formed (T := layout) Samples.one_ifd_tiff.
Proof.
  split; [reflexivity|]. split.
  - constructor; [|constructor].
    unfold ifd_well_formed. cbn.
    repeat split; try lia; try discriminate;
      repeat (constructor; try lia).
  - cbn. unfold header_ok, word. cbn. repeat split; try lia; try discriminate.
Defined.

Lemma tiff_zero_well_formed : tiff_well_formed (T := layout) tiff_zero.
Proof.
  split; [reflexivity|]. split; [constructor|].
  cbn. unfold header_ok, word. cbn. repeat split; try lia; try discriminate.
Defined.

(** [one_ifd_tiff]: the 399 bytes of its block stream are compressed to 94;
    the payload is 110 bytes long and the Content-length field says 399. *)
Lemma content_length_is_uncompressed_size_witness :
  content_length (raw_memory one_ifd_buffer) = 399
  /\ Z.of_nat (length (pb_data one_ifd_buffer)) = 110.
Proof.
  destruct (content_length_is_uncompressed_size
              (C := debug_build) (T := layout) (L := rle) layout_ok
              Samples.one_ifd_tiff
              (match push_all_blocks (T := layout) Samples.one_ifd_tiff with
               | Done b0 => b0
               | _ => mk_push_buffer [] [] 0
               end)
              one_ifd_buffer 94 (drop (pb_data one_ifd_buffer) 16)
              one_ifd_tiff_well_formed)
    as [H1 [_ H3]].
  - vm_compute. reflexivity.
  - vm_compute. reflexivity.
  - vm_compute. reflexivity.
  - vm_compute. reflexivity.
  - split; [exact H1|]. apply H3. vm_compute. reflexivity.
Defined.



(** A stream whose LZ4 block announces 400 bytes and holds 399 is refused,
    and the same stream with 399 in the block is read. *)
Lemma lz4_size_mismatch_not_tolerated :
  (exists tiff',
      tiff_deserialize (C := debug_build) (T := layout) (L := rle) 5
        (buffer_bytes one_ifd_buffer) = Done tiff')
  /\ (exists c data c' src out,
         pop_first_block mismatched_index_stream = Done (mk_block 7 400 94, c)
         /\ POP_DATA c 94 = Done (data, c')
         /\ read_bytes (cur_mem c') data 94 = Done src
         /\ LZ4_decompress_safe (lz4_h := rle) src 94 400 = (399, out))
  /\ forall fuel,
       tiff_deserialize (C := debug_build) (T := layout) (L := rle) fuel
         mismatched_index_stream = Failed.
Proof.
  split; [eexists; vm_compute; reflexivity|]. split.
  - do 5 eexists. repeat split; vm_compute; reflexivity.
  - apply tiff_deserialize_failed_any_fuel. vm_compute. reflexivity.
Qed.

(** [short_lz4_stream]: the block announces 100 bytes and its payload
    expands to one. *)
Lemma lz4_size_mismatch_fails_witness :
  tiff_deserialize (C := debug_build) (T := layout) (L := rle) 5
    Samples.short_lz4_stream = Failed.
Proof.
  eapply (lz4_size_mismatch_fails (C := debug_build) (T := layout) (L := rle) 5
            Samples.short_lz4_stream (mk_block 7 100 2)).
  - exact layout_ok.
  - vm_compute. reflexivity.
  - reflexivity.
  - right. vm_compute. split; reflexivity.
  - vm_compute. reflexivity.
  - vm_compute. reflexivity.
  - vm_compute. reflexivity.
  - vm_compute. reflexivity.
  - vm_compute. discriminate.
Defined.

(** The buffer that [tiff_serialize] makes of [tiff_zero] is refused, as a
    serialized descriptor and as a buffer whose header says 0 IFDs. *)
Lemma zero_ifds_rejected_witness :
  ifd_count tiff_zero = 0
  /\ tiff_deserialize (C := debug_build) (T := layout) (L := rle) 1
       (buffer_bytes zero_ifds_buffer) = Failed
  /\ tiff_deserialize (C := debug_build) (T := layout) (L := rle) 2
       (buffer_bytes zero_ifds_buffer) = Failed.
Proof.
  split; [reflexivity|]. split.
  - apply (proj2 (zero_ifds_rejected (C := debug_build) layout_ok rle_ok 0)
             tiff_zero zero_ifds_buffer tiff_zero_well_formed).
    + vm_compute. reflexivity.
    + reflexivity.
    + vm_compute. reflexivity.
  - eapply (proj1 (zero_ifds_rejected (C := debug_build) layout_ok rle_ok 1)
              (buffer_bytes zero_ifds_buffer)).
    + vm_compute. reflexivity.
    + vm_compute. reflexivity.
    + vm_compute. reflexivity.
    + reflexivity.
Defined.

(* ================================================================== *)
(* ================================================================== *)
(** * Further properties of the reader and of the codec *)

(* ================================================================== *)
(** * Bytes and byte order *)

Lemma le_encode_bytes : forall n v, Forall is_byte (le_encode n v).
Proof.
  induction n as [|n IH]; intro v; cbn [le_encode]; constructor.
  - unfold is_byte. apply Z.mod_pos_bound. lia.
  - apply IH.
Qed.

Lemma le_encode_le_decode : forall l,
  Forall is_byte l -> le_encode (length l) (le_decode l) = l.
Proof.
  induction l as [|b r IH]; intro H; cbn [length le_encode le_decode]; [reflexivity|].
  inversion H as [|? ? Hb Hr]; subst. unfold is_byte in Hb.
  rewrite (Z.mod_small b 256) by lia.
  replace (b + 256 * le_decode r) with (b + le_decode r * 256) by lia.
  f_equal.
  - rewrite Z.mod_add by lia. apply Z.mod_small. lia.
  - rewrite Z.div_add by lia.
    rewrite (Z.div_small b 256) by lia. rewrite Z.add_0_l. apply IH. exact Hr.
Qed.

Lemma Forall_rev_bytes : forall l, Forall is_byte l -> Forall is_byte (rev l).
Proof. intros l H. apply Forall_rev. exact H. Qed.

Lemma bswap_of_bytes : forall l,
  Forall is_byte l -> bswap (length l) (le_decode l) = le_decode (rev l).
Proof. intros l H. unfold bswap. rewrite le_encode_le_decode by exact H. reflexivity. Qed.

Lemma le_encode_bswap_bytes : forall l,
  Forall is_byte l ->
  le_encode (length l) (bswap (length l) (le_decode l)) = rev l.
Proof.
  intros l H. rewrite bswap_of_bytes by exact H.
  rewrite <- (length_rev l). apply le_encode_le_decode. apply Forall_rev. exact H.
Qed.

(** Decoding what the file stores, with the swap for its byte order, gives
    the value. *)
Lemma decode_file_encode : forall (be : bool) (n : nat) (v : Z),
  0 <= v < 256 ^ Z.of_nat n ->
  (if be then bswap n (le_decode (file_encode be n v))
   else le_decode (file_encode be n v)) = v.
Proof.
  intros be n v Hv. destruct be; unfold file_encode.
  - pose proof (bswap_of_bytes (rev (le_encode n v))) as H.
    rewrite length_rev, le_encode_length, rev_involutive in H.
    rewrite H by (apply Forall_rev; apply le_encode_bytes).
    rewrite le_decode_encode. apply Z.mod_small. exact Hv.
  - rewrite le_decode_encode. apply Z.mod_small. exact Hv.
Qed.

Lemma file_encode_length : forall be n v, length (file_encode be n v) = n.
Proof.
  intros be n v. destruct be; unfold file_encode;
    rewrite ?length_rev; apply le_encode_length.
Qed.

Lemma file_encode_bytes : forall be n v, Forall is_byte (file_encode be n v).
Proof.
  intros be n v. destruct be; unfold file_encode;
    [apply Forall_rev|]; apply le_encode_bytes.
Qed.

Lemma drop_zero : forall (A : Type) (l : list A), drop l 0 = l.
Proof. intros A l. destruct l; reflexivity. Qed.

Lemma load_head : forall b c,
  load (Z.of_nat (length b)) (b ++ c) 0 = le_decode b.
Proof.
  intros b c. unfold load, slice. rewrite drop_zero, take_app_exact. reflexivity.
Qed.

Lemma load_skip : forall a r n,
  load n (a ++ r) (Z.of_nat (length a)) = load n r 0.
Proof.
  intros a r n. unfold load, slice. rewrite drop_app_exact, drop_zero. reflexivity.
Qed.

Lemma slice_skip : forall a r n,
  slice (a ++ r) (Z.of_nat (length a)) n = take r n.
Proof. intros a r n. unfold slice. rewrite drop_app_exact. reflexivity. Qed.

(* ================================================================== *)
(** * The positioned read *)

Section ReadAt.
Context {C : common_h}.

Lemma file_read_at_offset_value : forall fp offset n,
  0 <= offset < 2^63 -> 0 < n ->
  file_read_at_offset fp offset n
  = Done (slice (f_bytes fp) offset n,
          (if offset + n <=? Z.of_nat (length (f_bytes fp)) then 1 else 0),
          fp).
Proof.
  intros fp offset n Ho Hn. unfold file_read_at_offset, fgetpos64.
  change (0 =? 0) with true. rewrite ASSERT_true. cbn [bind].
  unfold fseeko64. rewrite i64_small by lia.
  destruct (Z.ltb_spec offset 0) as [|_]; [lia|].
  unfold fread. destruct (Z.eqb_spec n 0) as [|_]; [lia|].
  cbn [f_bytes f_pos fsetpos64]. change (0 =? 0) with true. rewrite ASSERT_true.
  cbn [bind]. destruct fp as [bytes pos]. cbn [f_bytes f_pos].
  f_equal. f_equal. f_equal.
  rewrite slice_length.
  destruct (Z.leb_spec (offset + n) (Z.of_nat (length bytes)));
    destruct (Z.eqb_spec (Z.of_nat (Nat.min (Z.to_nat n) (length bytes - Z.to_nat offset))) n);
    try reflexivity; lia.
Qed.

End ReadAt.

Section SwapFacts.
Context {C : common_h}.

Lemma get_tiff_field_size_cases : forall data_type,
  get_tiff_field_size data_type = 0 \/ get_tiff_field_size data_type = 1
  \/ get_tiff_field_size data_type = 2 \/ get_tiff_field_size data_type = 4
  \/ get_tiff_field_size data_type = 8.
Proof.
  intro data_type. unfold get_tiff_field_size.
  repeat match goal with
         | |- context [if ?b then _ else _] => destruct b
         end; auto 6.
Qed.

Lemma take_length_le : forall (A : Type) (l : list A) (n : nat),
  (n <= length l)%nat -> length (take l (Z.of_nat n)) = n.
Proof. intros A l n H. rewrite take_firstn, Nat2Z.id. apply firstn_length_le. exact H. Qed.

(** One pass of the swap switch at the start of the field. *)
Lemma swap_at_head : forall field (n : nat),
  (n = 2 \/ n = 4 \/ n = 8)%nat ->
  (n <= length field)%nat ->
  Forall is_byte field ->
  swap_at field 0 (Z.of_nat n)
  = Done (rev (take field (Z.of_nat n)) ++ drop field (Z.of_nat n)).
Proof.
  intros field n Hn Hlen Hb.
  assert (Hswap : store field 0
                    (le_encode n (bswap n (load (Z.of_nat n) field 0)))
                  = rev (take field (Z.of_nat n)) ++ drop field (Z.of_nat n)).
  { unfold load, slice. rewrite drop_zero.
    pose proof (le_encode_bswap_bytes (take field (Z.of_nat n))
                  (Forall_take _ _ _ _ Hb)) as H.
    rewrite take_length_le in H by exact Hlen. rewrite H.
    unfold store. rewrite take_nonpos by lia. cbn [app].
    rewrite length_rev, take_length_le by exact Hlen. reflexivity. }
  unfold swap_at.
  destruct Hn as [-> | [-> | ->]]; cbn [Z.of_nat Pos.of_succ_nat Pos.succ Z.eqb Pos.eqb] in *;
    exact (f_equal Done Hswap).
Qed.

Lemma take_zero : forall (A : Type) (l : list A), take l 0 = [].
Proof. intros A l. apply take_nonpos. lia. Qed.

Lemma maybe_swap_tiff_field_head : forall field data_type,
  length field = 8%nat ->
  Forall is_byte field ->
  data_type <> TIFF_RATIONAL -> data_type <> TIFF_SRATIONAL ->
  maybe_swap_tiff_field field data_type true
  = Done (rev (take field (get_tiff_field_size data_type))
          ++ drop field (get_tiff_field_size data_type)).
Proof.
  intros field data_type Hlen Hb Hr Hs.
  unfold maybe_swap_tiff_field.
  apply Z.eqb_neq in Hr. apply Z.eqb_neq in Hs. rewrite Hr, Hs. cbn [orb].
  destruct (get_tiff_field_size_cases data_type) as [E|[E|[E|[E|E]]]]; rewrite E.
  - cbn [Z.gtb Z.compare]. rewrite take_zero, drop_zero. reflexivity.
  - cbn [Z.gtb Z.compare Pos.compare Pos.compare_cont].
    destruct field as [|x r]; [discriminate Hlen|].
    cbn [take drop Z.leb Z.compare Z.sub Z.add Z.opp Z.pos_sub]. rewrite take_zero, drop_zero.
    reflexivity.
  - cbn [Z.gtb Z.compare Pos.compare Pos.compare_cont seq fold_left bind Z.of_nat Z.mul].
    apply (swap_at_head field 2); [auto | lia | exact Hb].
  - cbn [Z.gtb Z.compare Pos.compare Pos.compare_cont seq fold_left bind Z.of_nat Z.mul].
    apply (swap_at_head field 4); [auto | lia | exact Hb].
  - cbn [Z.gtb Z.compare Pos.compare Pos.compare_cont seq fold_left bind Z.of_nat Z.mul].
    apply (swap_at_head field 8); [auto | lia | exact Hb].
Qed.

(** X2: under big-endian byte order [maybe_swap_tiff_field] reverses the
    first element of the field (as many bytes as the data type has) and
    leaves every other byte of the field as it is, for every data type other
    than RATIONAL and SRATIONAL; for the types of size 0 and 1 that is the
    field itself.  Under little-endian order the field is left alone.  The
    assertion of the default branch is not reached. *)
Theorem maybe_swap_tiff_field_first_element :
  forall (field : list Z) (data_type : Z),
    length field = 8%nat ->
    Forall is_byte field ->
    data_type <> TIFF_RATIONAL -> data_type <> TIFF_SRATIONAL ->
    maybe_swap_tiff_field field data_type true
    = Done (rev (take field (get_tiff_field_size data_type))
            ++ drop field (get_tiff_field_size data_type))
    /\ maybe_swap_tiff_field field data_type false = Done field.
Proof.
  intros field data_type Hlen Hb Hr Hs. split.
  - apply maybe_swap_tiff_field_head; assumption.
  - reflexivity.
Qed.

End SwapFacts.

Lemma maybe_swap_tiff_field_first_element_witness :
  maybe_swap_tiff_field (C := Reference.release_build)
    [0; 2; 0; 1; 0; 0; 0; 0] TIFF_UINT16 true
  = Done [2; 0; 0; 1; 0; 0; 0; 0].
Proof.
  refine (proj1 (maybe_swap_tiff_field_first_element (C := Reference.release_build)
                   [0; 2; 0; 1; 0; 0; 0; 0] TIFF_UINT16 eq_refl _ _ _)).
  - repeat constructor; unfold is_byte; lia.
  - discriminate.
  - discriminate.
Defined.

Section EntryFacts.
Context {C : common_h}.

Lemma load_file_encode : forall be n v rest,
  load (Z.of_nat n) (file_encode be n v ++ rest) 0 = le_decode (file_encode be n v).
Proof.
  intros be n v rest.
  pose proof (load_head (file_encode be n v) rest) as H.
  rewrite file_encode_length in H. exact H.
Qed.

Lemma load_file_encode_2 : forall be v rest,
  load 2 (file_encode be 2 v ++ rest) 0 = le_decode (file_encode be 2 v).
Proof. intros. exact (load_file_encode be 2 v rest). Qed.

Lemma load_file_encode_4 : forall be v rest,
  load 4 (file_encode be 4 v ++ rest) 0 = le_decode (file_encode be 4 v).
Proof. intros. exact (load_file_encode be 4 v rest). Qed.

Lemma load_file_encode_8 : forall be v rest,
  load 8 (file_encode be 8 v ++ rest) 0 = le_decode (file_encode be 8 v).
Proof. intros. exact (load_file_encode be 8 v rest). Qed.

Lemma load_past : forall a r n k,
  k = Z.of_nat (length a) -> load n (a ++ r) k = load n r 0.
Proof. intros a r n k ->. apply load_skip. Qed.

Lemma drop_past : forall (A : Type) (a r : list A) k,
  k = Z.of_nat (length a) -> drop (a ++ r) k = r.
Proof. intros A a r k ->. apply drop_app_exact. Qed.

(** The fixed fields of a raw entry, read the way [tiff_read_ifd] reads
    them. *)
Lemma raw_entry_fields : forall (bigtiff be : bool) code type count value,
  0 <= code < 2^16 -> 0 <= type < 2^16 ->
  0 <= count < 256 ^ (if bigtiff then 8 else 4) ->
  let raw := raw_entry bigtiff be code type count value in
  maybe_swap_16 (load 2 raw 0) be = code
  /\ maybe_swap_16 (load 2 raw 2) be = type
  /\ (if bigtiff then maybe_swap_64 (load 8 raw 4) be
      else maybe_swap_32 (load 4 raw 4) be) = count
  /\ drop raw (if bigtiff then 12 else 8) = value.
Proof.
  intros bigtiff be code type count value Hc Ht Hn raw. subst raw.
  unfold raw_entry, maybe_swap_16, maybe_swap_32, maybe_swap_64,
    bswap_16, bswap_32, bswap_64.
  split; [|split; [|split]].
  - rewrite load_file_encode_2. apply decode_file_encode. exact Hc.
  - rewrite load_past by (rewrite file_encode_length; reflexivity).
    rewrite load_file_encode_2. apply decode_file_encode. exact Ht.
  - destruct bigtiff.
    + rewrite app_assoc.
      rewrite load_past by (rewrite length_app, !file_encode_length; reflexivity).
      rewrite load_file_encode_8. apply decode_file_encode. exact Hn.
    + rewrite app_assoc.
      rewrite load_past by (rewrite length_app, !file_encode_length; reflexivity).
      rewrite load_file_encode_4. apply decode_file_encode. exact Hn.
  - rewrite app_assoc, app_assoc.
    apply drop_past. rewrite !length_app, !file_encode_length.
    destruct bigtiff; reflexivity.
Qed.

(** X3: an entry whose data does not fit the value field is restructured
    into the same tag whatever the byte order of the file: the code, the data
    type, the count and the offset of a big-endian entry are those of its
    little-endian twin.  (The size test is made on the 64-bit product of the
    element size and the count.) *)
Theorem read_raw_tag_offset_byte_order :
  forall (bigtiff big_endian : bool) (code type count off : Z),
    0 <= code < 2^16 -> 0 <= type < 2^16 ->
    0 <= count < 256 ^ (if bigtiff then 8 else 4) ->
    0 <= off < 256 ^ (if bigtiff then 8 else 4) ->
    (if bigtiff then 8 else 4) < u64 (get_tiff_field_size type * count) ->
    read_raw_tag bigtiff big_endian
      (raw_entry bigtiff big_endian code type count
         (file_encode big_endian (if bigtiff then 8 else 4) off))
    = Done (mk_tag code type count (le_encode 8 off) true).
Proof.
  intros bigtiff be code type count off Hc Ht Hn Ho Hsize.
  destruct bigtiff.
  - destruct (raw_entry_fields true be code type count (file_encode be 8 off) Hc Ht Hn)
      as [Ec [Et [En Ed]]].
    unfold read_raw_tag. cbv zeta. rewrite Ec, Et, En.
    destruct (Z.leb_spec (u64 (get_tiff_field_size type * count)) 8) as [Hle|_]; [lia|].
    unfold load at 1. unfold slice. rewrite Ed.
    rewrite take_all by (rewrite file_encode_length; lia).
    unfold maybe_swap_64, bswap_64.
    rewrite (decode_file_encode be 8 off Ho). reflexivity.
  - destruct (raw_entry_fields false be code type count (file_encode be 4 off) Hc Ht Hn)
      as [Ec [Et [En Ed]]].
    unfold read_raw_tag. cbv zeta. rewrite Ec, Et, En.
    destruct (Z.leb_spec (u64 (get_tiff_field_size type * count)) 4) as [Hle|_]; [lia|].
    unfold load at 1. unfold slice. rewrite Ed.
    rewrite take_all by (rewrite file_encode_length; lia).
    unfold maybe_swap_32, bswap_32.
    rewrite (decode_file_encode be 4 off Ho). reflexivity.
Qed.

Lemma repeat_bytes : forall n, Forall is_byte (repeat 0 n).
Proof. induction n; cbn [repeat]; constructor; [unfold is_byte; lia|assumption]. Qed.

Lemma take_app_whole : forall (A : Type) (a b : list A) n,
  n = Z.of_nat (length a) -> take (a ++ b) n = a.
Proof. intros A a b n ->. apply take_app_exact. Qed.

(** X4: an entry that holds a single element inline is restructured into
    the same tag whatever the byte order of the file: the element arrives in
    host order at the start of [data], followed by zeros.  (For every data
    type with a size other than RATIONAL and SRATIONAL.) *)
Theorem read_raw_tag_single_inline_byte_order :
  forall (bigtiff big_endian : bool) (code type v : Z) (s : nat),
    0 <= code < 2^16 -> 0 <= type < 2^16 ->
    type <> TIFF_RATIONAL -> type <> TIFF_SRATIONAL ->
    get_tiff_field_size type = Z.of_nat s ->
    (1 <= s <= (if bigtiff then 8 else 4))%nat ->
    0 <= v < 256 ^ Z.of_nat s ->
    read_raw_tag bigtiff big_endian
      (raw_entry bigtiff big_endian code type 1
         (file_encode big_endian s v
          ++ repeat 0 ((if bigtiff then 8 else 4) - s)))
    = Done (mk_tag code type 1 (le_encode s v ++ repeat 0 (8 - s)) false).
Proof.
  intros bigtiff be code type v s Hc Ht Hr Hs Esize Hsz Hv.
  assert (Hone : 0 <= 1 < 256 ^ (if bigtiff then 8 else 4)) by (destruct bigtiff; lia).
  set (w := if bigtiff then 8%nat else 4%nat) in *.
  set (value := file_encode be s v ++ repeat 0 (w - s)).
  assert (Hvlen : length value = w).
  { unfold value. rewrite length_app, file_encode_length, repeat_length. lia. }
  assert (Hdata : memcpy (calloc 8) value (Z.of_nat w)
                  = file_encode be s v ++ repeat 0 (8 - s)).
  { unfold memcpy, store. rewrite take_nonpos by lia. cbn [app].
    rewrite take_all by lia. rewrite Hvlen, Z.add_0_l.
    unfold value. rewrite <- app_assoc. f_equal.
    unfold calloc. rewrite drop_skipn, Nat2Z.id.
    change (Z.to_nat 8) with 8%nat.
    replace 8%nat with (w + (8 - w))%nat at 1 by (subst w; destruct bigtiff; lia).
    rewrite repeat_app, skipn_app, repeat_length, Nat.sub_diag.
    rewrite skipn_all2 by (rewrite repeat_length; lia). cbn [skipn app].
    rewrite <- repeat_app. f_equal. subst w. destruct bigtiff; lia. }
  assert (Hswap : maybe_swap_tiff_field (file_encode be s v ++ repeat 0 (8 - s)) type be
                  = Done (le_encode s v ++ repeat 0 (8 - s))).
  { destruct be.
    - rewrite maybe_swap_tiff_field_head; try assumption.
      + rewrite Esize. rewrite take_app_whole by (rewrite file_encode_length; reflexivity).
        rewrite drop_past by (rewrite file_encode_length; reflexivity).
        unfold file_encode. rewrite rev_involutive. reflexivity.
      + rewrite length_app, file_encode_length, repeat_length.
        subst w. destruct bigtiff; lia.
      + apply Forall_app. split; [apply file_encode_bytes|apply repeat_bytes].
    - reflexivity. }
  assert (Hfirst : firstn 8 (le_encode s v ++ repeat 0 (8 - s))
                   = le_encode s v ++ repeat 0 (8 - s)).
  { apply firstn_all2. rewrite length_app, le_encode_length, repeat_length.
    subst w. destruct bigtiff; lia. }
  subst w. destruct bigtiff.
  - destruct (raw_entry_fields true be code type 1 value Hc Ht Hone) as [Ec [Et [En Ed]]].
    unfold read_raw_tag. cbv zeta. fold value. rewrite Ec, Et, En, Esize.
    destruct (Z.leb_spec (u64 (Z.of_nat s * 1)) 8) as [_|Hgt];
      [|rewrite u64_small in Hgt by lia; lia].
    unfold slice. rewrite Ed. rewrite take_all by lia.
    change (memcpy (calloc 8) value 8) with (memcpy (calloc 8) value (Z.of_nat 8)).
    rewrite Hdata, Hswap. cbn [bind].
    rewrite Hfirst. reflexivity.
  - destruct (raw_entry_fields false be code type 1 value Hc Ht Hone) as [Ec [Et [En Ed]]].
    unfold read_raw_tag. cbv zeta. fold value. rewrite Ec, Et, En, Esize.
    destruct (Z.leb_spec (u64 (Z.of_nat s * 1)) 4) as [_|Hgt];
      [|rewrite u64_small in Hgt by lia; lia].
    unfold slice. rewrite Ed. rewrite take_all by lia.
    change (memcpy (calloc 8) value 4) with (memcpy (calloc 8) value (Z.of_nat 4)).
    rewrite Hdata, Hswap. cbn [bind].
    rewrite Hfirst. reflexivity.
Qed.

End EntryFacts.

Lemma read_raw_tag_offset_byte_order_witness :
  read_raw_tag (C := Reference.release_build) false true
    [1; 68;  0; 4;  0; 0; 0; 3;  0; 0; 1; 0]
  = Done (mk_tag 324 4 3 [0; 1; 0; 0; 0; 0; 0; 0] true)
  /\ read_raw_tag (C := Reference.release_build) false false
       [68; 1;  4; 0;  3; 0; 0; 0;  0; 1; 0; 0]
     = Done (mk_tag 324 4 3 [0; 1; 0; 0; 0; 0; 0; 0] true).
Proof.
  split.
  - apply (read_raw_tag_offset_byte_order (C := Reference.release_build)
             false true 324 4 3 256); try (cbn; lia); try (vm_compute; reflexivity); try discriminate.
  - apply (read_raw_tag_offset_byte_order (C := Reference.release_build)
             false false 324 4 3 256); try (cbn; lia); try (vm_compute; reflexivity); try discriminate.
Defined.

Lemma read_raw_tag_single_inline_byte_order_witness :
  read_raw_tag (C := Reference.release_build) false true
    [1; 0;  0; 3;  0; 0; 0; 1;  2; 0; 0; 0]
  = Done (mk_tag 256 3 1 [0; 2; 0; 0; 0; 0; 0; 0] false)
  /\ read_raw_tag (C := Reference.release_build) false false
       [0; 1;  3; 0;  1; 0; 0; 0;  0; 2; 0; 0]
     = Done (mk_tag 256 3 1 [0; 2; 0; 0; 0; 0; 0; 0] false).
Proof.
  split.
  - apply (read_raw_tag_single_inline_byte_order (C := Reference.release_build)
             false true 256 3 512 2); try (cbn; lia); try (vm_compute; reflexivity); try discriminate.
  - apply (read_raw_tag_single_inline_byte_order (C := Reference.release_build)
             false false 256 3 512 2); try (cbn; lia); try (vm_compute; reflexivity); try discriminate.
Defined.

Section FieldFacts.
Context {C : common_h}.

Lemma offset_range : forall tag, 0 <= offset tag < 2^64.
Proof.
  intro tag. unfold offset, load.
  pose proof (le_decode_range (slice (data tag) 0 8)) as H.
  pose proof (slice_length (data tag) 0 8) as Hl.
  assert (256 ^ Z.of_nat (length (slice (data tag) 0 8)) <= 256 ^ 8).
  { apply Z.pow_le_mono_r; lia. }
  change (256 ^ 8) with (2 ^ 64) in *. lia.
Qed.

(** The elements of an array whose elements all take [n] bytes. *)
Lemma elements_of_flat_map :
  forall (enc : Z -> list Z) (n : nat) (F : Z -> Z) vs pre (k : nat),
    (forall v, length (enc v) = n) ->
    Z.of_nat (length pre) = Z.of_nat k * Z.of_nat n ->
    map (fun i => F (load (Z.of_nat n) (pre ++ flat_map enc vs)
                       (Z.of_nat i * Z.of_nat n)))
        (seq k (length vs))
    = map (fun v => F (le_decode (enc v))) vs.
Proof.
  intros enc n F. induction vs as [|a r IH]; intros pre k Hn Hpre;
    cbn [length seq map flat_map]; [reflexivity|].
  f_equal.
  - f_equal. rewrite load_past by lia.
    pose proof (load_head (enc a) (flat_map enc r)) as H. rewrite Hn in H. exact H.
  - rewrite app_assoc. apply IH; [exact Hn|].
    rewrite length_app, Nat2Z.inj_add, Hn. lia.
Qed.

Lemma map_id_on : forall (f : Z -> Z) (P : Z -> Prop) l,
  (forall v, P v -> f v = v) -> Forall P l -> map f l = l.
Proof.
  intros f P l Hf H. induction H as [|a r Ha Hr IH]; cbn [map]; [reflexivity|].
  rewrite Hf by exact Ha. f_equal. exact IH.
Qed.

Lemma flat_map_length_fixed : forall (enc : Z -> list Z) (n : nat) vs,
  (forall v, length (enc v) = n) ->
  length (flat_map enc vs) = (length vs * n)%nat.
Proof.
  intros enc n vs Hn. induction vs as [|a r IH]; cbn [flat_map length]; [reflexivity|].
  rewrite length_app, Hn, IH. lia.
Qed.

(** The widening loop on an array in the byte order of the file. *)
Lemma widen_elements_file_encode : forall (be : bool) (s : nat) vs,
  (s = 1 \/ s = 2 \/ s = 4 \/ s = 8)%nat ->
  Forall (fun v => 0 <= v < 256 ^ Z.of_nat s) vs ->
  widen_elements (Z.of_nat s) be (length vs) (flat_map (file_encode be s) vs) = vs.
Proof.
  intros be s vs Hs Hv. unfold widen_elements.
  pose proof (elements_of_flat_map (file_encode be s) s
                (fun x => if be then bswap s x else x) vs [] 0
                (file_encode_length be s) ltac:(cbn; lia)) as H.
  cbn [app] in H.
  assert (Hsame : map (fun i : nat =>
                         let x := load (Z.of_nat s) (flat_map (file_encode be s) vs)
                                    (Z.of_nat i * Z.of_nat s) in
                         if Z.of_nat s =? 8 then if be then bswap_64 x else x
                         else if Z.of_nat s =? 4 then maybe_swap_32 x be
                         else if Z.of_nat s =? 2 then maybe_swap_16 x be else x)
                      (seq 0 (length vs))
                  = map (fun i : nat =>
                           if be
                           then bswap s (load (Z.of_nat s) (flat_map (file_encode be s) vs)
                                           (Z.of_nat i * Z.of_nat s))
                           else load (Z.of_nat s) (flat_map (file_encode be s) vs)
                                  (Z.of_nat i * Z.of_nat s))
                        (seq 0 (length vs))).
  { apply map_ext_in. intros i Hi. cbv zeta.
    destruct Hs as [-> | [-> | [-> | ->]]]; cbn [Z.of_nat Pos.of_succ_nat Pos.succ Z.eqb Pos.eqb];
      unfold maybe_swap_32, maybe_swap_16, bswap_64, bswap_32, bswap_16;
      try reflexivity.
    (* one byte: the code does not swap, and the swap of one byte is the byte *)
    destruct be; [|reflexivity].
    apply in_seq in Hi.
    unfold bswap, load.
    set (sl := slice (flat_map (file_encode true 1) vs) (Z.of_nat i * 1) 1).
    assert (Hlen : (length sl <= 1)%nat).
    { unfold sl. rewrite slice_length. lia. }
    symmetry. cbn [le_encode].
    destruct sl as [|b [|c r]]; cbn [length] in Hlen; try lia.
    - reflexivity.
    - cbn [le_decode rev app].
      rewrite ?Z.mul_0_r, ?Z.add_0_r, ?Z.mod_mod by lia. reflexivity. }
  refine (eq_trans Hsame _). rewrite H.
  apply (map_id_on _ (fun v => 0 <= v < 256 ^ Z.of_nat s)); [|exact Hv].
  intros v Hr. apply decode_file_encode. exact Hr.
Qed.

Lemma tiff_read_field_integers_array :
  forall (be : bool) (fp : FILE) (tag : tiff_tag_t) (s : nat)
         (vs pre post : list Z),
    data_is_offset tag = true ->
    get_tiff_field_size (data_type tag) = Z.of_nat s ->
    (s = 1 \/ s = 2 \/ s = 4 \/ s = 8)%nat ->
    f_bytes fp = pre ++ flat_map (file_encode be s) vs ++ post ->
    offset tag = Z.of_nat (length pre) ->
    Z.of_nat (length pre) < 2^63 ->
    data_count tag = Z.of_nat (length vs) ->
    0 < Z.of_nat (length vs) <= INT32_MAX ->
    Forall (fun v => 0 <= v < 256 ^ Z.of_nat s) vs ->
    tiff_read_field_integers be fp tag = Done (Some vs, fp).
Proof.
  intros be fp tag s vs pre post Hoff Esize Hs Hbytes Eoff Hpre Ecount Hcount Hv.
  unfold tiff_read_field_integers. rewrite Hoff, Esize, Ecount.
  unfold INT32_MAX in *.
  assert (Hs8 : (1 <= s <= 8)%nat) by lia.
  assert (Hn : u64 (Z.of_nat (length vs) * Z.of_nat s)
               = Z.of_nat (length vs) * Z.of_nat s).
  { apply u64_small. nia. }
  rewrite Hn.
  rewrite file_read_at_offset_value by (try rewrite Eoff; nia).
  cbn [bind].
  assert (Hfl : Z.of_nat (length (flat_map (file_encode be s) vs))
                = Z.of_nat (length vs) * Z.of_nat s).
  { rewrite (flat_map_length_fixed _ s) by apply file_encode_length. lia. }
  assert (Hin : (offset tag + Z.of_nat (length vs) * Z.of_nat s
                 <=? Z.of_nat (length (f_bytes fp))) = true).
  { apply Z.leb_le. rewrite Hbytes, Eoff, !length_app, !Nat2Z.inj_add, Hfl. lia. }
  rewrite Hin. cbn [Z.eqb Pos.eqb negb].
  assert (Hsl : slice (f_bytes fp) (offset tag) (Z.of_nat (length vs) * Z.of_nat s)
                = flat_map (file_encode be s) vs).
  { rewrite Hbytes, Eoff, <- Hfl. apply slice_app_middle. }
  rewrite Hsl.
  assert (Hsz : ((Z.of_nat s =? 8) || (Z.of_nat s =? 4) || (Z.of_nat s =? 2)
                 || (Z.of_nat s =? 1)) = true).
  { destruct Hs as [-> | [-> | [-> | ->]]]; reflexivity. }
  rewrite Hsz, Z.eqb_refl. cbn [negb orb].
  destruct (Z.ltb_spec (2 ^ 31 - 1) (Z.of_nat (length vs))) as [|_]; [lia|].
  rewrite Nat2Z.id, widen_elements_file_encode by assumption. reflexivity.
Qed.

(** X5: an out-of-line array of 1, 2, 4 or 8-byte integers that lies inside
    the file is read into the same 64-bit values whatever the byte order of
    the file, and the stream is left where it was. *)
Theorem tiff_read_field_integers_byte_order :
  forall (big_endian : bool) (fp : FILE) (tag : tiff_tag_t) (s : nat)
         (vs pre post : list Z),
    data_is_offset tag = true ->
    get_tiff_field_size (data_type tag) = Z.of_nat s ->
    (s = 1 \/ s = 2 \/ s = 4 \/ s = 8)%nat ->
    f_bytes fp = pre ++ flat_map (file_encode big_endian s) vs ++ post ->
    offset tag = Z.of_nat (length pre) ->
    Z.of_nat (length pre) < 2^63 ->
    data_count tag = Z.of_nat (length vs) ->
    0 < Z.of_nat (length vs) <= INT32_MAX ->
    Forall (fun v => 0 <= v < 256 ^ Z.of_nat s) vs ->
    tiff_read_field_integers big_endian fp tag = Done (Some vs, fp).
Proof. exact tiff_read_field_integers_array. Qed.



End FieldFacts.

Lemma tiff_read_field_integers_byte_order_witness :
  tiff_read_field_integers (C := Reference.release_build) true
    {| f_bytes := [9; 9; 9; 9;  0; 1;  0; 2;  2; 3;  7]; f_pos := 2 |}
    (mk_tag 324 3 3 [4; 0; 0; 0; 0; 0; 0; 0] true)
  = Done (Some [1; 2; 515],
          {| f_bytes := [9; 9; 9; 9;  0; 1;  0; 2;  2; 3;  7]; f_pos := 2 |})
  /\ tiff_read_field_integers (C := Reference.release_build) false
       {| f_bytes := [9; 9; 9; 9;  1; 0;  2; 0;  3; 2;  7]; f_pos := 2 |}
       (mk_tag 324 3 3 [4; 0; 0; 0; 0; 0; 0; 0] true)
     = Done (Some [1; 2; 515],
             {| f_bytes := [9; 9; 9; 9;  1; 0;  2; 0;  3; 2;  7]; f_pos := 2 |}).
Proof.
  split.
  - apply (tiff_read_field_integers_byte_order (C := Reference.release_build) true
             _ _ 2 [1; 2; 515] [9; 9; 9; 9] [7]);
      try reflexivity; try (cbn; unfold INT32_MAX; lia); auto.
    repeat constructor; cbn; lia.
  - apply (tiff_read_field_integers_byte_order (C := Reference.release_build) false
             _ _ 2 [1; 2; 515] [9; 9; 9; 9] [7]);
      try reflexivity; try (cbn; unfold INT32_MAX; lia); auto.
    repeat constructor; cbn; lia.
Defined.


Section AsciiFacts.
Context {C : common_h}.

(** The positioned read gives the stream back as it was, and no more bytes
    than were asked for. *)
Lemma file_read_at_offset_frame : forall fp offset n,
  exists got result,
    file_read_at_offset fp offset n = Done (got, result, fp)
    /\ Z.of_nat (length got) <= Z.max 0 n.
Proof.
  intros [bytes pos] offset n. unfold file_read_at_offset, fgetpos64.
  change (0 =? 0) with true. rewrite ASSERT_true. cbn [bind].
  destruct (fseeko64 {| f_bytes := bytes; f_pos := pos |} offset) as [r1 fp1] eqn:Hseek.
  assert (Hb : f_bytes fp1 = bytes).
  { unfold fseeko64 in Hseek. destruct (i64 offset <? 0); inversion Hseek; reflexivity. }
  unfold fread. destruct (n =? 0) eqn:En.
  - cbn [fsetpos64]. change (0 =? 0) with true. rewrite ASSERT_true. cbn [bind].
    exists [], 0. rewrite Hb. cbn [f_bytes f_pos length]. split; [reflexivity|lia].
  - cbn [fsetpos64 f_bytes f_pos]. change (0 =? 0) with true. rewrite ASSERT_true.
    cbn [bind]. eexists. eexists. rewrite Hb.
    cbn [f_bytes f_pos]. split; [reflexivity|].
    rewrite slice_length. lia.
Qed.

Lemma nth_zero_tail : forall (got : list Z) (m k : nat),
  (length got <= k)%nat -> (k < length got + m)%nat ->
  nth k (got ++ repeat 0 m) 1 = 0.
Proof.
  intros got m k H1 H2. rewrite app_nth2 by lia.
  rewrite (nth_indep _ 1 0) by (rewrite repeat_length; lia).
  apply nth_repeat.
Qed.

Lemma store_calloc_head : forall (bs : list Z) (L : Z),
  Z.of_nat (length bs) <= L ->
  store (calloc L) 0 bs = bs ++ repeat 0 (Z.to_nat L - length bs).
Proof.
  intros bs L H. unfold store, calloc. rewrite take_nonpos by lia. cbn [app].
  f_equal. rewrite drop_skipn, Z.add_0_l, Nat2Z.id.
  replace (Z.to_nat L) with (length bs + (Z.to_nat L - length bs))%nat at 1 by lia.
  rewrite repeat_app, skipn_app, repeat_length, Nat.sub_diag.
  rewrite skipn_all2 by (rewrite repeat_length; lia). reflexivity.
Qed.

Lemma tiff_read_field_ascii_shape : forall fp tag s fp',
  0 <= data_count tag < 2^64 - 1 ->
  tiff_read_field_ascii fp tag = Done (s, fp') ->
  exists got,
    s = got ++ repeat 0 (Z.to_nat (Z.max 8 (data_count tag + 1)) - length got)
    /\ Z.of_nat (length got) <= data_count tag
    /\ fp' = fp
    /\ (data_is_offset tag = false -> got = take (data tag) (data_count tag)).
Proof.
  intros fp tag s fp' Hc H. unfold tiff_read_field_ascii, ATLEAST in H.
  rewrite u64_small in H by lia.
  destruct (data_is_offset tag).
  - destruct (file_read_at_offset_frame fp (offset tag) (data_count tag))
      as [got [r [E Hl]]].
    rewrite E in H. cbn [bind] in H. inversion H; subst. clear H.
    exists got. rewrite store_calloc_head by lia.
    repeat split; try reflexivity; try lia; try discriminate.
  - destruct (data_count tag <=? 8) eqn:E8; [|discriminate H].
    inversion H; subst. clear H. exists (take (data tag) (data_count tag)).
    assert (Hl : Z.of_nat (length (take (data tag) (data_count tag))) <= data_count tag).
    { rewrite take_firstn, length_firstn. lia. }
    unfold memcpy. rewrite store_calloc_head by lia.
    repeat split; try reflexivity; lia.
Qed.

(** X7: the buffer that [tiff_read_field_ascii] returns is a NUL-terminated
    string: it has [max(8, data_count + 1)] bytes and the byte at index
    [data_count] is 0, whether the field was inline, read from the file, or
    could not be read in full; the stream is left as it was.  An out-of-line
    field inside the file arrives as its [data_count] bytes. *)
Theorem tiff_read_field_ascii_terminated :
  forall (fp : FILE) (tag : tiff_tag_t) (s : list Z) (fp' : FILE),
    0 <= data_count tag < 2^64 - 1 ->
    tiff_read_field_ascii fp tag = Done (s, fp') ->
    Z.of_nat (length s) = Z.max 8 (data_count tag + 1)
    /\ nth (Z.to_nat (data_count tag)) s 1 = 0
    /\ fp' = fp
    /\ (data_is_offset tag = true -> 0 < data_count tag -> offset tag < 2^63 ->
        offset tag + data_count tag <= Z.of_nat (length (f_bytes fp)) ->
        take s (data_count tag) = slice (f_bytes fp) (offset tag) (data_count tag)).
Proof.
  intros fp tag s fp' Hc H.
  destruct (tiff_read_field_ascii_shape fp tag s fp' Hc H) as [got [Es [Hl [Efp _]]]].
  split; [|split; [|split]].
  - rewrite Es, length_app, repeat_length. lia.
  - rewrite Es. apply nth_zero_tail; lia.
  - exact Efp.
  - intros Hoff Hpos Ho Hin.
    unfold tiff_read_field_ascii, ATLEAST in H. rewrite Hoff in H.
    pose proof (offset_range tag) as Hr.
    rewrite file_read_at_offset_value in H by lia. cbn [bind] in H.
    inversion H; subst s fp'. clear H.
    assert (Hsl : Z.of_nat (length (slice (f_bytes fp) (offset tag) (data_count tag)))
                  = data_count tag).
    { rewrite slice_length. lia. }
    rewrite u64_small by lia. rewrite store_calloc_head by lia.
    apply take_app_whole. symmetry. exact Hsl.
Qed.

End AsciiFacts.

Lemma tiff_read_field_ascii_terminated_witness :
  exists s,
    tiff_read_field_ascii (C := Reference.release_build)
      {| f_bytes := [9; 9; 76; 97; 98; 101; 108; 33]; f_pos := 1 |}
      (mk_tag 270 2 5 [2; 0; 0; 0; 0; 0; 0; 0] true)
    = Done (s, {| f_bytes := [9; 9; 76; 97; 98; 101; 108; 33]; f_pos := 1 |})
    /\ Z.of_nat (length s) = 8 /\ nth 5 s 1 = 0.
Proof.
  exists [76; 97; 98; 101; 108; 0; 0; 0].
  assert (H : tiff_read_field_ascii (C := Reference.release_build)
                {| f_bytes := [9; 9; 76; 97; 98; 101; 108; 33]; f_pos := 1 |}
                (mk_tag 270 2 5 [2; 0; 0; 0; 0; 0; 0; 0] true)
              = Done ([76; 97; 98; 101; 108; 0; 0; 0],
                      {| f_bytes := [9; 9; 76; 97; 98; 101; 108; 33]; f_pos := 1 |}))
    by reflexivity.
  split; [exact H|].
  destruct (tiff_read_field_ascii_terminated (C := Reference.release_build)
              {| f_bytes := [9; 9; 76; 97; 98; 101; 108; 33]; f_pos := 1 |}
              (mk_tag 270 2 5 [2; 0; 0; 0; 0; 0; 0; 0] true)
              [76; 97; 98; 101; 108; 0; 0; 0]
              {| f_bytes := [9; 9; 76; 97; 98; 101; 108; 33]; f_pos := 1 |}
              ltac:(cbn; lia) H) as [H1 [H2 _]].
  split; [exact H1|exact H2].
Defined.

Section ReadAtFacts.
Context {C : common_h}.


End ReadAtFacts.


Section IfdFacts.
Context {C : common_h}.

Lemma bswap_zero : bswap_16 0 = 0 /\ bswap_64 0 = 0.
Proof. split; reflexivity. Qed.

Lemma tiff_read_ifd_empty : forall tiff fp ifd off,
  0 <= off < 2^63 ->
  off + (if is_bigtiff tiff then 8 else 2) <= Z.of_nat (length (f_bytes fp)) ->
  load (if is_bigtiff tiff then 8 else 2) (f_bytes fp) off = 0 ->
  tiff_read_ifd tiff fp ifd off = Failed.
Proof.
  intros tiff fp ifd off Ho Hin Hz.
  unfold tiff_read_ifd, read_ifd_tags, fseeko64.
  rewrite i64_small by lia.
  destruct (Z.ltb_spec off 0) as [|_]; [lia|]. cbn [Z.eqb negb].
  unfold fread at 1. cbn [f_bytes f_pos].
  assert (Hw : ((if is_bigtiff tiff then 8 else 2) =? 0) = false)
    by (destruct (is_bigtiff tiff); reflexivity).
  rewrite Hw.
  assert (Hlen : Z.of_nat (length (slice (f_bytes fp) off
                                     (if is_bigtiff tiff then 8 else 2)))
                 = (if is_bigtiff tiff then 8 else 2)).
  { rewrite slice_length. destruct (is_bigtiff tiff); lia. }
  rewrite Hlen, Z.eqb_refl. cbn [Z.eqb Pos.eqb negb].
  unfold load in Hz. rewrite Hz.
  assert (Hcount : (if is_big_endian tiff
                    then if is_bigtiff tiff then bswap_64 0 else bswap_16 0
                    else 0) = 0).
  { destruct (is_big_endian tiff), (is_bigtiff tiff); reflexivity. }
  rewrite Hcount. rewrite Z.mul_0_l. change (u64 0) with 0.
  unfold fread. cbn [Z.eqb negb]. reflexivity.
Qed.

(** X8: an IFD without entries is refused.  When the entry count at the
    offset of the IFD is 0, the read of the 0 bytes of entries reports no
    item, [tiff_read_ifd] returns failure, and a file whose chain of IFDs
    starts with such an IFD is not opened. *)
Theorem tiff_read_ifd_rejects_empty_ifd :
  forall (fuel : nat) (tiff tiff1 : tiff_t) (bytes : list Z) (fp : FILE) (off : Z),
    read_tiff_header tiff bytes = Done (tiff1, fp, off) ->
    0 < off < 2^63 ->
    off + (if is_bigtiff tiff1 then 8 else 2) <= Z.of_nat (length (f_bytes fp)) ->
    load (if is_bigtiff tiff1 then 8 else 2) (f_bytes fp) off = 0 ->
    tiff_read_ifd tiff1 fp (ifd_with_index (ifd_count tiff1)) off = Failed
    /\ open_tiff_file (S fuel) tiff (Some bytes) = Failed.
Proof.
  intros fuel tiff tiff1 bytes fp off Hh Ho Hin Hz.
  assert (Hf : tiff_read_ifd tiff1 fp (ifd_with_index (ifd_count tiff1)) off = Failed)
    by (apply tiff_read_ifd_empty; [lia | exact Hin | exact Hz]).
  split; [exact Hf|].
  unfold open_tiff_file. rewrite Hh. cbn [bind read_ifds].
  destruct (Z.eqb_spec off 0) as [|_]; [lia|].
  rewrite Hf. reflexivity.
Qed.

(** The tile grid: the number of tile columns and rows. *)
Lemma ceil_div_covers : forall a b,
  0 < a -> 0 < b ->
  ((a + b - 1) / b - 1) * b < a <= (a + b - 1) / b * b.
Proof.
  intros a b Ha Hb.
  pose proof (Z.div_mod (a + b - 1) b ltac:(lia)) as H.
  pose proof (Z.mod_pos_bound (a + b - 1) b Hb) as Hm.
  nia.
Qed.

(** X13: for a tiled IFD whose width plus tile width stays below 2^32, the
    tile columns that [tiff_read_ifd] derives are the fewest that cover the
    image width, and likewise the rows for the height; without a tile size
    the grid is left as it was. *)
Theorem compute_tile_grid_covers :
  forall (ifd : tiff_ifd_t),
    (0 < tile_width ifd -> 0 < image_width ifd ->
     image_width ifd + tile_width ifd - 1 < 2^32 ->
     (width_in_tiles (compute_tile_grid ifd) - 1) * tile_width ifd
       < image_width ifd
       <= width_in_tiles (compute_tile_grid ifd) * tile_width ifd)
    /\ (0 < tile_height ifd -> 0 < image_height ifd ->
        image_height ifd + tile_height ifd - 1 < 2^32 ->
        (height_in_tiles (compute_tile_grid ifd) - 1) * tile_height ifd
          < image_height ifd
          <= height_in_tiles (compute_tile_grid ifd) * tile_height ifd)
    /\ (tile_width ifd <= 0 ->
        width_in_tiles (compute_tile_grid ifd) = width_in_tiles ifd)
    /\ (tile_height ifd <= 0 ->
        height_in_tiles (compute_tile_grid ifd) = height_in_tiles ifd).
Proof.
  intro ifd. unfold compute_tile_grid.
  split; [|split; [|split]].
  - intros Ht Hw Hb.
    destruct (Z.gtb_spec (tile_width ifd) 0) as [_|]; [|lia].
    assert (E : width_in_tiles
                  (if tile_height
                        (set_width_in_tiles
                           (u32 (image_width ifd + tile_width ifd - 1) / tile_width ifd)
                           ifd) >? 0
                   then set_height_in_tiles
                          (u32 (image_height
                                  (set_width_in_tiles
                                     (u32 (image_width ifd + tile_width ifd - 1)
                                      / tile_width ifd) ifd)
                                + tile_height
                                    (set_width_in_tiles
                                       (u32 (image_width ifd + tile_width ifd - 1)
                                        / tile_width ifd) ifd) - 1)
                           / tile_height
                               (set_width_in_tiles
                                  (u32 (image_width ifd + tile_width ifd - 1)
                                   / tile_width ifd) ifd))
                          (set_width_in_tiles
                             (u32 (image_width ifd + tile_width ifd - 1)
                              / tile_width ifd) ifd)
                   else set_width_in_tiles
                          (u32 (image_width ifd + tile_width ifd - 1) / tile_width ifd)
                          ifd)
                = (image_width ifd + tile_width ifd - 1) / tile_width ifd).
    { rewrite u32_small by lia.
      destruct (_ >? 0); reflexivity. }
    rewrite E. apply ceil_div_covers; assumption.
  - intros Ht Hh Hb.
    destruct (tile_width ifd >? 0);
      cbn [tile_height image_height set_width_in_tiles];
      (destruct (Z.gtb_spec (tile_height ifd) 0) as [_|]; [|lia]);
      cbn [height_in_tiles set_height_in_tiles];
      rewrite u32_small by lia; apply ceil_div_covers; assumption.
  - intro Ht. destruct (Z.gtb_spec (tile_width ifd) 0) as [|_]; [lia|].
    destruct (tile_height ifd >? 0); reflexivity.
  - intro Ht.
    destruct (tile_width ifd >? 0);
      cbn [tile_height set_width_in_tiles];
      (destruct (Z.gtb_spec (tile_height ifd) 0) as [|_]; [lia|]); reflexivity.
Qed.

End IfdFacts.

Lemma compute_tile_grid_covers_witness :
  (width_in_tiles
     (compute_tile_grid
        (set_tile_width 512 (set_image_width 1025 (ifd_with_index 0)))) - 1) * 512
    < 1025
    <= width_in_tiles
         (compute_tile_grid
            (set_tile_width 512 (set_image_width 1025 (ifd_with_index 0)))) * 512.
Proof.
  apply (proj1 (compute_tile_grid_covers
                  (set_tile_width 512 (set_image_width 1025 (ifd_with_index 0)))));
    cbn; lia.
Defined.

Section OpenFacts.
Context {C : common_h}.

Lemma classify_subimage_rule : forall tiff ifd tiff' ifd',
  subimage_type ifd = TIFF_UNKNOWN_SUBIMAGE ->
  classify_subimage tiff ifd = (tiff', ifd') ->
  subimage_type ifd' = subimage_type_rule ifd'
  /\ ifd_index ifd' = ifd_index ifd
  /\ same_format tiff tiff'.
Proof.
  intros tiff ifd tiff' ifd' Hty H.
  unfold classify_subimage in H. unfold subimage_type_rule, same_format.
  destruct (image_description ifd) as [d|] eqn:Hd.
  - change 5%nat with (length lit_Macro) in H at 1.
    rewrite (strncmp_has_prefix lit_Macro d lit_Macro_nonzero) in H.
    change 5%nat with (length lit_Label) in H at 1.
    rewrite (strncmp_has_prefix lit_Label d lit_Label_nonzero) in H.
    change 5%nat with (length lit_level) in H.
    rewrite (strncmp_has_prefix lit_level d lit_level_nonzero) in H.
    destruct (has_prefix lit_Macro d) eqn:EM.
    { cbn -[has_prefix] in H. inversion H; subst. cbn -[has_prefix].
      rewrite Hd. cbn -[has_prefix]. rewrite EM. auto. }
    destruct (has_prefix lit_Label d) eqn:EL.
    { cbn -[has_prefix] in H. inversion H; subst. cbn -[has_prefix].
      rewrite Hd. cbn -[has_prefix]. rewrite EM, EL. auto. }
    destruct (has_prefix lit_level d) eqn:Ev.
    { cbn -[has_prefix] in H. inversion H; subst. cbn -[has_prefix].
      rewrite Hd. cbn -[has_prefix]. rewrite EM, EL, Ev. auto. }
    rewrite Hty in H. cbn [subimage_type_eqb andb] in H.
    destruct (tile_width ifd >? 0) eqn:Etw; cbn [andb] in H.
    + destruct ((ifd_index ifd =? 0)
               || negb (Z.land (tiff_subfiletype ifd) TIFF_FILETYPE_REDUCEDIMAGE =? 0))
        eqn:Ei; inversion H; subst; cbn -[has_prefix Z.land];
        rewrite Hd; cbn -[has_prefix Z.land]; rewrite EM, EL, Ev, Etw, Ei, ?Hty; auto.
    + inversion H; subst; cbn -[has_prefix Z.land];
        rewrite Hd; cbn -[has_prefix Z.land]; rewrite EM, EL, Ev, Etw, ?Hty; auto.
  - rewrite Hty in H. cbn [subimage_type_eqb andb] in H.
    destruct (tile_width ifd >? 0) eqn:Etw; cbn [andb] in H.
    + destruct ((ifd_index ifd =? 0)
               || negb (Z.land (tiff_subfiletype ifd) TIFF_FILETYPE_REDUCEDIMAGE =? 0))
        eqn:Ei; inversion H; subst; cbn -[has_prefix Z.land];
        rewrite Hd; cbn -[has_prefix Z.land]; rewrite Etw, Ei, ?Hty; auto.
    + inversion H; subst; cbn -[has_prefix Z.land];
        rewrite Hd; cbn -[has_prefix Z.land]; rewrite Etw, ?Hty; auto.
Qed.

Lemma tiff_read_ifd_result : forall tiff fp i off tiff' fp' ifd' next,
  tiff_read_ifd tiff fp (ifd_with_index i) off = Done (tiff', fp', ifd', next) ->
  subimage_type ifd' = subimage_type_rule ifd'
  /\ ifd_index ifd' = i
  /\ same_format tiff tiff'
  /\ ifds tiff' = ifds tiff /\ ifd_count tiff' = ifd_count tiff.
Proof.
  intros tiff fp i off tiff' fp' ifd' next H.
  pose proof (tiff_read_ifd_main _ _ _ _ _ _ _ _ H) as [_ [Hifds Hcount]].
  unfold tiff_read_ifd in H.
  destruct (read_ifd_tags tiff fp off) as [[tags fp1]| | |];
    cbn [bind] in H; try discriminate H.
  destruct (interpret_tags _ fp1 _ tags) as [[fp2 ifd2]| | |] eqn:Ei;
    cbn [bind] in H; try discriminate H.
  apply interpret_tags_frame in Ei. cbn in Ei. destruct Ei as [Ety Eidx].
  destruct (compute_tile_grid_frame ifd2) as [Gty Gidx].
  destruct (classify_subimage tiff (compute_tile_grid ifd2)) as [tiff1 ifd3] eqn:Ec.
  destruct (8 <? bytesize_of_offsets tiff1); try discriminate H.
  destruct (fread (bytesize_of_offsets tiff1) fp2) as [[got ret] fp3].
  destruct (negb (ret =? 1)); try discriminate H.
  revert Ety Eidx Gty Gidx Ec Hifds Hcount. inversion H; subst. clear H.
  intros Ety Eidx Gty Gidx Ec Hifds Hcount.
  destruct (classify_subimage_rule tiff (compute_tile_grid ifd2) tiff' ifd'
              ltac:(congruence) Ec) as [R [I F]].
  repeat split; try assumption; try congruence; apply F.
Qed.

Lemma indexed_from_snoc : forall l x,
  indexed_from 0 l ->
  ifd_index x = Z.of_nat (length l) ->
  subimage_type x = subimage_type_rule x ->
  indexed_from 0 (l ++ [x]).
Proof.
  intros l x Hl Hx Hr i ifd Hnth.
  destruct (Nat.lt_ge_cases i (length l)) as [Hlt|Hge].
  - rewrite nth_error_app1 in Hnth by exact Hlt. apply Hl. exact Hnth.
  - rewrite nth_error_app2 in Hnth by exact Hge.
    destruct (i - length l)%nat as [|j] eqn:E; cbn in Hnth.
    + inversion Hnth; subst ifd. split; [|exact Hr].
      rewrite Hx. f_equal. lia.
    + destruct j; discriminate Hnth.
Qed.

Lemma read_ifds_invariant : forall fuel tiff fp off t fp',
  ifd_count tiff = Z.of_nat (length (ifds tiff)) ->
  Z.of_nat (length (ifds tiff)) + Z.of_nat fuel < 2^64 ->
  indexed_from 0 (ifds tiff) ->
  read_ifds fuel tiff fp off = Done (t, fp') ->
  ifd_count t = Z.of_nat (length (ifds t))
  /\ indexed_from 0 (ifds t)
  /\ same_format tiff t
  /\ (off = 0 -> t = tiff).
Proof.
  induction fuel as [|fuel IH]; intros tiff fp off t fp' Hc Hb Hi H;
    cbn [read_ifds] in H.
  - destruct (Z.eqb_spec off 0); [|discriminate H]. inversion H; subst.
    split; [exact Hc|]. split; [exact Hi|].
    split; [unfold same_format; auto|auto].
  - destruct (Z.eqb_spec off 0) as [E0|N0].
    + inversion H; subst.
      split; [exact Hc|]. split; [exact Hi|].
      split; [unfold same_format; auto|auto].
    + destruct (tiff_read_ifd tiff fp (ifd_with_index (ifd_count tiff)) off)
        as [[[[tiff1 fp1] ifd1] next]| | |] eqn:E; cbn [bind] in H; try discriminate H.
      apply tiff_read_ifd_result in E.
      destruct E as [R [I [F [Eifds Ecount]]]].
      apply IH in H; cbn [ifd_count ifds set_ifd_count set_ifds].
      * destruct H as [H1 [H2 [H3 H4]]].
        split; [exact H1|]. split; [exact H2|]. split; [|intro; contradiction].
        destruct F as [F1 [F2 F3]]. destruct H3 as [G1 [G2 G3]].
        cbn in G1, G2, G3. unfold same_format. repeat split; congruence.
      * rewrite Ecount, Eifds, Hc, length_app. cbn [length].
        rewrite u64_small by lia. lia.
      * rewrite Eifds, length_app. cbn [length]. lia.
      * rewrite Eifds. apply indexed_from_snoc; [exact Hi| |exact R].
        rewrite I, Hc. reflexivity.
Qed.

Lemma assign_um_per_pixel_same_class : forall n um l l',
  assign_um_per_pixel n um l = Done l' -> Forall2 same_class l l'.
Proof.
  induction n as [|n IH]; intros um l l' H; cbn [assign_um_per_pixel] in H.
  - inversion H; subst. clear H. induction l' as [|a r IHr]; constructor; auto.
    unfold same_class. repeat split; reflexivity.
  - destruct l as [|a rest]; [discriminate H|].
    destruct (ASSERT (tile_width a =? 512)); cbn [bind] in H; try discriminate H.
    destruct (ASSERT (tile_height a =? 512)); cbn [bind] in H; try discriminate H.
    destruct (assign_um_per_pixel n _ rest) as [rest'| | |] eqn:E;
      cbn [bind] in H; try discriminate H.
    inversion H; subst. constructor.
    + unfold same_class. repeat split; reflexivity.
    + eapply IH. exact E.
Qed.

Lemma same_class_rule : forall a b,
  same_class a b -> subimage_type_rule b = subimage_type_rule a.
Proof.
  intros a b [H1 [H2 [H3 [H4 H5]]]]. unfold subimage_type_rule.
  rewrite H1, H3, H4, H5. reflexivity.
Qed.

Lemma Forall2_same_class_levels : forall l l',
  Forall2 same_class l l' ->
  length l' = length l
  /\ length (filter is_level l') = length (filter is_level l)
  /\ (indexed_from 0 l -> indexed_from 0 l').
Proof.
  intros l l' H. split; [symmetry; eapply Forall2_length; exact H|]. split.
  - induction H as [|a b r r' Hab Hr IH]; [reflexivity|].
    cbn [filter]. destruct Hab as [_ [Hty _]].
    assert (El : is_level b = is_level a) by (unfold is_level; rewrite Hty; reflexivity).
    rewrite El. destruct (is_level a); cbn [length]; lia.
  - intros Hi i ifd Hnth.
    destruct (nth_error l i) as [a|] eqn:Ea.
    + assert (Hab : same_class a ifd).
      { clear Hi. revert i Ea Hnth.
        induction H as [|x y r r' Hxy Hr IH]; intros i Ea Hnth.
        - destruct i; discriminate Ea.
        - destruct i as [|i]; cbn in Ea, Hnth.
          + inversion Ea; inversion Hnth; subst. exact Hxy.
          + eapply IH; eassumption. }
      destruct (Hi i a Ea) as [Hidx Hr].
      pose proof (same_class_rule a ifd Hab) as Hrule.
      destruct Hab as [E1 [E2 _]]. split; congruence.
    + apply nth_error_None in Ea.
      assert (Hl : length l' = length l) by (symmetry; eapply Forall2_length; exact H).
      assert (nth_error l' i <> None) by (rewrite Hnth; discriminate).
      apply nth_error_Some in H0. lia.
Qed.

Lemma open_tiff_file_result : forall fuel tiff bytes t,
  ifds tiff = [] -> ifd_count tiff = 0 ->
  Z.of_nat fuel < 2^64 ->
  open_tiff_file fuel tiff (Some bytes) = Done t ->
  exists tiff1 fp off,
    read_tiff_header tiff bytes = Done (tiff1, fp, off)
    /\ same_format tiff1 t
    /\ ifd_count t = Z.of_nat (length (ifds t))
    /\ indexed_from 0 (ifds t)
    /\ level_count t = Z.of_nat (length (filter is_level (ifds t)))
    /\ main_image_index t = 0 /\ level_image_index t = 0
    /\ mpp_x t = float_0_25 /\ mpp_y t = float_0_25.
Proof.
  intros fuel tiff bytes t Hnil Hcount Hfuel H. unfold open_tiff_file in H.
  destruct (read_tiff_header tiff bytes) as [[[tiff1 fp1] off]| | |] eqn:Eh;
    cbn [bind] in H; try discriminate H.
  exists tiff1, fp1, off. split; [reflexivity|].
  pose proof (read_tiff_header_frame _ _ _ _ _ Eh) as [Eifds Ecount].
  destruct (read_ifds fuel tiff1 fp1 off) as [[tiff2 fp2]| | |] eqn:Er;
    cbn [bind] in H; try discriminate H.
  apply read_ifds_invariant in Er.
  - destruct Er as [Hc [Hi [Hf _]]].
    unfold finish_tiff in H.
    match type of H with bind ?m _ = _ => destruct m as [l'| | |] eqn:Ea end;
      cbn [bind] in H; try discriminate H.
    apply assign_um_per_pixel_same_class in Ea. cbn [ifds] in Ea.
    destruct (Forall2_same_class_levels _ _ Ea) as [Hlen [Hlev Hidx]].
    inversion H; subst t. clear H. cbn.
    split; [exact Hf|]. split; [rewrite Hlen; exact Hc|]. split; [apply Hidx; exact Hi|].
    split; [|repeat split; reflexivity].
    unfold count_levels. cbn. rewrite Hc, take_all by lia. rewrite Hlev. reflexivity.
  - rewrite Ecount, Hcount, Eifds, Hnil. reflexivity.
  - rewrite Eifds, Hnil. cbn [length]. lia.
  - rewrite Eifds, Hnil. intros i ifd Hn. destruct i; discriminate Hn.
Qed.

(** X11: a descriptor that [open_tiff_file] fills with success, starting
    without IFDs, counts its IFDs in [ifd_count], numbers them in
    [ifd_index] by their position, and has 0 as the index of the main image
    and of the level images and 0.25 for both resolutions. *)
Theorem open_tiff_file_ifd_indices :
  forall (fuel : nat) (tiff : tiff_t) (bytes : list Z) (t : tiff_t),
    ifds tiff = [] -> ifd_count tiff = 0 ->
    Z.of_nat fuel < 2^64 ->
    open_tiff_file fuel tiff (Some bytes) = Done t ->
    ifd_count t = Z.of_nat (length (ifds t))
    /\ (forall i ifd, nth_error (ifds t) i = Some ifd -> ifd_index ifd = Z.of_nat i)
    /\ main_image_index t = 0 /\ level_image_index t = 0
    /\ mpp_x t = float_0_25 /\ mpp_y t = float_0_25.
Proof.
  intros fuel tiff bytes t Hnil Hcount Hfuel H.
  destruct (open_tiff_file_result fuel tiff bytes t Hnil Hcount Hfuel H)
    as [tiff1 [fp [off [_ [_ [Hc [Hi [_ [Hm [Hl [Hx Hy]]]]]]]]]]].
  split; [exact Hc|]. split; [|auto].
  intros i ifd Hn. apply (Hi i ifd Hn).
Qed.

(** X12: in a descriptor that [open_tiff_file] fills with success, every
    IFD has the subimage type that the classification rule gives it from
    its description, tile width, index and NewSubfileType, and [level_count]
    is the number of IFDs of type LEVEL. *)
Theorem open_tiff_file_subimage_types :
  forall (fuel : nat) (tiff : tiff_t) (bytes : list Z) (t : tiff_t),
    ifds tiff = [] -> ifd_count tiff = 0 ->
    Z.of_nat fuel < 2^64 ->
    open_tiff_file fuel tiff (Some bytes) = Done t ->
    (forall ifd, In ifd (ifds t) -> subimage_type ifd = subimage_type_rule ifd)
    /\ level_count t = Z.of_nat (length (filter is_level (ifds t))).
Proof.
  intros fuel tiff bytes t Hnil Hcount Hfuel H.
  destruct (open_tiff_file_result fuel tiff bytes t Hnil Hcount Hfuel H)
    as [tiff1 [fp [off [_ [_ [_ [Hi [Hlev _]]]]]]]].
  split; [|exact Hlev].
  intros ifd Hin. apply In_nth_error in Hin. destruct Hin as [i Hn].
  apply (Hi i ifd Hn).
Qed.

End OpenFacts.

Lemma two_levels_parsed_ok :
  open_tiff_file (C := Reference.debug_build) 2 tiff_zero
    (Some Inputs.two_levels_le) = Done two_levels_parsed.
Proof. vm_compute. reflexivity. Qed.

Lemma open_tiff_file_ifd_indices_witness :
  ifd_count two_levels_parsed = 2
  /\ ifd_index (nth 1 (ifds two_levels_parsed) ifd_zero) = 1.
Proof.
  destruct (open_tiff_file_ifd_indices (C := Reference.debug_build) 2 tiff_zero
              Inputs.two_levels_le two_levels_parsed eq_refl eq_refl
              ltac:(cbn; lia) two_levels_parsed_ok) as [H1 [H2 _]].
  split; [exact H1|].
  exact (H2 1%nat (nth 1 (ifds two_levels_parsed) ifd_zero) eq_refl).
Defined.

Lemma open_tiff_file_subimage_types_witness :
  subimage_type (nth 1 (ifds two_levels_parsed) ifd_zero)
  = subimage_type_rule (nth 1 (ifds two_levels_parsed) ifd_zero)
  /\ level_count two_levels_parsed = 2.
Proof.
  destruct (open_tiff_file_subimage_types (C := Reference.debug_build) 2 tiff_zero
              Inputs.two_levels_le two_levels_parsed eq_refl eq_refl
              ltac:(cbn; lia) two_levels_parsed_ok) as [H1 H2].
  split; [|exact H2].
  apply H1. right. left. reflexivity.
Defined.

Lemma tiff_read_ifd_rejects_empty_ifd_witness :
  open_tiff_file (C := Reference.debug_build) 1 tiff_zero
    (Some Inputs.empty_ifd_le) = Failed.
Proof.
  refine (proj2 (tiff_read_ifd_rejects_empty_ifd (C := Reference.debug_build) 0
                   tiff_zero _ Inputs.empty_ifd_le _ 8 eq_refl _ _ _)).
  - lia.
  - vm_compute. discriminate.
  - reflexivity.
Defined.

Section HeaderFacts.
Context {C : common_h}.

Lemma load_slice_prefix : forall mem n k off,
  0 <= off -> 0 <= k -> off + k <= n ->
  load k (slice mem 0 n) off = load k mem off.
Proof.
  intros mem n k off Ho Hk Hn. unfold load. f_equal.
  rewrite !slice_firstn_skipn. cbn [Z.to_nat skipn].
  rewrite skipn_firstn_comm, firstn_firstn. f_equal. lia.
Qed.

Lemma read_tiff_header_checked : forall tiff bytes t1 fp off,
  read_tiff_header tiff bytes = Done (t1, fp, off) ->
  header_accepted bytes t1
  /\ fp = {| f_bytes := bytes; f_pos := 16 |}
  /\ off = (if is_bigtiff t1
            then maybe_swap_64 (load 8 bytes 8) (is_big_endian t1)
            else maybe_swap_32 (load 4 bytes 4) (is_big_endian t1)).
Proof.
  intros tiff bytes t1 fp off H. unfold read_tiff_header in H.
  destruct (Z.of_nat (length bytes) >? 8); [|discriminate H].
  unfold fread in H. cbn [f_bytes f_pos Z.eqb] in H.
  destruct (Z.eqb_spec (Z.of_nat (length (slice bytes 0 16))) 16) as [E16|];
    [|discriminate H].
  cbn [Z.eqb Pos.eqb negb] in H.
  assert (Hlen : (16 <= length bytes)%nat).
  { rewrite slice_length in E16. lia. }
  rewrite !load_slice_prefix in H by lia.
  rewrite E16 in H. cbn [Z.add] in H.
  unfold header_accepted.
  destruct (Z.eqb_spec (load 2 bytes 0) TIFF_BIG_ENDIAN) as [Ebe|Nbe].
  - cbn [bind] in H.
    destruct (Z.eqb_spec (maybe_swap_16 (load 2 bytes 2) true) 42) as [E42|N42].
    + cbn [bind] in H. rewrite ASSERT_true in H. cbn [bind] in H.
      inversion H; subst.
      cbn [is_big_endian is_bigtiff bytesize_of_offsets set_bytesize_of_offsets
           set_is_bigtiff set_is_big_endian]. auto 10.
    + destruct (Z.eqb_spec (maybe_swap_16 (load 2 bytes 2) true) 43) as [E43|N43];
        [|discriminate H].
      cbn [bind] in H.
      destruct (Z.eqb_spec (maybe_swap_16 (load 2 bytes 4) true) 8) as [E8|];
        [|discriminate H].
      cbn [negb] in H.
      destruct (Z.eqb_spec (load 2 bytes 6) 0) as [E0|]; [|discriminate H].
      cbn [negb bind] in H. rewrite E8 in H. rewrite ASSERT_true in H. cbn [bind] in H.
      inversion H; subst.
      cbn [is_big_endian is_bigtiff bytesize_of_offsets set_bytesize_of_offsets
           set_is_bigtiff set_is_big_endian]. auto 12.
  - destruct (Z.eqb_spec (load 2 bytes 0) TIFF_LITTLE_ENDIAN) as [Ele|]; [|discriminate H].
    cbn [bind] in H.
    destruct (Z.eqb_spec (maybe_swap_16 (load 2 bytes 2) false) 42) as [E42|N42].
    + cbn [bind] in H. rewrite ASSERT_true in H. cbn [bind] in H.
      inversion H; subst.
      cbn [is_big_endian is_bigtiff bytesize_of_offsets set_bytesize_of_offsets
           set_is_bigtiff set_is_big_endian]. auto 10.
    + destruct (Z.eqb_spec (maybe_swap_16 (load 2 bytes 2) false) 43) as [E43|N43];
        [|discriminate H].
      cbn [bind] in H.
      destruct (Z.eqb_spec (maybe_swap_16 (load 2 bytes 4) false) 8) as [E8|];
        [|discriminate H].
      cbn [negb] in H.
      destruct (Z.eqb_spec (load 2 bytes 6) 0) as [E0|]; [|discriminate H].
      cbn [negb bind] in H. rewrite E8 in H. rewrite ASSERT_true in H. cbn [bind] in H.
      inversion H; subst.
      cbn [is_big_endian is_bigtiff bytesize_of_offsets set_bytesize_of_offsets
           set_is_bigtiff set_is_big_endian]. auto 12.
Qed.

Lemma read_ifds_format : forall fuel tiff fp off t fp',
  read_ifds fuel tiff fp off = Done (t, fp') -> same_format tiff t.
Proof.
  induction fuel as [|fuel IH]; intros tiff fp off t fp' H; cbn [read_ifds] in H.
  - destruct (off =? 0); [|discriminate H]. inversion H; subst.
    unfold same_format. auto.
  - destruct (off =? 0).
    + inversion H; subst. unfold same_format. auto.
    + destruct (tiff_read_ifd tiff fp (ifd_with_index (ifd_count tiff)) off)
        as [[[[tiff1 fp1] ifd1] next]| | |] eqn:E; cbn [bind] in H; try discriminate H.
      apply tiff_read_ifd_result in E. destruct E as [_ [_ [[F1 [F2 F3]] _]]].
      apply IH in H. destruct H as [G1 [G2 G3]]. cbn in G1, G2, G3.
      unfold same_format. repeat split; congruence.
Qed.

Lemma open_tiff_file_format : forall fuel tiff bytes t,
  open_tiff_file fuel tiff (Some bytes) = Done t ->
  exists tiff1 fp off,
    read_tiff_header tiff bytes = Done (tiff1, fp, off) /\ same_format tiff1 t.
Proof.
  intros fuel tiff bytes t H. unfold open_tiff_file in H.
  destruct (read_tiff_header tiff bytes) as [[[tiff1 fp1] off]| | |] eqn:Eh;
    cbn [bind] in H; try discriminate H.
  exists tiff1, fp1, off. split; [reflexivity|].
  destruct (read_ifds fuel tiff1 fp1 off) as [[tiff2 fp2]| | |] eqn:Er;
    cbn [bind] in H; try discriminate H.
  apply read_ifds_format in Er. unfold finish_tiff in H.
  match type of H with bind ?m _ = _ => destruct m as [l'| | |] end;
    cbn [bind] in H; try discriminate H.
  inversion H; subst t. exact Er.
Qed.

(** X9: a file that [open_tiff_file] opens has at least 16 bytes, starts
    with the byte-order mark II or MM, which decides [is_big_endian], and
    carries in that byte order the version 42 (classic TIFF, offsets of 4
    bytes) or 43 (BigTIFF, with an offset size of 8 and a zero reserved
    word); the descriptor keeps these three settings through the IFDs. *)
Theorem open_tiff_file_header_checked :
  forall (fuel : nat) (tiff : tiff_t) (bytes : list Z) (t : tiff_t),
    open_tiff_file fuel tiff (Some bytes) = Done t ->
    header_accepted bytes t.
Proof.
  intros fuel tiff bytes t H.
  destruct (open_tiff_file_format fuel tiff bytes t H)
    as [tiff1 [fp [off [Eh [F1 [F2 F3]]]]]].
  apply read_tiff_header_checked in Eh. destruct Eh as [Hh _].
  unfold header_accepted in *. rewrite F1, F2, F3. exact Hh.
Qed.

(** X10: a file with an accepted header whose first IFD offset is 0 is
    opened, whatever the fuel: the result has no IFDs, [ifd_count] and
    [level_count] 0, and the settings of the header. *)
Theorem open_tiff_file_without_ifds :
  forall (fuel : nat) (tiff tiff1 : tiff_t) (bytes : list Z) (fp : FILE),
    ifds tiff = [] -> ifd_count tiff = 0 ->
    read_tiff_header tiff bytes = Done (tiff1, fp, 0) ->
    exists t,
      open_tiff_file fuel tiff (Some bytes) = Done t
      /\ ifds t = [] /\ ifd_count t = 0 /\ level_count t = 0
      /\ header_accepted bytes t.
Proof.
  intros fuel tiff tiff1 bytes fp Hnil Hcount Hh.
  pose proof (read_tiff_header_frame _ _ _ _ _ Hh) as [Eifds Ecount].
  pose proof (read_tiff_header_checked _ _ _ _ _ Hh) as [Hacc _].
  unfold open_tiff_file. rewrite Hh. cbn [bind].
  assert (Er : read_ifds fuel tiff1 fp 0 = Done (tiff1, fp))
    by (destruct fuel; reflexivity).
  rewrite Er. cbn [bind]. unfold finish_tiff, count_levels.
  cbn [ifds ifd_count level_count set_main_image_index set_level_image_index
       set_level_count set_mpp_x set_mpp_y].
  rewrite Eifds, Hnil. cbn [take filter length Z.of_nat Z.to_nat assign_um_per_pixel bind].
  eexists. split; [reflexivity|].
  split; [reflexivity|]. split; [cbn; rewrite Ecount; exact Hcount|].
  split; [reflexivity|].
  unfold header_accepted in *. cbn. exact Hacc.
Qed.

End HeaderFacts.

Lemma open_tiff_file_header_checked_witness :
  header_accepted Inputs.two_levels_le two_levels_parsed.
Proof.
  exact (open_tiff_file_header_checked (C := Reference.debug_build) 2 tiff_zero
           Inputs.two_levels_le two_levels_parsed two_levels_parsed_ok).
Defined.

Lemma open_tiff_file_without_ifds_witness :
  exists t,
    open_tiff_file (C := Reference.debug_build) 0 tiff_zero
      (Some Inputs.no_ifds_le) = Done t
    /\ ifds t = [] /\ ifd_count t = 0 /\ level_count t = 0
    /\ header_accepted Inputs.no_ifds_le t.
Proof.
  eapply (open_tiff_file_without_ifds (C := Reference.debug_build) 0 tiff_zero
            _ Inputs.no_ifds_le _ eq_refl eq_refl).
  vm_compute. reflexivity.
Defined.

Section LevelFacts.
Context {C : common_h}.

Lemma ASSERT_holds : forall b, ASSERT b = Done tt -> ASSERT_enabled = true -> b = true.
Proof.
  intros b H He. unfold ASSERT in H. rewrite He in H.
  destruct b; [reflexivity|discriminate H].
Qed.

Lemma assign_um_per_pixel_levels : forall n um l l',
  assign_um_per_pixel n um l = Done l' ->
  (forall i b, (i < n)%nat -> nth_error l' i = Some b ->
     um_per_pixel_x b = um_after i um
     /\ um_per_pixel_y b = um_after i um
     /\ x_tile_side_in_um b = float_mul (um_after i um) (float_of_Z (tile_width b))
     /\ y_tile_side_in_um b = float_mul (um_after i um) (float_of_Z (tile_height b))
     /\ (ASSERT_enabled = true -> tile_width b = 512 /\ tile_height b = 512))
  /\ (forall i, (n <= i)%nat -> nth_error l' i = nth_error l i).
Proof.
  induction n as [|n IH]; intros um l l' H; cbn [assign_um_per_pixel] in H.
  - inversion H; subst. split; [intros i b Hi; lia|reflexivity].
  - destruct l as [|a rest]; [discriminate H|].
    destruct (ASSERT (tile_width a =? 512)) as [[]| | |] eqn:A1;
      cbn [bind] in H; try discriminate H.
    destruct (ASSERT (tile_height a =? 512)) as [[]| | |] eqn:A2;
      cbn [bind] in H; try discriminate H.
    destruct (assign_um_per_pixel n _ rest) as [rest'| | |] eqn:E;
      cbn [bind] in H; try discriminate H.
    inversion H; subst l'. clear H.
    destruct (IH _ _ _ E) as [IH1 IH2].
    split.
    + intros i b Hi Hn. destruct i as [|i]; cbn [nth_error um_after] in *.
      * inversion Hn; subst b. cbn.
        repeat split; try reflexivity.
        -- apply Z.eqb_eq. apply ASSERT_holds; assumption.
        -- apply Z.eqb_eq. apply ASSERT_holds; assumption.
      * apply IH1; [lia|exact Hn].
    + intros i Hi. destruct i as [|i]; [lia|]. cbn [nth_error]. apply IH2. lia.
Qed.

Lemma open_tiff_file_assigned : forall fuel tiff file t,
  open_tiff_file fuel tiff file = Done t ->
  exists l,
    assign_um_per_pixel (Z.to_nat (level_count t)) float_0_25 l = Done (ifds t).
Proof.
  intros fuel tiff file t H. unfold open_tiff_file in H.
  destruct file as [bytes|]; [|discriminate H].
  destruct (read_tiff_header tiff bytes) as [[[tiff1 fp1] off]| | |];
    cbn [bind] in H; try discriminate H.
  destruct (read_ifds fuel tiff1 fp1 off) as [[tiff2 fp2]| | |];
    cbn [bind] in H; try discriminate H.
  unfold finish_tiff in H.
  match type of H with bind ?m _ = _ => destruct m as [l'| | |] eqn:Ea end;
    cbn [bind] in H; try discriminate H.
  inversion H; subst t. clear H. cbn in *. eexists. exact Ea.
Qed.

(** X15: in a descriptor that [open_tiff_file] fills with success, the IFD
    at each position [i] below [level_count], whatever its subimage type,
    has the resolution 0.25 doubled [i] times in both directions and tile
    sides of that resolution times its tile width and height; with
    assertions compiled in, its tiles are 512 by 512. *)
Theorem open_tiff_file_level_resolutions :
  forall (fuel : nat) (tiff : tiff_t) (file : option (list Z)) (t : tiff_t)
         (i : nat) (ifd : tiff_ifd_t),
    open_tiff_file fuel tiff file = Done t ->
    Z.of_nat i < level_count t ->
    nth_error (ifds t) i = Some ifd ->
    um_per_pixel_x ifd = um_after i float_0_25
    /\ um_per_pixel_y ifd = um_after i float_0_25
    /\ x_tile_side_in_um ifd
       = float_mul (um_after i float_0_25) (float_of_Z (tile_width ifd))
    /\ y_tile_side_in_um ifd
       = float_mul (um_after i float_0_25) (float_of_Z (tile_height ifd))
    /\ (ASSERT_enabled = true -> tile_width ifd = 512 /\ tile_height ifd = 512).
Proof.
  intros fuel tiff file t i ifd H Hi Hn.
  destruct (open_tiff_file_assigned fuel tiff file t H) as [l Ha].
  destruct (assign_um_per_pixel_levels _ _ _ _ Ha) as [H1 _].
  apply (H1 i ifd); [lia|exact Hn].
Qed.

Lemma interpret_tag_color_space : forall be fp ifd tag fp' ifd',
  code tag <> TIFF_TAG_PHOTOMETRIC_INTERPRETATION ->
  interpret_tag be fp ifd tag = Done (fp', ifd') ->
  color_space ifd' = color_space ifd.
Proof.
  intros be fp ifd tag fp' ifd' Hc H. unfold interpret_tag in H.
  apply Z.eqb_neq in Hc. rewrite Hc in H.
  repeat match type of H with
         | (if ?b then _ else _) = Done _ => destruct b
         end;
  repeat match type of H with
         | bind ?m _ = Done _ =>
             destruct m as [?| | |]; cbn [bind] in H; try discriminate H
         | (let '(_, _) := ?p in _) = Done _ => destruct p
         | match ?m with _ => _ end = Done _ => destruct m; try discriminate H
         end;
  try (inversion H; subst; reflexivity).
Qed.

Lemma interpret_tags_color_space : forall be tags fp ifd fp' ifd',
  Forall (fun tag => code tag <> TIFF_TAG_PHOTOMETRIC_INTERPRETATION) tags ->
  interpret_tags be fp ifd tags = Done (fp', ifd') ->
  color_space ifd' = color_space ifd.
Proof.
  induction tags as [|tag rest IH]; intros fp ifd fp' ifd' Hall H;
    cbn [interpret_tags] in H.
  - inversion H; subst. reflexivity.
  - inversion Hall as [|? ? Ht Hr]; subst.
    destruct (interpret_tag be fp ifd tag) as [[fp1 ifd1]| | |] eqn:E;
      cbn [bind] in H; try discriminate H.
    apply (interpret_tag_color_space _ _ _ _ _ _ Ht) in E.
    apply (IH _ _ _ _ Hr) in H. congruence.
Qed.

Lemma compute_tile_grid_color_space : forall ifd,
  color_space (compute_tile_grid ifd) = color_space ifd.
Proof.
  intro ifd. unfold compute_tile_grid.
  destruct (tile_width ifd >? 0);
    match goal with |- context [if ?b then _ else _] => destruct b end;
    reflexivity.
Qed.

Lemma classify_subimage_color_space : forall tiff ifd,
  color_space (snd (classify_subimage tiff ifd)) = color_space ifd.
Proof.
  intros tiff ifd. unfold classify_subimage.
  destruct (image_description ifd);
    repeat match goal with |- context [if ?b then _ else _] => destruct b end;
    reflexivity.
Qed.

(** X14: an IFD that has no PhotometricInterpretation entry is read with
    the colour space RGB, whatever colour space the caller's [ifd] came
    with. *)
Theorem tiff_read_ifd_default_color_space :
  forall (tiff : tiff_t) (fp : FILE) (ifd : tiff_ifd_t) (off : Z)
         (tags : list tiff_tag_t) (fp1 : FILE)
         (tiff' : tiff_t) (fp' : FILE) (ifd' : tiff_ifd_t) (next : Z),
    read_ifd_tags tiff fp off = Done (tags, fp1) ->
    Forall (fun tag => code tag <> TIFF_TAG_PHOTOMETRIC_INTERPRETATION) tags ->
    tiff_read_ifd tiff fp ifd off = Done (tiff', fp', ifd', next) ->
    color_space ifd' = TIFF_PHOTOMETRIC_RGB.
Proof.
  intros tiff fp ifd off tags fp1 tiff' fp' ifd' next Ht Hall H.
  unfold tiff_read_ifd in H. rewrite Ht in H. cbn [bind] in H.
  destruct (interpret_tags _ fp1 _ tags) as [[fp2 ifd2]| | |] eqn:Ei;
    cbn [bind] in H; try discriminate H.
  apply (interpret_tags_color_space _ _ _ _ _ _ Hall) in Ei. cbn in Ei.
  pose proof (classify_subimage_color_space tiff (compute_tile_grid ifd2)) as Hc.
  destruct (classify_subimage tiff (compute_tile_grid ifd2)) as [tiff1 ifd3].
  cbn [snd] in Hc.
  destruct (8 <? bytesize_of_offsets tiff1); try discriminate H.
  destruct (fread (bytesize_of_offsets tiff1) fp2) as [[got ret] fp3].
  destruct (negb (ret =? 1)); try discriminate H.
  inversion H; subst.
  rewrite Hc, compute_tile_grid_color_space. exact Ei.
Qed.

End LevelFacts.

Lemma open_tiff_file_level_resolutions_witness :
  um_per_pixel_x (nth 1 (ifds two_levels_parsed) ifd_zero) = um_after 1 float_0_25
  /\ tile_width (nth 1 (ifds two_levels_parsed) ifd_zero) = 512.
Proof.
  destruct (open_tiff_file_level_resolutions (C := Reference.debug_build) 2 tiff_zero
              (Some Inputs.two_levels_le) two_levels_parsed 1
              (nth 1 (ifds two_levels_parsed) ifd_zero)
              two_levels_parsed_ok ltac:(cbn; lia) eq_refl) as [H1 [_ [_ [_ H5]]]].
  split; [exact H1|]. apply H5. reflexivity.
Defined.

Lemma tiff_read_ifd_default_color_space_witness :
  exists tiff' fp' ifd' next,
    tiff_read_ifd (C := Reference.debug_build)
      (set_bytesize_of_offsets 4 tiff_zero)
      {| f_bytes := Samples.untiled_le; f_pos := 16 |}
      (set_color_space 6 (ifd_with_index 0)) 8
    = Done (tiff', fp', ifd', next)
    /\ color_space ifd' = TIFF_PHOTOMETRIC_RGB.
Proof.
  eassert (H : tiff_read_ifd (C := Reference.debug_build)
                 (set_bytesize_of_offsets 4 tiff_zero)
                 {| f_bytes := Samples.untiled_le; f_pos := 16 |}
                 (set_color_space 6 (ifd_with_index 0)) 8
               = Done (_, _, _, _)) by (vm_compute; reflexivity).
  do 4 eexists. split; [exact H|].
  eapply (tiff_read_ifd_default_color_space (C := Reference.debug_build));
    [ | | exact H].
  - vm_compute. reflexivity.
  - repeat constructor; discriminate.
Defined.

(* ================================================================== *)
(** * The HTTP headers of [tiff_serialize] *)

Lemma decimal_digits_short : forall fuel n acc (k : nat),
  0 <= n < 10 ^ Z.of_nat k -> (1 <= k)%nat ->
  (length (decimal_digits fuel n acc) <= k + length acc)%nat.
Proof.
  induction fuel as [|fuel IH]; intros n acc k Hn Hk; cbn [decimal_digits]; [lia|].
  destruct (Z.eqb_spec (n / 10) 0) as [E|N].
  - cbn [length]. lia.
  - destruct k as [|k]; [lia|].
    rewrite Nat2Z.inj_succ, Z.pow_succ_r in Hn by lia.
    assert (Hq : 0 <= n / 10 < 10 ^ Z.of_nat k).
    { split; [apply Z.div_pos; lia|]. apply Z.div_lt_upper_bound; lia. }
    destruct k as [|k]; [cbn in Hq; lia|].
    specialize (IH (n / 10) ((48 + n mod 10) :: acc) (S k) Hq ltac:(lia)).
    cbn [length] in IH. lia.
Qed.

Lemma print_llu_left16_length : forall n,
  0 <= n < 10 ^ 16 -> length (print_llu_left16 n) = 16%nat.
Proof.
  intros n Hn. unfold print_llu_left16, print_llu.
  rewrite u64_small by lia.
  pose proof (decimal_digits_short 20 n [] 16 Hn ltac:(lia)) as H.
  cbn [length] in H. rewrite length_app, repeat_length. lia.
Qed.

(** X16: for every size below 10^16 the HTTP headers that [tiff_serialize]
    prints are 112 bytes long, with no NUL among them, and their
    Content-length field parses back to the size: the padding of the field
    makes the length of the headers independent of the size. *)
Theorem http_headers_fixed_length :
  forall (n : Z),
    0 <= n < 10 ^ 16 ->
    length (http_headers n) = 112%nat
    /\ strlen (http_headers n) = 112
    /\ content_length (http_headers n) = n.
Proof.
  intros n Hn.
  assert (Hl : length (http_headers n) = 112%nat).
  { rewrite http_headers_length, print_llu_left16_length by exact Hn. reflexivity. }
  split; [exact Hl|]. split.
  - rewrite http_headers_strlen, Hl. reflexivity.
  - rewrite content_length_http_headers. apply u64_small. lia.
Qed.

Lemma http_headers_fixed_length_witness :
  length (http_headers 399) = 112%nat
  /\ strlen (http_headers 399) = 112
  /\ content_length (http_headers 399) = 399.
Proof. apply (http_headers_fixed_length 399). lia. Defined.

Section SerializeFacts.
Context {C : common_h} {T : tiff_h} {L : lz4_h}.
Variable tok : tiff_h_ok T.

(** X17: for a descriptor whose fields are values of their C types and
    whose stream is shorter than INT32_MAX, the blocks that [tiff_serialize]
    pushes before the compression step fill the buffer exactly: the used
    size is [total_size], which is also the capacity, so the assertion
    [used_size == total_size] holds. *)
Theorem push_all_blocks_fills_buffer :
  forall (tiff : tiff_t) (b : push_buffer_t),
    tiff_well_formed tiff ->
    total_size_sum tiff < INT32_MAX ->
    push_all_blocks tiff = Done b ->
    used_size b = serial_total_size tiff
    /\ capacity b = serial_total_size tiff
    /\ ASSERT (used_size b =? serial_total_size tiff) = Done tt.
Proof.
  intros tiff b Hwf Htot H.
  assert (Hfit : sizes_fit tiff) by (constructor; assumption).
  destruct (push_all_blocks_inv tok tiff b Hfit H) as [_ [Hc [Hd Ho]]].
  pose proof (block_stream_length tok tiff Hfit Ho) as Hlen.
  pose proof (serial_total_size_exact tok tiff Hfit) as Hex.
  assert (Hu : used_size b = serial_total_size tiff).
  { unfold used_size. rewrite Hd, Hlen, Hex. reflexivity. }
  split; [exact Hu|]. split; [congruence|].
  rewrite Hu, Z.eqb_refl. apply ASSERT_true.
Qed.

(** X18: when the LZ4 step succeeds with more bytes than the uncompressed
    stream has less 16, the LZ4 block does not fit the buffer, whose
    capacity is the uncompressed size, and [tiff_serialize] ends in the
    [exit(1)] of [push_size]. *)
Theorem tiff_serialize_exits_on_expansion :
  forall (tiff : tiff_t) (b0 : push_buffer_t) (n : Z) (cbuf : list Z),
    tiff_well_formed tiff ->
    total_size_sum tiff < INT32_MAX ->
    push_all_blocks tiff = Done b0 ->
    LZ4_compress_default (pb_data b0) (i32 (used_size b0))
      (i32 (LZ4_COMPRESSBOUND (serial_total_size tiff))) = (n, cbuf) ->
    total_size_sum tiff < 16 + i32 n ->
    tiff_serialize tiff = Aborted ExitCalled.
Proof.
  intros tiff b0 n cbuf Hwf Htot Hpush Hlz Hbig.
  assert (Hfit : sizes_fit tiff) by (constructor; assumption).
  destruct (push_all_blocks_inv tok tiff b0 Hfit Hpush) as [Hr [Hc [Hd Ho]]].
  pose proof (block_stream_length tok tiff Hfit Ho) as Hlen.
  pose proof (serial_total_size_exact tok tiff Hfit) as Hex.
  pose proof (i32_range n) as Hn.
  assert (H16 : 16 <= total_size_sum tiff).
  { rewrite block_stream_split, length_app, block_bytes_length in Hlen. lia. }
  unfold INT32_MAX in Htot.
  unfold tiff_serialize. rewrite Hpush. cbn [bind]. unfold compress_blocks.
  assert (Hu : used_size b0 = total_size_sum tiff).
  { unfold used_size. rewrite Hd. exact Hlen. }
  rewrite Hlz. rewrite Hex, Hu, Z.eqb_refl, ASSERT_true. cbn [bind].
  destruct (Z.gtb_spec (i32 n) 0) as [_|]; [|lia].
  unfold push_block. unfold push_size at 1.
  cbn [pb_data capacity raw_memory used_size length Z.of_nat].
  rewrite Hc. unfold sizeof_serial_block_t.
  rewrite (u64_small (0 + 16)) by lia.
  destruct (Z.gtb_spec (0 + 16) (total_size_sum tiff)) as [|_]; [lia|].
  rewrite block_bytes_length.
  destruct (Z.ltb_spec (Z.of_nat 16) 16) as [Hlt|_]; [cbn in Hlt; lia|].
  cbn [bind]. unfold push_size.
  cbn [pb_data capacity raw_memory used_size app].
  rewrite take_all by (rewrite block_bytes_length; cbn; lia).
  unfold used_size. cbn [pb_data].
  rewrite block_bytes_length. change (Z.of_nat 16) with 16.
  rewrite (u64_small (16 + i32 n)) by lia.
  destruct (Z.gtb_spec (16 + i32 n) (total_size_sum tiff)) as [_|]; [|lia].
  reflexivity.
Qed.

End SerializeFacts.

Lemma noisy_tiff_well_formed : tiff_well_formed (T := layout) Descriptors.noisy_tiff.
Proof.
  split; [reflexivity|]. split.
  - constructor; [|constructor].
    unfold ifd_well_formed.
    split; [cbn; lia|]. split; [cbn; lia|]. split; [cbn; lia|].
    split; [constructor|]. split; [constructor|].
    cbn. unfold ifd_ok, word. cbn. repeat split; try lia; try discriminate.
  - cbn. unfold header_ok, word. cbn. repeat split; try lia; try discriminate.
Defined.

Lemma push_all_blocks_fills_buffer_witness :
  exists b,
    push_all_blocks (T := layout) Samples.one_ifd_tiff = Done b
    /\ used_size b = 399 /\ capacity b = 399.
Proof.
  eassert (H : push_all_blocks (T := layout) Samples.one_ifd_tiff = Done _)
    by (vm_compute; reflexivity).
  eexists. split; [exact H|].
  destruct (push_all_blocks_fills_buffer (C := debug_build) layout_ok
              Samples.one_ifd_tiff _ one_ifd_tiff_well_formed
              ltac:(vm_compute; reflexivity) H) as [H1 [H2 _]].
  split; [exact H1|exact H2].
Defined.

Lemma tiff_serialize_exits_on_expansion_witness :
  tiff_serialize (C := debug_build) (T := layout) (L := rle) Descriptors.noisy_tiff
  = Aborted ExitCalled.
Proof.
  eassert (H : push_all_blocks (T := layout) Descriptors.noisy_tiff = Done _)
    by (vm_compute; reflexivity).
  eapply (tiff_serialize_exits_on_expansion (C := debug_build) (L := rle) layout_ok
            Descriptors.noisy_tiff _ _ _ noisy_tiff_well_formed
            ltac:(vm_compute; reflexivity) H).
  - vm_compute. reflexivity.
  - vm_compute. reflexivity.
Defined.

Section RoundTripSettings.
Context {C : common_h} {T : tiff_h} {L : lz4_h}.
Variable tok : tiff_h_ok T.
Variable lok : lz4_ok L.


End RoundTripSettings.

(* ================================================================== *)
(** * The search for the end of the HTTP headers *)

Lemma find_crlfcrlf_first : forall str (n : nat) (offset k : nat),
  (offset <= k < offset + n)%nat ->
  crlfcrlf_at str k ->
  (forall j, (offset <= j < k)%nat -> ~ crlfcrlf_at str j) ->
  find_crlfcrlf str (Z.of_nat offset) n = Z.of_nat k + 4.
Proof.
  intros str. induction n as [|n IH]; intros offset k Hk Hat Hnone; [lia|].
  cbn [find_crlfcrlf].
  destruct (Z.eqb_spec (load 4 str (Z.of_nat offset)) (le_decode [13; 10; 13; 10]))
    as [E|N].
  - destruct (Nat.eq_dec offset k) as [->|Hne]; [reflexivity|].
    exfalso. apply (Hnone offset); [lia|exact E].
  - destruct (Nat.eq_dec offset k) as [->|Hne]; [contradiction|].
    replace (Z.of_nat offset + 1) with (Z.of_nat (S offset)) by lia.
    apply IH; [lia|exact Hat|]. intros j Hj. apply Hnone. lia.
Qed.

Lemma find_crlfcrlf_none : forall str (n : nat) (offset : nat),
  (forall j, (offset <= j < offset + n)%nat -> ~ crlfcrlf_at str j) ->
  find_crlfcrlf str (Z.of_nat offset) n = 0.
Proof.
  intros str. induction n as [|n IH]; intros offset Hnone; [reflexivity|].
  cbn [find_crlfcrlf].
  destruct (Z.eqb_spec (load 4 str (Z.of_nat offset)) (le_decode [13; 10; 13; 10]))
    as [E|N].
  - exfalso. apply (Hnone offset); [lia|exact E].
  - replace (Z.of_nat offset + 1) with (Z.of_nat (S offset)) by lia.
    apply IH. intros j Hj. apply Hnone. lia.
Qed.

(** X22: [find_end_of_http_headers] on a buffer of at least 4 bytes gives
    the offset just behind the first CR LF CR LF that starts before the last
    four bytes of the buffer, and 0 when there is none: a CR LF CR LF that
    ends the buffer is not found. *)
Theorem find_end_of_http_headers_first_match :
  forall (str : list Z),
    (4 <= length str)%nat ->
    (forall k,
        (k + 4 < length str)%nat ->
        crlfcrlf_at str k ->
        (forall j, (j < k)%nat -> ~ crlfcrlf_at str j) ->
        find_end_of_http_headers str (Z.of_nat (length str)) = Done (Z.of_nat k + 4))
    /\ ((forall j, (j + 4 < length str)%nat -> ~ crlfcrlf_at str j) ->
        find_end_of_http_headers str (Z.of_nat (length str)) = Done 0).
Proof.
  intros str Hlen. unfold find_end_of_http_headers.
  destruct (Z.ltb_spec (Z.of_nat (length str)) 4) as [|_]; [lia|].
  replace (Z.to_nat (Z.of_nat (length str) - 4)) with (length str - 4)%nat by lia.
  split.
  - intros k Hk Hat Hnone. f_equal.
    apply (find_crlfcrlf_first str (length str - 4) 0 k); [lia|exact Hat|].
    intros j Hj. apply Hnone. lia.
  - intro Hnone. f_equal.
    apply (find_crlfcrlf_none str (length str - 4) 0).
    intros j Hj. apply Hnone. lia.
Qed.

Lemma find_end_of_http_headers_first_match_witness :
  find_end_of_http_headers [72; 13; 10; 13; 10; 1; 13; 10; 13; 10; 2] 11 = Done 5
  /\ find_end_of_http_headers [72; 73; 13; 10; 13; 10] 6 = Done 0.
Proof.
  split.
  - apply (proj1 (find_end_of_http_headers_first_match
                    [72; 13; 10; 13; 10; 1; 13; 10; 13; 10; 2] ltac:(cbn; lia)) 1%nat).
    + cbn. lia.
    + reflexivity.
    + intros j Hj. assert (j = 0%nat) by lia. subst j.
      unfold crlfcrlf_at. vm_compute. discriminate.
  - apply (proj2 (find_end_of_http_headers_first_match
                    [72; 73; 13; 10; 13; 10] ltac:(cbn; lia))).
    intros j Hj. cbn in Hj.
    assert (j = 0 \/ j = 1)%nat as [-> | ->] by lia;
      unfold crlfcrlf_at; vm_compute; discriminate.
Defined.


Section ShapeFacts.
Context {C : common_h} {T : tiff_h} {L : lz4_h}.

Lemma read_bytes_length : forall mem p n bs,
  read_bytes mem p n = Done bs -> Z.of_nat (length bs) = n.
Proof.
  intros mem p n bs H. unfold read_bytes in H.
  destruct (Z.eqb_spec n 0) as [->|Hn].
  - inversion H; subst. reflexivity.
  - destruct (Z.ltb_spec p 0); cbn [orb] in H; [discriminate H|].
    destruct (Z.ltb_spec n 0); cbn [orb] in H; [discriminate H|].
    destruct (Z.ltb_spec (Z.of_nat (length mem)) (p + n)); [discriminate H|].
    inversion H; subst. rewrite slice_length. lia.
Qed.

Lemma apply_block_shape : forall blk content i ifd ifd' stop,
  fresh_ifd_fields i ifd -> description_terminated ifd ->
  (forall bs, content = Done bs -> Z.of_nat (length bs) = length_ blk) ->
  apply_block blk content ifd = Done (ifd', stop) ->
  fresh_ifd_fields i ifd' /\ description_terminated ifd'.
Proof.
  intros blk content i ifd ifd' stop Hf Hd Hc H. unfold apply_block in H.
  unfold fresh_ifd_fields, description_terminated in *.
  repeat match type of H with
         | (if ?b then _ else _) = Done _ => destruct b
         end;
    try discriminate H;
    try (destruct content as [bs| | |]; cbn [bind] in H; try discriminate H;
         inversion H; subst; cbn; split; [exact Hf|]);
    try (inversion H; subst; split; assumption);
    try exact Hd.
  exists bs. split; [reflexivity|]. apply Hc. reflexivity.
Qed.

Lemma nth_error_update_nth : forall (A : Type) (l : list A) (k i : nat) (v x : A),
  nth_error (update_nth k v l) i = Some x ->
  (i = k /\ x = v) \/ (i <> k /\ nth_error l i = Some x).
Proof.
  intros A. induction l as [|a r IH]; intros k i v x H.
  - destruct k; cbn in H; destruct i; discriminate H.
  - destruct k as [|k]; cbn [update_nth] in H.
    + destruct i as [|i]; cbn in H.
      * inversion H; subst. left. auto.
      * right. split; [lia|exact H].
    + destruct i as [|i]; cbn in H.
      * right. split; [lia|exact H].
      * apply IH in H. destruct H as [[-> ->]|[Hne H]]; [left; auto|right].
        split; [lia|exact H].
Qed.

Lemma update_nth_length : forall (A : Type) (l : list A) (k : nat) (v : A),
  length (update_nth k v l) = length l.
Proof.
  intros A. induction l as [|a r IH]; intros k v; destruct k; cbn; auto.
Qed.

Lemma deserialize_blocks_shape : forall fuel tiff c t,
  deserialized_shape tiff ->
  deserialize_blocks fuel tiff c = Done t ->
  deserialized_shape t /\ ifd_count t = ifd_count tiff.
Proof.
  induction fuel as [|fuel IH]; intros tiff c t Hs H; cbn [deserialize_blocks] in H;
    [discriminate H|].
  destruct (POP_BLOCK c) as [[blk c1]| | |]; cbn [bind] in H; try discriminate H.
  destruct (if length_ blk >? 0 then POP_DATA c1 (length_ blk)
            else Done (cur_pos c1, c1)) as [[data c2]| | |];
    cbn [bind] in H; try discriminate H.
  destruct (index blk >=? ifd_count tiff); [discriminate H|].
  destruct (nth_error (ifds tiff) (Z.to_nat (index blk))) as [ifd|] eqn:En;
    [|discriminate H].
  destruct (apply_block blk (read_bytes (cur_mem c2) data (length_ blk)) ifd)
    as [[ifd' stop]| | |] eqn:Ea; cbn [bind] in H; try discriminate H.
  destruct Hs as [Hlen Hall].
  destruct (Hall _ _ En) as [Hf Hd].
  destruct (apply_block_shape blk _ (Z.to_nat (index blk)) ifd ifd' stop Hf Hd
              (read_bytes_length _ _ _) Ea) as [Hf' Hd'].
  assert (Hs' : deserialized_shape
                  (set_ifds (update_nth (Z.to_nat (index blk)) ifd' (ifds tiff)) tiff)).
  { split; cbn [ifds ifd_count set_ifds].
    - rewrite update_nth_length. exact Hlen.
    - intros i x Hx. apply nth_error_update_nth in Hx.
      destruct Hx as [[-> ->]|[_ Hx]]; [split; assumption|apply Hall; exact Hx]. }
  destruct stop.
  - inversion H; subst t. split; [exact Hs'|reflexivity].
  - apply IH in H; [|exact Hs']. destruct H as [H1 H2]. split; [exact H1|exact H2].
Qed.

Lemma deserialize_header_and_ifds_shape : forall block c t c',
  deserialize_header_and_ifds block c = Done (t, c') -> deserialized_shape t.
Proof.
  intros block c t c' H. unfold deserialize_header_and_ifds in H.
  destruct (negb _); [discriminate H|].
  destruct (POP_DATA c sizeof_tiff_serial_header_t) as [[d1 c1]| | |];
    cbn [bind] in H; try discriminate H.
  destruct (read_bytes (cur_mem c1) d1 sizeof_tiff_serial_header_t) as [bs| | |];
    cbn [bind] in H; try discriminate H.
  destruct (POP_BLOCK c1) as [[blk c2]| | |]; cbn [bind] in H; try discriminate H.
  destruct (negb (block_type blk =? _)); [discriminate H|].
  destruct (negb (length_ blk =? _)); [discriminate H|].
  destruct (POP_DATA c2 _) as [[d2 c3]| | |]; cbn [bind] in H; try discriminate H.
  destruct (_ || _); [discriminate H|].
  destruct (read_bytes (cur_mem c3) d2 _) as [sbs| | |];
    cbn [bind] in H; try discriminate H.
  inversion H; subst t c'. clear H.
  unfold deserialized_shape, ifds_of_serial. cbn [ifds ifd_count set_ifds tiff_of_serial_header].
  split.
  - rewrite length_map, length_seq. reflexivity.
  - intros i ifd Hn. rewrite nth_error_map in Hn.
    destruct (nth_error (seq 0 _) i) as [j|] eqn:Ej; [|discriminate Hn].
    cbn [option_map] in Hn. inversion Hn; subst ifd. clear Hn.
    assert (Hi : (i < Z.to_nat (sh_ifd_count (serial_header_of_bytes bs)))%nat).
    { assert (Hne : nth_error (seq 0 (Z.to_nat (sh_ifd_count (serial_header_of_bytes bs)))) i
                    <> None) by (rewrite Ej; discriminate).
      apply nth_error_Some in Hne. rewrite length_seq in Hne. exact Hne. }
    assert (j = i).
    { pose proof (nth_error_nth _ _ 0%nat Ej) as Hj.
      rewrite seq_nth in Hj by exact Hi. lia. }
    subst j. unfold fresh_ifd_fields, description_terminated. cbn.
    repeat split; reflexivity.
Qed.

(** X20: whatever the buffer, a descriptor that [tiff_deserialize] builds
    with success has [ifd_count] IFDs; each has its position as
    [ifd_index], 0 as [tiff_subfiletype], no ReferenceBlackWhite values, and
    a description that, when present, has [image_description_length]
    bytes followed by a NUL. *)
Theorem tiff_deserialize_shape :
  forall (fuel : nat) (buffer : list Z) (t : tiff_t),
    tiff_deserialize fuel buffer = Done t ->
    deserialized_shape t.
Proof.
  intros fuel buffer t H. unfold tiff_deserialize in H.
  destruct (deserialize_first_block buffer) as [[block c]| | |];
    cbn [bind] in H; try discriminate H.
  destruct (deserialize_header_and_ifds block c) as [[tiff c']| | |] eqn:Eh;
    cbn [bind] in H; try discriminate H.
  apply deserialize_header_and_ifds_shape in Eh.
  apply (deserialize_blocks_shape _ _ _ _ Eh) in H. apply H.
Qed.

Lemma update_nth_same : forall (A : Type) (l : list A) (k : nat) (v : A),
  nth_error l k = Some v -> update_nth k v l = l.
Proof.
  intros A. induction l as [|a r IH]; intros k v H; destruct k; cbn in *;
    try discriminate H.
  - inversion H; subst. reflexivity.
  - f_equal. apply IH. exact H.
Qed.

Lemma tiff_eta : forall tiff, set_ifds (ifds tiff) tiff = tiff.
Proof. intro tiff. destruct tiff; reflexivity. Qed.

Lemma deserialize_blocks_rewinds : forall fuel tiff done blk rest ifd,
  block_in_range blk ->
  length_ blk = 2^64 - 16 ->
  block_type blk <> block_code SERIAL_BLOCK_TIFF_IMAGE_DESCRIPTION ->
  block_type blk <> block_code SERIAL_BLOCK_TIFF_TILE_OFFSETS ->
  block_type blk <> block_code SERIAL_BLOCK_TIFF_TILE_BYTE_COUNTS ->
  block_type blk <> block_code SERIAL_BLOCK_TIFF_JPEG_TABLES ->
  block_type blk <> block_code SERIAL_BLOCK_TERMINATOR ->
  index blk < ifd_count tiff ->
  nth_error (ifds tiff) (Z.to_nat (index blk)) = Some ifd ->
  Z.of_nat (length (done ++ block_bytes blk ++ rest)) < 2^63 ->
  deserialize_blocks fuel tiff (cursor_on done (block_bytes blk ++ rest)) = OutOfFuel.
Proof.
  induction fuel as [|fuel IH];
    intros tiff done blk rest ifd Hr Hlen N1 N2 N3 N4 N5 Hidx Hn Hsz;
    [reflexivity|].
  cbn [deserialize_blocks].
  rewrite length_app in Hsz.
  rewrite POP_BLOCK_on by (try exact Hr; lia). cbn [bind].
  assert (Hg : (length_ blk >? 0) = true) by (rewrite Hlen; reflexivity).
  assert (Hi64 : i64 (length_ blk) = -16) by (rewrite Hlen; reflexivity).
  rewrite Hg.
  unfold POP_DATA, pop_from_buffer, cursor_on. cbn [cur_left cur_pos cur_mem].
  rewrite Hi64.
  destruct (Z.gtb_spec (-16) (Z.of_nat (length rest))) as [|_]; [lia|].
  cbn [bind].
  destruct (Z.geb_spec (index blk) (ifd_count tiff)) as [|_]; [lia|].
  rewrite Hn.
  assert (Ha : forall content, apply_block blk content ifd = Done (ifd, false)).
  { intro content. unfold apply_block.
    apply Z.eqb_neq in N1, N2, N3, N4, N5. rewrite N1, N2, N3, N4, N5. reflexivity. }
  rewrite Ha. cbn [bind].
  rewrite (update_nth_same _ _ _ _ Hn), tiff_eta.
  rewrite length_app, block_bytes_length in *.
  rewrite i64_small by lia.
  replace (Z.of_nat (length done + 16) + -16) with (Z.of_nat (length done)) by lia.
  replace (Z.of_nat (length rest) - -16)
    with (Z.of_nat (length (block_bytes blk ++ rest)))
    by (rewrite length_app, block_bytes_length; lia).
  rewrite <- app_assoc.
  change (mk_cursor (done ++ block_bytes blk ++ rest) (Z.of_nat (length done))
            (Z.of_nat (length (block_bytes blk ++ rest))))
    with (cursor_on done (block_bytes blk ++ rest)).
  apply (IH tiff done blk rest ifd); try assumption.
  rewrite !length_app, block_bytes_length. lia.
Qed.

(** X21: the block loop of [tiff_deserialize] does not end on a block of a
    type without a case in its switch whose [length] field is 2^64 - 16 and
    whose index names an IFD: the length is handed to [pop_from_buffer] as
    the signed size -16, which moves the cursor back to the start of the
    block, and the loop reads the same block again.  No fuel is enough. *)
Theorem deserialize_blocks_never_ends :
  forall (fuel : nat) (tiff : tiff_t) (done : list Z) (blk : serial_block_t)
         (rest : list Z) (ifd : tiff_ifd_t),
    block_in_range blk ->
    length_ blk = 2^64 - 16 ->
    block_type blk <> block_code SERIAL_BLOCK_TIFF_IMAGE_DESCRIPTION ->
    block_type blk <> block_code SERIAL_BLOCK_TIFF_TILE_OFFSETS ->
    block_type blk <> block_code SERIAL_BLOCK_TIFF_TILE_BYTE_COUNTS ->
    block_type blk <> block_code SERIAL_BLOCK_TIFF_JPEG_TABLES ->
    block_type blk <> block_code SERIAL_BLOCK_TERMINATOR ->
    index blk < ifd_count tiff ->
    nth_error (ifds tiff) (Z.to_nat (index blk)) = Some ifd ->
    Z.of_nat (length (done ++ block_bytes blk ++ rest)) < 2^63 ->
    deserialize_blocks fuel tiff (cursor_on done (block_bytes blk ++ rest))
    = OutOfFuel.
Proof. exact deserialize_blocks_rewinds. Qed.

End ShapeFacts.

Section BlockRoundTrip.
Context {C : common_h} {T : tiff_h} {L : lz4_h}.

Lemma u32_range : forall x, 0 <= u32 x < 2^32.
Proof. intro x. unfold u32. apply Z.mod_pos_bound. lia. Qed.

(** X23: a block header that [push_block] has appended to a buffer is read
    back by [POP_BLOCK] from the place where it was pushed, with the type
    and the index reduced to 32 bits and the length to 64, and the cursor
    is left behind it. *)
Theorem push_block_pop_block :
  forall (b b' : push_buffer_t) (type idx len : Z) (rest : list Z),
    push_block b type idx len = Done b' ->
    Z.of_nat (length rest) + 16 < 2^63 ->
    POP_BLOCK (cursor_on (pb_data b) (drop (pb_data b') (used_size b) ++ rest))
    = Done (mk_block (u32 type) (u32 idx) (u64 len),
            cursor_on (pb_data b') rest)
    /\ used_size b' = used_size b + 16.
Proof.
  intros b b' type idx len rest H Hrest.
  destruct (push_block_inv _ _ _ _ _ H) as [_ [_ Hd]].
  unfold used_size. rewrite Hd, drop_app_exact.
  split.
  - rewrite POP_BLOCK_on.
    + reflexivity.
    + unfold block_in_range. cbn [block_type index length_].
      pose proof (u32_range type). pose proof (u32_range idx).
      pose proof (u64_range len). lia.
    + rewrite length_app, block_bytes_length. lia.
  - rewrite length_app, block_bytes_length. lia.
Qed.

End BlockRoundTrip.

Lemma push_block_pop_block_witness :
  POP_BLOCK (cursor_on [1; 2; 3]
               (drop ([1; 2; 3] ++ block_bytes (mk_block 4 1 16)) 3 ++ [9]))
  = Done (mk_block 4 1 16, cursor_on ([1; 2; 3] ++ block_bytes (mk_block 4 1 16)) [9]).
Proof.
  refine (proj1 (push_block_pop_block (mk_push_buffer [] [1; 2; 3] 100)
                   (mk_push_buffer [] ([1; 2; 3] ++ block_bytes (mk_block 4 1 16)) 100)
                   (2^32 + 4) 1 16 [9] _ _)).
  - reflexivity.
  - cbn. lia.
Defined.

Lemma tiff_deserialize_shape_witness :
  exists t,
    tiff_deserialize (C := debug_build) (T := layout) (L := rle) 5
      (buffer_bytes one_ifd_buffer) = Done t
    /\ deserialized_shape t.
Proof.
  eassert (H : tiff_deserialize (C := debug_build) (T := layout) (L := rle) 5
                 (buffer_bytes one_ifd_buffer) = Done _)
    by (vm_compute; reflexivity).
  eexists. split; [exact H|].
  exact (tiff_deserialize_shape (C := debug_build) (T := layout) (L := rle) _ _ _ H).
Defined.

Lemma deserialize_blocks_never_ends_witness :
  deserialize_blocks (T := layout) 9 Samples.one_ifd_tiff
    (cursor_on [] (block_bytes (mk_block 99 0 (2^64 - 16)) ++ []))
  = OutOfFuel.
Proof.
  apply (deserialize_blocks_never_ends (T := layout)
           9 Samples.one_ifd_tiff [] (mk_block 99 0 (2^64 - 16)) [] Samples.one_ifd).
  - unfold block_in_range. cbn. lia.
  - reflexivity.
  - discriminate.
  - discriminate.
  - discriminate.
  - discriminate.
  - discriminate.
  - cbn. lia.
  - reflexivity.
  - cbn. lia.
Defined.

